(** * hidra-tts-models: the reference-text batch engine ([scripts/ref_text_.py])

    A shallow embedding of the script that fills in the [ref_text] attribute of
    the entries of [models.json] with Whisper transcripts, and the properties
    of its specification.

    Layout: Python values and the library functions the script calls, the
    catalog and references into it, the world the script runs in (memory,
    the catalog file, the trace of calls, the faults the environment
    delivers), the script's functions, then the theorems. *)

From Stdlib Require Import List NArith ZArith Bool String Ascii Lia SpecFloat Sorted.
Import ListNotations.

Set Warnings "-register-all".

(** ** Python [str]

    A Python string is a sequence of Unicode code points.  The literals of the
    script are ASCII and are written with [lit]. *)

Definition char := N.
Definition pystr := list char.

Definition lit (s : string) : pystr := map N_of_ascii (list_ascii_of_string s).

Fixpoint str_eqb (a b : pystr) : bool :=
  match a, b with
  | [], [] => true
  | x :: a', y :: b' => N.eqb x y && str_eqb a' b'
  | _, _ => false
  end.

(** [s.startswith(prefix)] *)
Fixpoint startswith (prefix s : pystr) : bool :=
  match prefix, s with
  | [], _ => true
  | p :: prefix', c :: s' => N.eqb p c && startswith prefix' s'
  | _ :: _, [] => false
  end.

(** [s.endswith(suffix)] *)
Definition endswith (suffix s : pystr) : bool :=
  startswith (rev suffix) (rev s).

(** [needle in s] on strings: substring search. *)
Fixpoint contains (needle s : pystr) : bool :=
  startswith needle s ||
  match s with
  | [] => false
  | _ :: s' => contains needle s'
  end.

(** [s.replace(old, new)] for a non-empty [old]: scan from the left, replace
    each match and resume after it.  [skip] counts the characters of a match
    still to be dropped. *)
Fixpoint replace_from (old new : pystr) (skip : nat) (s : pystr) : pystr :=
  match s with
  | [] => []
  | c :: s' =>
      match skip with
      | S k => replace_from old new k s'
      | O =>
          if startswith old s
          then new ++ replace_from old new (List.length old - 1) s'
          else c :: replace_from old new 0 s'
      end
  end.

(** [s.replace(old, new)]; with an empty [old] Python inserts [new] around
    every character. *)
Definition replace (old new s : pystr) : pystr :=
  match old with
  | [] => new ++ flat_map (fun c => c :: new) s
  | _ :: _ => replace_from old new 0 s
  end.

(** [str.isspace] on one code point (CPython's [_PyUnicode_IsWhitespace]). *)
Definition is_space (c : char) : bool :=
  ((9 <=? c) && (c <=? 13) || (28 <=? c) && (c <=? 32) ||
   (c =? 133) || (c =? 160) || (c =? 5760) ||
   (8192 <=? c) && (c <=? 8202) ||
   (c =? 8232) || (c =? 8233) || (c =? 8239) || (c =? 8287) || (c =? 12288))%N.

Fixpoint lstrip (s : pystr) : pystr :=
  match s with
  | [] => []
  | c :: s' => if is_space c then lstrip s' else s
  end.

Definition rstrip (s : pystr) : pystr := rev (lstrip (rev s)).

(** [s.strip()] *)
Definition strip (s : pystr) : pystr := rstrip (lstrip s).

(** [os.path.join(a, b)] of [posixpath], on strings. *)
Definition os_path_join (a b : pystr) : pystr :=
  if startswith (lit "/") b || match a with [] => true | _ => false end then b
  else if endswith (lit "/") a then a ++ b
  else a ++ lit "/" ++ b.

(** ** JSON values, as [json.load] builds them *)

Inductive json : Type :=
| JNull                                   (* None  *)
| JBool (b : bool)
| JInt (z : Z)
| JFloat (f : spec_float)
| JStr (s : pystr)
| JList (l : list json)
| JDict (d : list (pystr * json)).        (* a dict, in insertion order *)

Definition dict := list (pystr * json).

(** Truth value of a Python object ([if x:], [not x]). *)
Definition truthy (v : json) : bool :=
  match v with
  | JNull => false
  | JBool b => b
  | JInt z => negb (Z.eqb z 0)
  | JFloat (S754_zero _) => false
  | JFloat _ => true
  | JStr s => match s with [] => false | _ => true end
  | JList l => match l with [] => false | _ => true end
  | JDict d => match d with [] => false | _ => true end
  end.

Fixpoint dict_get (d : dict) (k : pystr) : option json :=
  match d with
  | [] => None
  | (k', v) :: d' => if str_eqb k k' then Some v else dict_get d' k
  end.

(** [d[k] = v]: an existing key keeps its place, a new key goes last. *)
Fixpoint dict_set (d : dict) (k : pystr) (v : json) : dict :=
  match d with
  | [] => [(k, v)]
  | (k', v') :: d' =>
      if str_eqb k k' then (k', v) :: d' else (k', v') :: dict_set d' k v
  end.

Definition dict_has (d : dict) (k : pystr) : bool :=
  match dict_get d k with Some _ => true | None => false end.

(** ** Exceptions *)

Inductive exn : Type :=
| KeyboardInterrupt
| TypeError
| AttributeError
| KeyError
| ValueError
| UnicodeEncodeError   (* a [ValueError]; kept apart from the decode error *)
| OSError
| RuntimeError
| Dangling.   (* not a Python exception: a reference that points at no
                 element of the catalog; no run raises it, see
                 [main_never_dangling] *)

(** [isinstance(e, Exception)]: [KeyboardInterrupt] derives from
    [BaseException] only. *)
Definition is_Exception (e : exn) : bool :=
  match e with
  | KeyboardInterrupt | Dangling => false
  | _ => true
  end.

Inductive result (A : Type) : Type :=
| Ok (a : A)
| Raise (e : exn).

Arguments Ok {A} a.
Arguments Raise {A} e.

(** [k in v] *)
Definition py_in (k : pystr) (v : json) : result bool :=
  match v with
  | JDict d => Ok (dict_has d k)
  | JList l =>
      Ok (existsb (fun x => match x with JStr s => str_eqb k s | _ => false end) l)
  | JStr s => Ok (contains k s)
  | _ => Raise TypeError
  end.

(** [v[k]] with a string [k] *)
Definition py_getitem (v : json) (k : pystr) : result json :=
  match v with
  | JDict d => match dict_get d k with Some x => Ok x | None => Raise KeyError end
  | _ => Raise TypeError
  end.

(** [d.get(k, default)] on a dict *)
Definition get_or (d : dict) (k : pystr) (default : json) : json :=
  match dict_get d k with Some x => x | None => default end.

(** [v.get(k, default)] *)
Definition py_get (v : json) (k : pystr) (default : json) : result json :=
  match v with
  | JDict d => Ok (get_or d k default)
  | _ => Raise AttributeError
  end.

(** [isinstance(v, list)] *)
Definition isinstance_list (v : json) : bool :=
  match v with JList _ => true | _ => false end.

(** ** References into the catalog

    [json.load] builds a tree: no two positions of the document share an
    object.  A reference to an entry dict (what [tasks] holds and [model]
    names) is therefore the position of the entry in the document,
    [data[root_key][group_ix][models_key][model_ix]], and a write through the
    reference is a write at that position of the one catalog in memory. *)

Record ref : Type := mkref {
  root_key : pystr;
  group_ix : nat;
  models_key : pystr;
  model_ix : nat
}.

Definition child_key (v : json) (k : pystr) : option json :=
  match v with JDict d => dict_get d k | _ => None end.

Definition child_ix (v : json) (i : nat) : option json :=
  match v with JList l => nth_error l i | _ => None end.

Definition obind {A B} (o : option A) (f : A -> option B) : option B :=
  match o with Some a => f a | None => None end.

(** The object a reference points at. *)
Definition entry_at (data : json) (r : ref) : option json :=
  obind (child_key data (root_key r)) (fun groups =>
  obind (child_ix groups (group_ix r)) (fun group =>
  obind (child_key group (models_key r)) (fun models =>
  child_ix models (model_ix r)))).

Fixpoint dict_update (d : dict) (k : pystr) (f : json -> json) : dict :=
  match d with
  | [] => []
  | (k', v) :: d' =>
      if str_eqb k k' then (k', f v) :: d' else (k', v) :: dict_update d' k f
  end.

Fixpoint list_update (l : list json) (i : nat) (f : json -> json) : list json :=
  match l, i with
  | [], _ => []
  | x :: l', O => f x :: l'
  | x :: l', S i' => x :: list_update l' i' f
  end.

Definition at_key (k : pystr) (f : json -> json) (v : json) : json :=
  match v with JDict d => JDict (dict_update d k f) | _ => v end.

Definition at_ix (i : nat) (f : json -> json) (v : json) : json :=
  match v with JList l => JList (list_update l i f) | _ => v end.

(** The catalog after the object at [r] has been replaced by its image
    under [f]. *)
Definition update_entry (data : json) (r : ref) (f : json -> json) : json :=
  at_key (root_key r) (at_ix (group_ix r)
    (at_key (models_key r) (at_ix (model_ix r) f))) data.

(** [entry[k] = v] on the object itself. *)
Definition setitem (k : pystr) (v : json) (entry : json) : json :=
  match entry with JDict d => JDict (dict_set d k v) | _ => entry end.

(** An entry still needs a transcript: [not model.get('ref_text')]. *)
Definition pending (entry : json) : bool :=
  match py_get entry (lit "ref_text") JNull with
  | Ok v => negb (truthy v)
  | Raise _ => false
  end.

(** What UTF-8 can encode: every code point but the surrogates
    ([U+D800]..[U+DFFF]), which [json.load] yields from a lone [\udXXX]
    escape. *)
Definition is_surrogate (c : char) : bool := ((55296 <=? c) && (c <=? 57343))%N.

Definition str_encodable (s : pystr) : bool := forallb (fun c => negb (is_surrogate c)) s.

(** No string of the document, key or value, holds a surrogate. *)
Fixpoint encodable (v : json) : bool :=
  match v with
  | JStr s => str_encodable s
  | JList l => forallb encodable l
  | JDict d => forallb (fun kv => match kv with
                                  | (k, x) => str_encodable k && encodable x
                                  end) d
  | _ => true
  end.

(** ** The world the script runs in *)

(** What the script logs (the [logging] calls, by line). *)
Inductive log_msg : Type :=
| FileNotFound (file_path : pystr)
| Transcribing (file_path : pystr) (language : json)
| TranscribeError (file_path : pystr) (e : exn)
| Skipping (model_name : json)
| NoFilePath (model_name : json)
| AlternativePath (alt_rel : pystr)
| Transcribed (model_name : json) (text : pystr)
| CatalogNotFound
| LoadingModels
| LoadingWhisper
| WhisperLoadFailed (e : exn)
| FoundTasks (total_tasks : nat)
| NoModels
| ProcessingModel (i total_tasks : nat) (name : json)
| SavingChanges (name : json)
| Interrupted
| ErrorProcessing (name : json) (e : exn)
| Done.

(** What an observer of a run sees, in order: log lines, the calls that leave
    the interpreter (and may block), and the writes to the catalog. *)
Inductive event : Type :=
| Log (m : log_msg)
| CallExists (path : pystr)                            (* os.path.exists *)
| CallRead                                             (* open(path,'r') + json.load *)
| CallLoadModel                                        (* whisper.load_model *)
| CallTranscribe (path : pystr) (language : option json)
| Assign (model : ref) (text : pystr)                  (* model['ref_text'] = text *)
| CallOpenW                                            (* open(path,'w') *)
| CallDump (data : json)                               (* json.dump *)
| CallFlush                                            (* f.flush *)
| CallFsync                                            (* os.fsync *)
| CallSleep.                                           (* time.sleep(0.5) *)

(** [models.json].  A content is identified with the document [json.dump]
    writes and [json.load] reads back; [Torn] is a file that is not known to
    hold a complete document (truncated, or written in part). *)
Inductive content : Type :=
| Absent
| Torn
| Document (j : json).

Record file : Type := mkfile {
  f_buffer : option json;   (* written by the program, not yet flushed *)
  f_cache : content;        (* what a reader of the file sees *)
  f_stable : content        (* what stable storage is known to hold *)
}.

(** What the environment can deliver during a call: the interruption signal
    (Ctrl-C, raised in the main thread as [KeyboardInterrupt]) or an
    input/output error ([OSError]). *)
Inductive fault : Type := Sigint | IOError.

Definition exn_of_fault (f : fault) : exn :=
  match f with
  | Sigint => KeyboardInterrupt
  | IOError => OSError
  end.

Record world : Type := mkworld {
  w_data : json;                   (* the catalog object, [data] *)
  w_updated : nat;                 (* [updated_count] *)
  w_disk : file;                   (* [models.json] *)
  w_trace : list event;
  w_faults : list (option fault)   (* what hits the next calls, if anything *)
}.

(** The surroundings of a run that do not change during it. *)
Record env : Type := mkenv {
  BASE_DIR : pystr;
  fs_exists : pystr -> bool;                          (* the audio assets *)
  whisper : pystr -> option json -> option pystr      (* result['text'], or
                                                         None when the model raises *)
}.

(** *** State and exceptions *)

Definition M (A : Type) : Type := world -> result A * world.

Definition ret {A} (a : A) : M A := fun w => (Ok a, w).

Definition raise {A} (e : exn) : M A := fun w => (Raise e, w).

Definition bind {A B} (m : M A) (k : A -> M B) : M B :=
  fun w =>
    match m w with
    | (Ok a, w') => k a w'
    | (Raise e, w') => (Raise e, w')
    end.

Notation "x <- c1 ;; c2" := (bind c1 (fun x => c2))
  (at level 61, c1 at next level, right associativity).
Notation "c1 ;; c2" := (bind c1 (fun _ => c2))
  (at level 61, right associativity).

Definition lift {A} (r : result A) : M A := fun w => (r, w).

(** [try: body / except ...: handler]: [handler e] is [None] when no clause
    matches [e]. *)
Definition try_except {A} (body : M A) (handler : exn -> option (M A)) : M A :=
  fun w =>
    match body w with
    | (Ok a, w') => (Ok a, w')
    | (Raise e, w') =>
        match handler e with
        | Some h => h w'
        | None => (Raise e, w')
        end
    end.

Definition rbind {A B} (r : result A) (k : A -> result B) : result B :=
  match r with Ok a => k a | Raise e => Raise e end.

Notation "x <~ c1 ;; c2" := (rbind c1 (fun x => c2))
  (at level 61, c1 at next level, right associativity).

(** The world after [e] has been observed; after a call, the fault that was
    pending for it is consumed. *)
Definition w_emit (e : event) (w : world) : world :=
  mkworld (w_data w) (w_updated w) (w_disk w) (w_trace w ++ [e]) (w_faults w).

Definition w_call (e : event) (w : world) : world :=
  mkworld (w_data w) (w_updated w) (w_disk w) (w_trace w ++ [e]) (tl (w_faults w)).

Definition emit (e : event) : M unit := fun w => (Ok tt, w_emit e w).

(** A log line.  [logging] contains the errors of its own handlers, and a
    log line is taken to be instantaneous: the signal and the I/O errors of
    the environment are delivered during the calls that leave the
    interpreter ([call] below), where a run spends its time. *)
Definition log (m : log_msg) : M unit := emit (Log m).

(** A call that leaves the interpreter: it is recorded, and it raises what
    the environment delivers during it (SIGINT, an I/O error), if anything. *)
Definition call (e : event) : M unit :=
  fun w =>
    match w_faults w with
    | Some f :: _ => (Raise (exn_of_fault f), w_call e w)
    | _ => (Ok tt, w_call e w)
    end.

Definition w_put_data (d : json) (w : world) : world :=
  mkworld d (w_updated w) (w_disk w) (w_trace w) (w_faults w).

Definition w_put_disk (f : file) (w : world) : world :=
  mkworld (w_data w) (w_updated w) f (w_trace w) (w_faults w).

Definition w_incr (w : world) : world :=
  mkworld (w_data w) (S (w_updated w)) (w_disk w) (w_trace w) (w_faults w).

Definition get_data : M json := fun w => (Ok (w_data w), w).

Definition put_data (d : json) : M unit := fun w => (Ok tt, w_put_data d w).

Definition get_disk : M file := fun w => (Ok (w_disk w), w).

Definition put_disk (f : file) : M unit := fun w => (Ok tt, w_put_disk f w).

(** [updated_count += 1] *)
Definition incr_updated : M unit := fun w => (Ok tt, w_incr w).

(** The object [model] names. *)
Definition deref (model : ref) : M json :=
  d <- get_data ;;
  match entry_at d model with
  | Some entry => ret entry
  | None => raise Dangling
  end.

(** [model.get(k, default)] *)
Definition entry_get (model : ref) (k : pystr) (default : json) : M json :=
  entry <- deref model ;;
  lift (py_get entry k default).

(** [model['ref_text'] = text] *)
Definition assign_ref_text (model : ref) (text : pystr) : M unit :=
  entry <- deref model ;;
  match entry with
  | JDict _ =>
      d <- get_data ;;
      put_data (update_entry d model (setitem (lit "ref_text") (JStr text))) ;;
      emit (Assign model text)
  | _ => raise TypeError
  end.

(** ** The catalog file *)

Definition open_w : M unit :=
  call CallOpenW ;;
  put_disk (mkfile None Torn Torn).         (* mode 'w' truncates *)

(** [json.dump(data, f, indent=4, ensure_ascii=False)]: the text goes to the
    file as it is, encoded in UTF-8; a string with a surrogate cannot be
    encoded and the write raises [UnicodeEncodeError], the file left as
    [open] truncated it or written in part. *)
Definition json_dump (data : json) : M unit :=
  call (CallDump data) ;;
  if encodable data then
    f <- get_disk ;;
    put_disk (mkfile (Some data) (f_cache f) (f_stable f))
  else raise UnicodeEncodeError.

Definition write_back (f : file) : file :=
  match f_buffer f with
  | Some d => mkfile None (Document d) (f_stable f)
  | None => f
  end.

Definition flush : M unit :=
  call CallFlush ;;
  f <- get_disk ;;
  put_disk (write_back f).

Definition fsync : M unit :=
  call CallFsync ;;
  f <- get_disk ;;
  put_disk (mkfile (f_buffer f) (f_cache f) (f_cache f)).

(** [with open(path, 'w') as f: body]: the file is closed, which writes the
    buffer back, however [body] ends. *)
Definition with_open_w {A} (body : M A) : M A :=
  open_w ;;
  fun w =>
    match body w with
    | (r, w') => (r, w_put_disk (write_back (w_disk w')) w')
    end.

(** [save_models_json(MODELS_JSON_PATH, data)] *)
Definition save_models_json (data : json) : M unit :=
  with_open_w (
    json_dump data ;;
    flush ;;
    fsync).

(** [load_models_json(MODELS_JSON_PATH)] *)
Definition load_models_json : M json :=
  call CallRead ;;
  f <- get_disk ;;
  match f_cache f with
  | Document j => ret j
  | Torn => raise ValueError          (* json.JSONDecodeError *)
  | Absent => raise OSError           (* FileNotFoundError *)
  end.

(** ** Enumeration of the pending entries (lines 107-124 of [main]) *)

Fixpoint scan_models (rk : pystr) (gi : nat) (mk : pystr) (mi : nat)
    (models : list json) : result (list ref) :=
  match models with
  | [] => Ok []
  | model :: rest =>
      v <~ py_get model (lit "ref_text") JNull ;;
      tasks <~ scan_models rk gi mk (S mi) rest ;;
      Ok (if truthy v then tasks else mkref rk gi mk mi :: tasks)
  end.

Definition scan_group (rk : pystr) (gi : nat) (group : json) : result (list ref) :=
  alt <~ py_in (lit "modeles") group ;;
  let models_key := if alt then lit "modeles" else lit "models" in
  present <~ py_in models_key group ;;
  if present then
    v <~ py_getitem group models_key ;;
    match v with
    | JList models => scan_models rk gi models_key 0 models
    | _ => Ok []
    end
  else Ok [].

Fixpoint scan_groups (rk : pystr) (gi : nat) (groups : list json)
    : result (list ref) :=
  match groups with
  | [] => Ok []
  | group :: rest =>
      here <~ scan_group rk gi group ;;
      later <~ scan_groups rk (S gi) rest ;;
      Ok (here ++ later)
  end.

Definition enumerate_tasks (data : json) : result (list ref) :=
  alt <~ py_in (lit "modeles") data ;;
  let root_key := if alt then lit "modeles" else lit "models" in
  present <~ py_in root_key data ;;
  if present then
    v <~ py_getitem data root_key ;;
    match v with
    | JList groups => scan_groups root_key 0 groups
    | _ => Ok []
    end
  else Ok [].

(** ** The script *)

Section Script.

Variable E : env.

Definition MODELS_JSON_PATH : pystr := os_path_join (BASE_DIR E) (lit "models.json").

(** Whether [path] exists: the catalog file by its state, an audio asset by
    the environment. *)
Definition path_exists (f : file) (path : pystr) : bool :=
  if str_eqb path MODELS_JSON_PATH
  then match f_cache f with Absent => false | _ => true end
  else fs_exists E path.

(** [os.path.exists(path)]: [os.stat] is called, and an [OSError] from it
    means that the path does not exist. *)
Definition os_path_exists (path : pystr) : M bool :=
  try_except (
    call (CallExists path) ;;
    f <- get_disk ;;
    ret (path_exists f path))
  (fun e =>
    match e with
    | OSError => Some (ret false)
    | _ => None
    end).

(** [whisper_model.transcribe(file_path, **options)['text']] *)
Definition whisper_transcribe (file_path : pystr) (options : option json) : M pystr :=
  call (CallTranscribe file_path options) ;;
  match whisper E file_path options with
  | Some text => ret text
  | None => raise RuntimeError
  end.

Definition transcribe_audio (file_path : pystr) (language : json)
    : M (option pystr) :=
  try_except (
    found <- os_path_exists file_path ;;
    if negb found then
      log (FileNotFound file_path) ;;
      ret None
    else
      log (Transcribing file_path language) ;;
      let options := if truthy language then Some language else None in
      text <- whisper_transcribe file_path options ;;
      ret (Some (strip text)))
  (fun e =>
    if is_Exception e then Some (log (TranscribeError file_path e) ;; ret None)
    else None).

(** Lines 60-76 of [process_single_model]: the absolute path of the audio
    file, with the fallback between the two directory spellings. *)
Definition resolve_audio_file (audio_file_rel : json) : M pystr :=
  match audio_file_rel with
  | JStr rel =>
      let audio_file_abs := os_path_join (BASE_DIR E) rel in
      found <- os_path_exists audio_file_abs ;;
      if negb found then
        if contains (lit "models/") rel then
          let alt_rel := replace (lit "models/") (lit "modeles/") rel in
          let alt_abs := os_path_join (BASE_DIR E) alt_rel in
          alt_found <- os_path_exists alt_abs ;;
          if alt_found then log (AlternativePath alt_rel) ;; ret alt_abs
          else ret audio_file_abs
        else if contains (lit "modeles/") rel then
          let alt_rel := replace (lit "modeles/") (lit "models/") rel in
          let alt_abs := os_path_join (BASE_DIR E) alt_rel in
          alt_found <- os_path_exists alt_abs ;;
          if alt_found then log (AlternativePath alt_rel) ;; ret alt_abs
          else ret audio_file_abs
        else ret audio_file_abs
      else ret audio_file_abs
  | _ => raise TypeError                (* os.path.join on a non-string *)
  end.

Definition nonempty (s : pystr) : bool :=
  match s with [] => false | _ => true end.

(** [process_single_model(model_entry, whisper_model)]: [(updated, text)]. *)
Definition process_single_model (model_entry : ref) : M (bool * option pystr) :=
  model_name <- entry_get model_entry (lit "name") (JStr (lit "Unknown")) ;;
  ref_text <- entry_get model_entry (lit "ref_text") JNull ;;
  if truthy ref_text then
    log (Skipping model_name) ;;
    ret (false, None)
  else
    audio_file_rel <- entry_get model_entry (lit "file") JNull ;;
    if negb (truthy audio_file_rel) then
      log (NoFilePath model_name) ;;
      ret (false, None)
    else
      audio_file_abs <- resolve_audio_file audio_file_rel ;;
      language <- entry_get model_entry (lit "language") JNull ;;
      text <- transcribe_audio audio_file_abs language ;;
      match text with
      | Some t =>
          if nonempty t then
            log (Transcribed model_name (firstn 50 t)) ;;
            ret (true, Some t)
          else ret (false, None)
      | None => ret (false, None)
      end.

(** The body of the [try] of the loop of [main] (lines 137-149). *)
Definition loop_body (total_tasks i : nat) (model : ref) : M unit :=
  name <- entry_get model (lit "name") JNull ;;
  log (ProcessingModel (i + 1) total_tasks name) ;;
  r <- process_single_model model ;;
  match r with
  | (true, Some text) =>
      if nonempty text then
        assign_ref_text model text ;;
        incr_updated ;;
        name <- entry_get model (lit "name") JNull ;;
        log (SavingChanges name) ;;
        data <- get_data ;;
        save_models_json data ;;
        call CallSleep
      else ret tt
  | _ => ret tt
  end.

(** How one turn of the loop ends: with the next turn, or with [return]. *)
Inductive flow : Type := Next | Return.

(** One turn of the loop, with its two [except] clauses (lines 136-155). *)
Definition iteration (total_tasks i : nat) (model : ref) : M flow :=
  try_except (loop_body total_tasks i model ;; ret Next)
    (fun e =>
      match e with
      | KeyboardInterrupt =>
          Some (log Interrupted ;;
                data <- get_data ;;
                save_models_json data ;;
                ret Return)
      | _ =>
          if is_Exception e then
            Some (name <- entry_get model (lit "name") JNull ;;
                  log (ErrorProcessing name e) ;;
                  ret Next)
          else None
      end).

(** [for i, model in enumerate(tasks)], from turn [i] on, then line 157. *)
Fixpoint process_tasks (total_tasks i : nat) (tasks : list ref) : M unit :=
  match tasks with
  | [] => log Done
  | model :: rest =>
      f <- iteration total_tasks i model ;;
      match f with
      | Next => process_tasks total_tasks (S i) rest
      | Return => ret tt
      end
  end.

Definition main : M unit :=
  found <- os_path_exists MODELS_JSON_PATH ;;
  if negb found then log CatalogNotFound
  else
    log LoadingModels ;;
    data <- load_models_json ;;
    put_data data ;;
    loaded <- try_except (log LoadingWhisper ;; call CallLoadModel ;; ret true)
                (fun e => if is_Exception e
                          then Some (log (WhisperLoadFailed e) ;; ret false)
                          else None) ;;
    if negb loaded then ret tt
    else
      data <- get_data ;;
      tasks <- lift (enumerate_tasks data) ;;
      let total_tasks := List.length tasks in
      log (FoundTasks total_tasks) ;;
      if Nat.eqb total_tasks 0 then log NoModels
      else process_tasks total_tasks 0 tasks.

End Script.

(** * Vocabulary of the statements *)

(** No fault is pending for the next [n] calls. *)
Fixpoint no_fault (n : nat) (faults : list (option fault)) : Prop :=
  match n, faults with
  | O, _ => True
  | S _, [] => True
  | S n', None :: faults' => no_fault n' faults'
  | S _, Some _ :: _ => False
  end.

Definition calm (n : nat) (w : world) : Prop := no_fault n (w_faults w).

(** The spelling the walk follows in a dict: ['modeles'] when the dict has
    it, ['models'] otherwise. *)
Definition selected_key (v : json) : pystr :=
  match v with
  | JDict d => if dict_has d (lit "modeles") then lit "modeles" else lit "models"
  | _ => lit "models"
  end.

(** The group a reference goes through. *)
Definition group_at (data : json) (r : ref) : option json :=
  obind (child_key data (root_key r)) (fun groups => child_ix groups (group_ix r)).

(** [r] is a pending entry under the spellings the walk follows. *)
Definition on_walk (data : json) (r : ref) : Prop :=
  root_key r = selected_key data /\
  exists group entry,
    group_at data r = Some group /\
    models_key r = selected_key group /\
    entry_at data r = Some entry /\
    pending entry = true.

(** [e] is an entry of the catalog, at [r]: an element of the list of a
    group, under the spellings the walk follows. *)
Definition entry_of (data : json) (r : ref) (e : json) : Prop :=
  root_key r = selected_key data /\
  exists group,
    group_at data r = Some group /\
    models_key r = selected_key group /\
    entry_at data r = Some e.

(** [r] is a pending entry under either spelling at either level. *)
Definition synonym (k : pystr) : Prop := k = lit "models" \/ k = lit "modeles".

Definition reachable_pending (data : json) (r : ref) : Prop :=
  synonym (root_key r) /\ synonym (models_key r) /\
  exists entry, entry_at data r = Some entry /\ pending entry = true.

(** Document order of the positions. *)
Definition ref_lt (r1 r2 : ref) : Prop :=
  group_ix r1 < group_ix r2 \/
  (group_ix r1 = group_ix r2 /\ model_ix r1 < model_ix r2).

(** A dict that carries both spellings. *)
Definition both_spellings (v : json) : bool :=
  match v with
  | JDict d => dict_has d (lit "models") && dict_has d (lit "modeles")
  | _ => false
  end.

Definition is_dict (v : json) : Prop :=
  match v with JDict _ => True | _ => False end.

(** The shape of the catalog file: a root dict, whose groups are dicts, whose
    entries are dicts (along the spellings the walk follows). *)
Definition group_shaped (group : json) : Prop :=
  match group with
  | JDict g =>
      match dict_get g (selected_key group) with
      | Some (JList models) => Forall is_dict models
      | _ => True
      end
  | _ => False
  end.

Definition catalog_shaped (data : json) : Prop :=
  match data with
  | JDict d =>
      match dict_get d (selected_key data) with
      | Some (JList groups) => Forall group_shaped groups
      | _ => True
      end
  | _ => False
  end.

(** ** Sample catalogs *)

Definition sample_entry (name file : string) : json :=
  JDict [(lit "name", JStr (lit name)); (lit "file", JStr (lit file))].

(** Both spellings at the root: one pending entry under ['models'], an empty
    collection under ['modeles']. *)
Definition both_catalog : json :=
  JDict [(lit "models",
          JList [JDict [(lit "models", JList [sample_entry "a" "models/a.wav"])]]);
         (lit "modeles", JList [])].

(** Both spellings at the root and in the group, entries under each. *)
Definition mixed_catalog : json :=
  JDict [(lit "models",
          JList [JDict [(lit "models", JList [sample_entry "a" "models/a.wav"])]]);
         (lit "modeles",
          JList [JDict [(lit "models", JList [sample_entry "b" "models/b.wav"]);
                        (lit "modeles", JList [sample_entry "c" "modeles/c.wav"])]])].

(** ** A sample environment: the repository at [/repo], whose only audio
    asset is [modeles/b.wav]. *)
Definition sample_env : env :=
  mkenv (lit "/repo")
        (fun p => str_eqb p (lit "/repo/modeles/b.wav"))
        (fun p _ => if str_eqb p (lit "/repo/modeles/b.wav")
                    then Some (lit "  hello ") else None).

(** The world before [main] runs on a catalog file holding [d]. *)
Definition start_world (d : json) (faults : list (option fault)) : world :=
  mkworld JNull 0 (mkfile None (Document d) (Document d)) [] faults.

(** The catalog after [model['ref_text'] = text]. *)
Definition set_ref_text (data : json) (r : ref) (text : pystr) : json :=
  update_entry data r (setitem (lit "ref_text") (JStr text)).

(** The world after a save of [d] that ran to its end: four calls, and the
    file holds [d] in the cache and on stable storage. *)
Definition w_saved (d : json) (w : world) : world :=
  w_put_disk (mkfile None (Document d) (Document d))
    (w_call CallFsync (w_call CallFlush (w_call (CallDump d) (w_call CallOpenW w)))).

(** The world after a save of [d] that ended inside [json.dump]: two calls,
    and the file is as [open] truncated it. *)
Definition w_torn (d : json) (w : world) : world :=
  w_put_disk (mkfile None Torn Torn) (w_call (CallDump d) (w_call CallOpenW w)).

(** The world after lines 140-149 ran to their end from [w]. *)
Definition w_committed (r : ref) (text : pystr) (name : json) (w : world) : world :=
  let data' := set_ref_text (w_data w) r text in
  w_call CallSleep
    (w_saved data'
      (w_emit (Log (SavingChanges name))
        (w_incr (w_emit (Assign r text) (w_put_data data' w))))).

(** Lines 140-149 of [main]: the branch taken on [(True, text)]. *)
Definition commit (model : ref) (text : pystr) : M unit :=
  assign_ref_text model text ;;
  incr_updated ;;
  name <- entry_get model (lit "name") JNull ;;
  log (SavingChanges name) ;;
  data <- get_data ;;
  save_models_json data ;;
  call CallSleep.

(** What the loop body does with the outcome of [process_single_model]. *)
Definition after_process (model : ref) (res : bool * option pystr) : M unit :=
  match res with
  | (true, Some text) => if nonempty text then commit model text else ret tt
  | _ => ret tt
  end.

(** The world in which [process_single_model] starts in turn [i]. *)
Definition w_turn (total_tasks i : nat) (name : json) (w : world) : world :=
  w_emit (Log (ProcessingModel (i + 1) total_tasks name)) w.

(** The two [except] clauses of the loop. *)
Definition on_interrupt : M flow :=
  log Interrupted ;;
  data <- get_data ;;
  save_models_json data ;;
  ret Return.

Definition on_exception (model : ref) (e : exn) : M flow :=
  name <- entry_get model (lit "name") JNull ;;
  log (ErrorProcessing name e) ;;
  ret Next.

(** Events that neither write the catalog nor touch its file. *)
Definition passive (e : event) : Prop :=
  match e with
  | Log _ | CallExists _ | CallTranscribe _ _ => True
  | _ => False
  end.

(** Events of a stretch of the run during which the catalog in memory is
    [d]: no assignment, and whatever is dumped is [d]. *)
Definition benign (d : json) (e : event) : Prop :=
  match e with
  | Assign _ _ | CallRead | CallLoadModel => False
  | CallDump d' => d' = d
  | _ => True
  end.

(** From [w], [m] leaves the catalog in memory and the counter alone, takes
    the file from [f] to some [f'] with [fr f f'], and adds only events
    allowed for the catalog. *)
Definition effect_at (allowed : json -> event -> Prop) (fr : file -> file -> Prop)
    {A} (m : M A) (w : world) : Prop :=
  w_data (snd (m w)) = w_data w /\
  w_updated (snd (m w)) = w_updated w /\
  fr (w_disk w) (w_disk (snd (m w))) /\
  exists t, w_trace (snd (m w)) = w_trace w ++ t /\ Forall (allowed (w_data w)) t.

Definition any_file (f f' : file) : Prop := True.

Definition read_only {A} (m : M A) : Prop :=
  forall w, effect_at (fun _ => passive) eq m w.

(** [d'] is [d] with the [ref_text] of the pending entry at [r] set to a
    non-empty [text]. *)
Definition assigned (r : ref) (text : pystr) (d d' : json) : Prop :=
  exists e, entry_at d r = Some (JDict e) /\ pending (JDict e) = true /\
            nonempty text = true /\ d' = set_ref_text d r text.

(** What one turn on [r] can do to the world: extend the trace, and either
    leave the catalog in memory alone, or assign [ref_text] at [r] once;
    whatever is dumped is the catalog in memory at that moment. *)
Definition turn_effect (r : ref) (w w' : world) : Prop :=
  exists t, w_trace w' = w_trace w ++ t /\
    ((w_data w' = w_data w /\ w_updated w' = w_updated w /\
      Forall (benign (w_data w)) t) \/
     (exists text t1 t2,
        assigned r text (w_data w) (w_data w') /\
        w_updated w' = S (w_updated w) /\
        t = t1 ++ Assign r text :: t2 /\
        Forall passive t1 /\ Forall (benign (w_data w')) t2)).

Definition ref_eqb (r r' : ref) : bool :=
  str_eqb (root_key r') (root_key r) && Nat.eqb (group_ix r) (group_ix r') &&
  str_eqb (models_key r') (models_key r) && Nat.eqb (model_ix r) (model_ix r').

(** The catalog with the [ref_text] attribute of every entry forgotten:
    what is left is the root, the groups, the entries and all their other
    attributes, in order. *)
Definition forget_entry (e : json) : json :=
  match e with
  | JDict d => JDict (filter (fun kv => negb (str_eqb (fst kv) (lit "ref_text"))) d)
  | _ => e
  end.

Definition on_items (f : json -> json) (v : json) : json :=
  match v with JList l => JList (map f l) | _ => v end.

Definition on_values (f : json -> json) (v : json) : json :=
  match v with
  | JDict d => JDict (map (fun kv => (fst kv, f (snd kv))) d)
  | _ => v
  end.

Definition forget_ref_text (data : json) : json :=
  on_values (on_items (on_values (on_items forget_entry))) data.

(** Every object of [d] that is not a pending entry is the same in [d']. *)
Definition settled_kept (d d' : json) : Prop :=
  forall r e, entry_at d r = Some e -> pending e = false -> entry_at d' r = Some e.

(** How often [ref_text] was assigned through [r]. *)
Fixpoint assign_count (r : ref) (t : list event) : nat :=
  match t with
  | [] => 0
  | Assign r' _ :: t' => (if ref_eqb r r' then 1 else 0) + assign_count r t'
  | _ :: t' => assign_count r t'
  end.

(** What holds of a run on the catalog [d0] at every moment. *)
Definition run_inv (d0 : json) (w : world) : Prop :=
  forget_ref_text (w_data w) = forget_ref_text d0 /\
  settled_kept d0 (w_data w) /\
  (forall d', In (CallDump d') (w_trace w) ->
     forget_ref_text d' = forget_ref_text d0 /\ settled_kept d0 d') /\
  (forall r, assign_count r (w_trace w) <= 1) /\
  (forall r, 1 <= assign_count r (w_trace w) ->
     exists e, entry_at (w_data w) r = Some e /\ pending e = false).

(** The events of [main] before the loop. *)
Definition init_event (e : event) : Prop :=
  match e with
  | Log _ | CallExists _ | CallRead | CallLoadModel => True
  | _ => False
  end.

(** [wk] is a world [main] can be in before the loop, having started in [w]:
    nothing written, and the catalog in memory is what it was or what the
    file holds. *)
Definition init_state (w wk : world) : Prop :=
  w_disk wk = w_disk w /\
  w_updated wk = w_updated w /\
  (exists t, w_trace wk = w_trace w ++ t /\ Forall init_event t) /\
  (w_data wk = w_data w \/ f_cache (w_disk w) = Document (w_data wk)).

(** [process_single_model] did not report a transcript, by returning
    [(False, None)] or by raising an [Exception]. *)
Definition failure (res : result (bool * option pystr)) : Prop :=
  match res with
  | Ok (true, Some _) => False
  | Ok _ => True
  | Raise e => is_Exception e = true
  end.

(** The options [transcribe_audio] passes to the model. *)
Definition whisper_options (language : json) : option json :=
  if truthy language then Some language else None.

(** [w'] differs from [w] by passive events only. *)
Definition untouched (w w' : world) : Prop :=
  w_data w' = w_data w /\ w_updated w' = w_updated w /\ w_disk w' = w_disk w /\
  exists t, w_trace w' = w_trace w ++ t /\ Forall passive t.

(** The [ref_text] attribute of the entry at [r], if any. *)
Definition ref_text_at (data : json) (r : ref) : option json :=
  obind (entry_at data r) (fun e => child_key e (lit "ref_text")).

(** How many saves were begun ([open(path, 'w')] was called). *)
Fixpoint saves_begun (t : list event) : nat :=
  match t with
  | [] => 0
  | CallOpenW :: t' => S (saves_begun t')
  | _ :: t' => saves_begun t'
  end.

(** One group with the entries [a] (asset missing under both spellings) and
    [b] (asset present under [modeles/]). *)
Definition two_entry_catalog : json :=
  JDict [(lit "models",
          JList [JDict [(lit "models",
                         JList [sample_entry "a" "models/a.wav";
                                sample_entry "b" "models/b.wav"])]])].

(** One group with the entry [b] alone. *)
Definition one_entry_catalog : json :=
  JDict [(lit "models",
          JList [JDict [(lit "models", JList [sample_entry "b" "models/b.wav"])]])].

Definition entry_0 : ref := mkref (lit "models") 0 (lit "models") 0.
Definition entry_1 : ref := mkref (lit "models") 0 (lit "models") 1.

(** The attribute [k] of the entry at [r], if any. *)
Definition attr_at (data : json) (r : ref) (k : pystr) : option json :=
  obind (entry_at data r) (fun e => child_key e k).

(** A catalog whose two entries both have a transcript. *)
Definition done_catalog : json :=
  JDict [(lit "models",
          JList [JDict [(lit "models",
                         JList [JDict [(lit "name", JStr (lit "a"));
                                       (lit "file", JStr (lit "models/a.wav"));
                                       (lit "ref_text", JStr (lit "already here"))];
                                JDict [(lit "name", JStr (lit "b"));
                                       (lit "file", JStr (lit "models/b.wav"));
                                       (lit "ref_text", JStr (lit "hello"))]])]])].

(** A catalog whose only entry has a transcript, and whose group also
    holds a list of dicts that are not entries. *)
Definition tagged_catalog : json :=
  JDict [(lit "models",
          JList [JDict [(lit "tags", JList [JDict [(lit "k", JStr (lit "v"))]]);
                        (lit "models",
                         JList [JDict [(lit "name", JStr (lit "a"));
                                       (lit "file", JStr (lit "models/a.wav"));
                                       (lit "ref_text", JStr (lit "already here"))]])]])].

(** The world at the start of the loop, [d] loaded and on file. *)
Definition loaded_world (d : json) (faults : list (option fault)) : world :=
  mkworld d 0 (mkfile None (Document d) (Document d)) [] faults.

(** The sample environment with a model that hears nothing in [b.wav]. *)
Definition blank_env : env :=
  mkenv (lit "/repo")
        (fun p => str_eqb p (lit "/repo/modeles/b.wav"))
        (fun p _ => if str_eqb p (lit "/repo/modeles/b.wav")
                    then Some [32; 10; 32]%N else None).

Definition dict_a : dict :=
  [(lit "name", JStr (lit "a")); (lit "file", JStr (lit "models/a.wav"))].

Definition dict_b : dict :=
  [(lit "name", JStr (lit "b")); (lit "file", JStr (lit "models/b.wav"))].

(** The entries the walk of one list of models, one group, finds. *)
Definition in_models (rk : pystr) (gi : nat) (mk : pystr) (mi : nat)
    (models : list json) (r : ref) : Prop :=
  root_key r = rk /\ group_ix r = gi /\ models_key r = mk /\
  mi <= model_ix r /\
  exists e, nth_error models (model_ix r - mi) = Some e /\ pending e = true.

Definition in_group (group : json) (r : ref) : Prop :=
  models_key r = selected_key group /\
  exists models e,
    child_key group (models_key r) = Some (JList models) /\
    nth_error models (model_ix r) = Some e /\ pending e = true.

(** The two existence checks of the fallback, when the alternative spelling
    is tried. *)
Definition try_alternative (E : env) (w : world) (rel alt_rel : pystr)
    : result pystr * world :=
  let primary := os_path_join (BASE_DIR E) rel in
  let alt := os_path_join (BASE_DIR E) alt_rel in
  let w2 := w_call (CallExists alt) (w_call (CallExists primary) w) in
  if path_exists E (w_disk w) alt
  then (Ok alt, w_emit (Log (AlternativePath alt_rel)) w2)
  else (Ok primary, w2).

(** What [process_single_model] does on a pending entry with a file
    attribute: resolve, transcribe, report. *)
Definition transcribe_entry (E : env) (d : dict) : M (bool * option pystr) :=
  audio_file_abs <- resolve_audio_file E (get_or d (lit "file") JNull) ;;
  text <- transcribe_audio E audio_file_abs (get_or d (lit "language") JNull) ;;
  match text with
  | Some t =>
      if nonempty t then
        log (Transcribed (get_or d (lit "name") (JStr (lit "Unknown"))) (firstn 50 t)) ;;
        ret (true, Some t)
      else ret (false, None)
  | None => ret (false, None)
  end.

(** Every reference of [tasks] points at a dict of [data]. *)
Definition refs_valid (data : json) (tasks : list ref) : Prop :=
  Forall (fun r => exists d, entry_at data r = Some (JDict d)) tasks.

(** From [w], [m] does not end on a reference that points nowhere. *)
Definition never_dangling {A} (m : M A) (w : world) : Prop :=
  forall w', m w <> (Raise Dangling, w').



(** ** Vocabulary of the further properties *)

(** The parts of [main] after the catalog file was found, after it was
    loaded, and after the model was loaded. *)
Definition main_ready (E : env) : M unit :=
  data <- get_data ;;
  tasks <- lift (enumerate_tasks data) ;;
  let total_tasks := List.length tasks in
  log (FoundTasks total_tasks) ;;
  if Nat.eqb total_tasks 0 then log NoModels
  else process_tasks E total_tasks 0 tasks.

Definition main_loaded (E : env) : M unit :=
  loaded <- try_except (log LoadingWhisper ;; call CallLoadModel ;; ret true)
              (fun e => if is_Exception e
                        then Some (log (WhisperLoadFailed e) ;; ret false)
                        else None) ;;
  if negb loaded then ret tt else main_ready E.

Definition main_found (E : env) : M unit :=
  log LoadingModels ;;
  data <- load_models_json ;;
  put_data data ;;
  main_loaded E.

(** The worlds [main] goes through before the loop when nothing fails. *)
Definition w_found (E : env) (w : world) : world :=
  w_emit (Log LoadingModels) (w_call (CallExists (MODELS_JSON_PATH E)) w).

Definition w_read (E : env) (d : json) (w : world) : world :=
  w_put_data d (w_call CallRead (w_found E w)).

Definition w_ready (E : env) (d : json) (w : world) : world :=
  w_call CallLoadModel (w_emit (Log LoadingWhisper) (w_read E d w)).

(** The exceptions the enumeration can raise. *)
Definition walk_error (e : exn) : Prop := e = TypeError \/ e = AttributeError.

(** A catalog whose only group lists the string ["oops"] among its entries. *)
Definition stray_catalog : json :=
  JDict [(lit "models",
          JList [JDict [(lit "models",
                         JList [sample_entry "b" "models/b.wav"; JStr (lit "oops")])]])].

(** How many assignments of [ref_text] a trace holds. *)
Fixpoint assignments (t : list event) : nat :=
  match t with
  | [] => 0
  | Assign _ _ :: t' => S (assignments t')
  | _ :: t' => assignments t'
  end.

(** A catalog that [json.load] accepts and UTF-8 cannot encode: the name of
    its first entry ends in the surrogate [U+D800]. *)
Definition surrogate_catalog : json :=
  JDict [(lit "models",
          JList [JDict [(lit "models",
                         JList [JDict [(lit "name", JStr [98; 55296]%N);
                                       (lit "file", JStr (lit "models/b.wav"))];
                                sample_entry "a" "models/a.wav"])]])].

(** One group with the entry [b] (asset present under [modeles/]) before
    the entry [a] (asset missing). *)
Definition b_then_a_catalog : json :=
  JDict [(lit "models",
          JList [JDict [(lit "models",
                         JList [sample_entry "b" "models/b.wav";
                                sample_entry "a" "models/a.wav"])]])].

(** A catalog whose entry declares a number as its file. *)
Definition odd_file_catalog : json :=
  JDict [(lit "models",
          JList [JDict [(lit "models",
                         JList [JDict [(lit "name", JStr (lit "n"));
                                       (lit "file", JInt 5)]])]])].

Definition dict_n : dict := [(lit "name", JStr (lit "n")); (lit "file", JInt 5)].

(** The text neither begins nor ends with white space. *)
Definition trimmed (s : pystr) : Prop :=
  match s with
  | [] => True
  | c :: _ => is_space c = false /\ is_space (last s c) = false
  end.

Definition blank (s : pystr) : Prop := Forall (fun c => is_space c = true) s.

Definition no_assign (e : event) : Prop :=
  match e with Assign _ _ => False | _ => True end.

(** [text] is what [strip] leaves of the output of a transcription that the
    trace [t] records. *)
Definition transcript_in (E : env) (t : list event) (text : pystr) : Prop :=
  exists p o raw,
    In (CallTranscribe p o) t /\ whisper E p o = Some raw /\ text = strip raw.

(** Every assignment of the trace writes a non-empty transcript made
    earlier in the trace. *)
Definition sourced (E : env) (t : list event) : Prop :=
  forall n r text,
    nth_error t n = Some (Assign r text) ->
    nonempty text = true /\ transcript_in E (firstn n t) text.

(** With no fault pending, [m] leaves none pending and is not interrupted. *)
Definition quiet {A} (m : M A) (w : world) : Prop :=
  w_faults w = [] ->
  w_faults (snd (m w)) = [] /\ fst (m w) <> Raise KeyboardInterrupt.

(** The catalog file holds the catalog in memory, in the cache and on
    stable storage, and nothing is buffered. *)
Definition file_current (w : world) : Prop :=
  w_disk w = mkfile None (Document (w_data w)) (Document (w_data w)).

(** The catalog [d] holds every transcript the trace [t] assigned. *)
Definition kept_in (d : json) (t : list event) : Prop :=
  forall r text, In (Assign r text) t ->
    exists e, entry_at d r = Some e /\ pending e = false /\
              child_key e (lit "ref_text") = Some (JStr text).

(** The catalog in memory, and every catalog that was dumped, holds the
    transcripts assigned before. *)
Definition durable (w : world) : Prop :=
  kept_in (w_data w) (w_trace w) /\
  forall n d', nth_error (w_trace w) n = Some (CallDump d') ->
               kept_in d' (firstn n (w_trace w)).

(** * Strings *)

Lemma str_eqb_eq (a b : pystr) : str_eqb a b = true <-> a = b.
Proof.
  revert b; induction a as [|x a IH]; intros [|y b]; simpl; split;
    try discriminate; try reflexivity.
  - intros H. apply andb_prop in H as [Hx Hab].
    apply N.eqb_eq in Hx. apply IH in Hab. congruence.
  - intros H. injection H as -> ->. rewrite N.eqb_refl. simpl. now apply IH.
Qed.

Lemma str_eqb_refl (a : pystr) : str_eqb a a = true.
Proof. now apply str_eqb_eq. Qed.

Lemma str_eqb_neq (a b : pystr) : str_eqb a b = false <-> a <> b.
Proof.
  split.
  - intros H Heq. apply str_eqb_eq in Heq. congruence.
  - intros H. destruct (str_eqb a b) eqn:Hab; [|reflexivity].
    apply str_eqb_eq in Hab. contradiction.
Qed.

Lemma str_eqb_sym (a b : pystr) : str_eqb a b = str_eqb b a.
Proof.
  destruct (str_eqb b a) eqn:Hba.
  - apply str_eqb_eq in Hba. subst. apply str_eqb_refl.
  - apply str_eqb_neq. apply str_eqb_neq in Hba. congruence.
Qed.

Lemma startswith_app (p s : pystr) : startswith p (p ++ s) = true.
Proof.
  induction p as [|c p IH]; simpl; [reflexivity|]. now rewrite N.eqb_refl.
Qed.

Lemma startswith_app_r (p s t : pystr) :
  startswith p s = true -> startswith p (s ++ t) = true.
Proof.
  revert s; induction p as [|c p IH]; intros [|x s]; simpl; try easy.
  intros H. apply andb_prop in H as [-> H]. simpl. now apply IH.
Qed.

Lemma startswith_inv (p s : pystr) :
  startswith p s = true -> exists t, s = p ++ t.
Proof.
  revert s; induction p as [|c p IH]; intros s H.
  - now exists s.
  - destruct s as [|x s]; [discriminate|]. simpl in H.
    apply andb_prop in H as [Hc H]. apply N.eqb_eq in Hc. subst x.
    destruct (IH _ H) as [t ->]. now exists t.
Qed.

(** A match of [p] at the head of [a ++ s] lies within [a], or runs over into
    [s] with a proper suffix of [p]. *)
Lemma startswith_app_cases (p a s : pystr) :
  startswith p (a ++ s) = true ->
  (exists a', a = p ++ a') \/
  (exists p2, p = a ++ p2 /\ p2 <> [] /\ startswith p2 s = true).
Proof.
  revert a; induction p as [|c p IH]; intros a H.
  - left. now exists a.
  - destruct a as [|x a].
    + right. exists (c :: p). repeat split; [discriminate | exact H].
    + simpl in H. apply andb_prop in H as [Hc H]. apply N.eqb_eq in Hc. subst x.
      destruct (IH _ H) as [[a' ->] | [p2 (-> & Hne & Hs)]].
      * left. now exists a'.
      * right. exists p2. now repeat split.
Qed.

Lemma contains_cons (n : pystr) (c : char) (s : pystr) :
  contains n (c :: s) = false ->
  startswith n (c :: s) = false /\ contains n s = false.
Proof. simpl. intros H. now apply orb_false_elim in H. Qed.

Lemma contains_app_token (n a b : pystr) : contains n (a ++ n ++ b) = true.
Proof.
  induction a as [|c a IH]; simpl.
  - destruct n; simpl; [now destruct b|]. rewrite N.eqb_refl, startswith_app.
    reflexivity.
  - rewrite IH. apply orb_true_r.
Qed.

Lemma replace_from_absent (old new s : pystr) :
  contains old s = false -> replace_from old new 0 s = s.
Proof.
  induction s as [|c s IH]; [reflexivity|].
  intros H. apply contains_cons in H as [H1 H2].
  cbn [replace_from]. rewrite H1. now rewrite IH.
Qed.

Lemma replace_from_skip (old new u b : pystr) :
  replace_from old new (List.length u) (u ++ b) = replace_from old new 0 b.
Proof. induction u as [|c u IH]; [reflexivity | exact IH]. Qed.

Lemma length_cons_pred (c : char) (rest : pystr) :
  List.length (c :: rest) - 1 = List.length rest.
Proof. cbn [List.length]. lia. Qed.

Lemma replace_from_head (c : char) (rest new b : pystr) :
  replace_from (c :: rest) new 0 ((c :: rest) ++ b) =
  new ++ replace_from (c :: rest) new 0 b.
Proof.
  cbn [replace_from app]. change (c :: rest ++ b) with ((c :: rest) ++ b).
  rewrite startswith_app, length_cons_pred.
  now rewrite replace_from_skip.
Qed.

Lemma replace_from_cons (old new : pystr) (c : char) (s : pystr) :
  replace_from old new 0 (c :: s) =
  if startswith old (c :: s)
  then new ++ replace_from old new (List.length old - 1) s
  else c :: replace_from old new 0 s.
Proof. reflexivity. Qed.

(** When the first character of [old] occurs nowhere else in it, two matches
    of [old] cannot overlap, and the scan replaces a match wherever it is. *)
Lemma replace_from_occurrence (m : char) (rest new a b : pystr) :
  ~ In m rest ->
  replace_from (m :: rest) new 0 (a ++ (m :: rest) ++ b) =
  replace_from (m :: rest) new 0 a ++ new ++ replace_from (m :: rest) new 0 b.
Proof.
  intros Hm. remember (List.length a) as n eqn:Hn. revert a Hn.
  induction n as [n IH] using lt_wf_ind. intros a Hn.
  destruct a as [|c a].
  - apply replace_from_head.
  - destruct (startswith (m :: rest) ((c :: a) ++ (m :: rest) ++ b)) eqn:Hs.
    + apply startswith_app_cases in Hs as [[a' Ha] | [p2 (Hp & Hne & Hs)]].
      * rewrite Ha, <- app_assoc, !replace_from_head.
        rewrite (IH (List.length a')); [now rewrite app_assoc | | reflexivity].
        subst n. rewrite Ha, length_app. cbn [List.length]. lia.
      * exfalso. injection Hp as -> ->.
        destruct p2 as [|x p2]; [now apply Hne|].
        cbn [app startswith] in Hs. apply andb_prop in Hs as [Hx _].
        apply N.eqb_eq in Hx. subst x.
        apply Hm. apply in_or_app. right. now left.
    + rewrite <- app_comm_cons in *. rewrite !replace_from_cons, Hs.
      destruct (startswith (m :: rest) (c :: a)) eqn:Hs'.
      * apply (startswith_app_r _ _ ((m :: rest) ++ b)) in Hs'.
        rewrite <- app_comm_cons in Hs'. congruence.
      * change ((c :: replace_from (m :: rest) new 0 a) ++
                new ++ replace_from (m :: rest) new 0 b)
          with (c :: (replace_from (m :: rest) new 0 a ++
                new ++ replace_from (m :: rest) new 0 b)).
        f_equal. apply (IH (List.length a)); [|reflexivity].
        subst n. cbn [List.length]. lia.
Qed.

Lemma replace_absent (old new s : pystr) :
  contains old s = false -> replace old new s = s.
Proof.
  destruct old as [|c old]; [now destruct s|]. apply replace_from_absent.
Qed.

Lemma contains_app_token_head (n b : pystr) : contains n (n ++ b) = true.
Proof. apply (contains_app_token n [] b). Qed.

Lemma replace_token_head (b : pystr) :
  replace (lit "models/") (lit "modeles/") (lit "models/" ++ b) =
  lit "modeles/" ++ replace (lit "models/") (lit "modeles/") b.
Proof. apply (replace_from_head 109%N). Qed.

(** * Running the primitives *)

Lemma calm_S (n : nat) (w : world) : calm (S n) w -> calm n w.
Proof.
  unfold calm. generalize (w_faults w). induction n as [|n IH]; [easy|].
  intros [|[e|] l]; simpl; try easy. apply IH.
Qed.

Lemma calm_w_call (n : nat) (e : event) (w : world) :
  calm (S n) w -> calm n (w_call e w).
Proof.
  unfold calm, w_call; simpl. destruct (w_faults w) as [|[x|] l]; simpl; try easy.
  now destruct n.
Qed.

Lemma call_calm (n : nat) (e : event) (w : world) :
  calm (S n) w -> call e w = (Ok tt, w_call e w).
Proof.
  unfold calm, call. now destruct (w_faults w) as [|[x|] l].
Qed.

Lemma bind_call_calm {A} (n : nat) (e : event) (k : unit -> M A) (w : world) :
  calm (S n) w -> bind (call e) k w = k tt (w_call e w).
Proof. intros H. unfold bind. now rewrite (call_calm _ _ _ H). Qed.

Lemma bind_os_path_exists {A} (E : env) (n : nat) (path : pystr)
    (k : bool -> M A) (w : world) :
  calm (S n) w ->
  bind (os_path_exists E path) k w =
  k (path_exists E (w_disk w) path) (w_call (CallExists path) w).
Proof.
  intros H. unfold os_path_exists, try_except, bind.
  now rewrite (call_calm _ _ _ H).
Qed.

(** * Path resolution *)

Lemma resolve_audio_file_calm (E : env) (rel : pystr) (w : world) :
  calm 2 w ->
  resolve_audio_file E (JStr rel) w =
  let primary := os_path_join (BASE_DIR E) rel in
  if negb (path_exists E (w_disk w) primary) then
    if contains (lit "models/") rel
    then try_alternative E w rel (replace (lit "models/") (lit "modeles/") rel)
    else if contains (lit "modeles/") rel
    then try_alternative E w rel (replace (lit "modeles/") (lit "models/") rel)
    else (Ok primary, w_call (CallExists primary) w)
  else (Ok primary, w_call (CallExists primary) w).
Proof.
  intros Hc.
  assert (Hc1 : forall e, calm 1 (w_call e w)) by (intros e; now apply calm_w_call).
  unfold resolve_audio_file. rewrite (bind_os_path_exists _ _ _ _ _ Hc).
  destruct (path_exists E (w_disk w) _); cbn [negb]; [reflexivity|].
  destruct (contains (lit "models/") rel).
  - rewrite (bind_os_path_exists _ _ _ _ _ (Hc1 _)). unfold try_alternative.
    cbn [w_disk w_call]. now destruct (path_exists E (w_disk w) _).
  - destruct (contains (lit "modeles/") rel); [|reflexivity].
    rewrite (bind_os_path_exists _ _ _ _ _ (Hc1 _)). unfold try_alternative.
    cbn [w_disk w_call]. now destruct (path_exists E (w_disk w) _).
Qed.

(** C7: the declared path joined to the base directory is used when it
    exists, with a single existence check; when it does not and the declared
    path contains [models/] (or else [modeles/]), the other spelling is
    substituted and used iff it exists; so [models/x] missing with
    [modeles/x] present resolves to the latter. *)
Theorem C7_path_fallback (E : env) (rel : pystr) (w : world) :
  calm 2 w ->
  let primary := os_path_join (BASE_DIR E) rel in
  let there := path_exists E (w_disk w) in
  let w1 := w_call (CallExists primary) w in
  (there primary = true ->
     resolve_audio_file E (JStr rel) w = (Ok primary, w1)) /\
  (there primary = false -> contains (lit "models/") rel = true ->
     resolve_audio_file E (JStr rel) w =
     try_alternative E w rel (replace (lit "models/") (lit "modeles/") rel)) /\
  (there primary = false -> contains (lit "models/") rel = false ->
   contains (lit "modeles/") rel = true ->
     resolve_audio_file E (JStr rel) w =
     try_alternative E w rel (replace (lit "modeles/") (lit "models/") rel)) /\
  (there primary = false -> contains (lit "models/") rel = false ->
   contains (lit "modeles/") rel = false ->
     resolve_audio_file E (JStr rel) w = (Ok primary, w1)) /\
  (forall x, rel = lit "models/" ++ x -> contains (lit "models/") x = false ->
     there primary = false ->
     there (os_path_join (BASE_DIR E) (lit "modeles/" ++ x)) = true ->
     fst (resolve_audio_file E (JStr rel) w) =
     Ok (os_path_join (BASE_DIR E) (lit "modeles/" ++ x))).
Proof.
  intros Hc primary there w1.
  rewrite (resolve_audio_file_calm _ _ _ Hc). fold primary there w1.
  cbv zeta. fold primary there w1. repeat split.
  - now intros ->.
  - now intros -> ->.
  - now intros -> -> ->.
  - now intros -> -> ->.
  - intros x -> Hx Hp Ha. rewrite Hp. cbn [negb].
    rewrite contains_app_token_head. unfold try_alternative.
    rewrite replace_token_head, (replace_absent _ _ _ Hx).
    fold there. now rewrite Ha.
Qed.

(** C10: the substitution rewrites the token wherever it occurs in the
    declared path, not just as its first component: each occurrence of
    [models/] (of [modeles/], in the other direction) is replaced, so a
    missing [models/models/a.wav] is looked up again as
    [modeles/modeles/a.wav]. *)
Theorem C10_replace_every_occurrence (E : env) (w : world) :
  calm 2 w ->
  let declared := lit "models/models/a.wav" in
  let primary := os_path_join (BASE_DIR E) declared in
  let alt := os_path_join (BASE_DIR E) (lit "modeles/modeles/a.wav") in
  path_exists E (w_disk w) primary = false ->
  (forall a b,
     replace (lit "models/") (lit "modeles/") (a ++ lit "models/" ++ b) =
     replace (lit "models/") (lit "modeles/") a ++ lit "modeles/" ++
     replace (lit "models/") (lit "modeles/") b) /\
  (forall a b,
     replace (lit "modeles/") (lit "models/") (a ++ lit "modeles/" ++ b) =
     replace (lit "modeles/") (lit "models/") a ++ lit "models/" ++
     replace (lit "modeles/") (lit "models/") b) /\
  replace (lit "models/") (lit "modeles/") declared = lit "modeles/modeles/a.wav" /\
  fst (resolve_audio_file E (JStr declared) w) =
    Ok (if path_exists E (w_disk w) alt then alt else primary) /\
  exists t,
    w_trace (snd (resolve_audio_file E (JStr declared) w)) =
    w_trace w ++ [CallExists primary; CallExists alt] ++ t.
Proof.
  intros Hc declared primary alt Hp.
  split; [|split; [|split; [reflexivity|]]].
  - intros a b. apply (replace_from_occurrence 109%N). simpl.
    intuition discriminate.
  - intros a b. apply (replace_from_occurrence 109%N). simpl.
    intuition discriminate.
  - rewrite (resolve_audio_file_calm _ _ _ Hc). cbv zeta.
    fold declared primary. rewrite Hp. cbn [negb].
    change (contains (lit "models/") declared) with true. cbv iota.
    change (replace (lit "models/") (lit "modeles/") declared)
      with (lit "modeles/modeles/a.wav").
    unfold try_alternative. fold declared primary alt.
    destruct (path_exists E (w_disk w) alt); cbn [fst snd w_trace w_emit w_call].
    + split; [reflexivity|]. exists [Log (AlternativePath (lit "modeles/modeles/a.wav"))].
      now rewrite <- !app_assoc.
    + split; [reflexivity|]. exists []. now rewrite <- !app_assoc.
Qed.


(** * Dicts *)

Lemma dict_get_set_other (d : dict) (k k' : pystr) (v : json) :
  str_eqb k' k = false -> dict_get (dict_set d k v) k' = dict_get d k'.
Proof.
  intros Hk. induction d as [|[k0 v0] d IH]; cbn [dict_set dict_get].
  - now rewrite Hk.
  - destruct (str_eqb k k0) eqn:Hk0; cbn [dict_get]; [|now rewrite IH].
    apply str_eqb_eq in Hk0. subst k0. now rewrite Hk.
Qed.

Lemma dict_get_set_same (d : dict) (k : pystr) (v : json) :
  dict_get (dict_set d k v) k = Some v.
Proof.
  induction d as [|[k0 v0] d IH]; cbn [dict_set dict_get].
  - now rewrite str_eqb_refl.
  - destruct (str_eqb k k0) eqn:Hk0; cbn [dict_get]; now rewrite Hk0.
Qed.

(** * Enumeration *)

Lemma scan_models_spec (rk : pystr) (gi : nat) (mk : pystr) (models : list json) :
  forall mi tasks,
    scan_models rk gi mk mi models = Ok tasks ->
    (forall r, In r tasks <-> in_models rk gi mk mi models r) /\
    StronglySorted ref_lt tasks.
Proof.
  induction models as [|model rest IH]; intros mi tasks H.
  - injection H as <-. split; [|constructor].
    intros r. split; [easy|]. intros (_ & _ & _ & _ & e & He & _).
    now destruct (model_ix r - mi).
  - cbn [scan_models] in H.
    destruct model as [| | | | | |d]; try discriminate.
    cbn [py_get rbind] in H.
    destruct (scan_models rk gi mk (S mi) rest) as [tasks'|] eqn:Hrest;
      [|discriminate].
    cbn [rbind] in H. injection H as <-.
    destruct (IH _ _ Hrest) as [Hin Hsorted].
    set (v := get_or d (lit "ref_text") JNull).
    assert (Hp : pending (JDict d) = negb (truthy v)) by reflexivity.
    assert (Hlater : forall r, in_models rk gi mk (S mi) rest r <->
              in_models rk gi mk mi (JDict d :: rest) r /\ model_ix r <> mi).
    { intros r. unfold in_models. split.
      - intros (H1 & H2 & H3 & H4 & e & He & Hpe). split; [|lia].
        repeat split; try assumption; [lia|]. exists e. split; [|assumption].
        replace (model_ix r - mi) with (S (model_ix r - S mi)) by lia. exact He.
      - intros [(H1 & H2 & H3 & H4 & e & He & Hpe) Hne].
        repeat split; try assumption; [lia|]. exists e. split; [|assumption].
        replace (model_ix r - mi) with (S (model_ix r - S mi)) in He by lia.
        exact He. }
    assert (Hhere : forall r, r = mkref rk gi mk mi /\ pending (JDict d) = true <->
              in_models rk gi mk mi (JDict d :: rest) r /\ model_ix r = mi).
    { intros r. unfold in_models. split.
      - intros [-> Hpe]. cbn [root_key group_ix models_key model_ix].
        rewrite Nat.sub_diag. repeat split; try reflexivity.
        exists (JDict d). now split.
      - intros [(H1 & H2 & H3 & H4 & e & He & Hpe) Hmi].
        rewrite Hmi, Nat.sub_diag in He. injection He as <-.
        split; [|assumption]. destruct r; cbn in *. congruence. }
    fold v. split.
    + intros r. destruct (truthy v) eqn:Hv.
      * rewrite Hin, Hlater. split; [tauto|]. intros Hr. split; [assumption|].
        intros Hmi. assert (Hh : pending (JDict d) = true) by (apply (Hhere r); tauto).
        rewrite Hp in Hh. discriminate.
      * cbn [In]. rewrite Hin, Hlater.
        assert (Hpt : pending (JDict d) = true) by exact Hp.
        split.
        -- intros [<- | Hr]; [|tauto]. apply (Hhere (mkref rk gi mk mi)). tauto.
        -- intros Hr. destruct (Nat.eq_dec (model_ix r) mi) as [Hmi|Hmi]; [|tauto].
           left. symmetry. apply (Hhere r). tauto.
    + destruct (truthy v); [assumption|]. constructor; [assumption|].
      apply Forall_forall. intros r Hr. apply Hin in Hr.
      destruct Hr as (_ & Hg & _ & Hm & _). right.
      cbn [group_ix model_ix]. split; [congruence | lia].
Qed.

(** What the walk does below a dict, at either level ([scan] is the walk of
    the list found under the selected key). *)
Lemma walk_dict_cases (d : dict) (scan : pystr -> list json -> result (list ref))
    (tasks : list ref) :
  (alt <~ py_in (lit "modeles") (JDict d) ;;
   let key := if alt then lit "modeles" else lit "models" in
   present <~ py_in key (JDict d) ;;
   if present then
     v <~ py_getitem (JDict d) key ;;
     match v with
     | JList l => scan key l
     | _ => Ok []
     end
   else Ok []) = Ok tasks ->
  (exists l, dict_get d (selected_key (JDict d)) = Some (JList l) /\
             scan (selected_key (JDict d)) l = Ok tasks) \/
  (tasks = [] /\ forall l, dict_get d (selected_key (JDict d)) <> Some (JList l)).
Proof.
  cbn [py_in rbind selected_key].
  set (key := if dict_has d (lit "modeles") then lit "modeles" else lit "models").
  unfold dict_has at 1. cbn [py_getitem].
  destruct (dict_get d key) as [v|] eqn:Hv; cbn [rbind].
  - destruct v; try (intros [= <-]; right; split; [reflexivity | congruence]).
    intros H. left. now exists l.
  - intros [= <-]. right. split; [reflexivity | congruence].
Qed.

(** Below anything but a dict the walk finds nothing, or raises. *)
Lemma walk_other_cases (v : json) (scan : pystr -> list json -> result (list ref))
    (tasks : list ref) :
  (forall d, v <> JDict d) ->
  (alt <~ py_in (lit "modeles") v ;;
   let key := if alt then lit "modeles" else lit "models" in
   present <~ py_in key v ;;
   if present then
     x <~ py_getitem v key ;;
     match x with
     | JList l => scan key l
     | _ => Ok []
     end
   else Ok []) = Ok tasks ->
  tasks = [].
Proof.
  intros Hv. destruct v; try discriminate; cbn [py_in rbind].
  - match goal with |- context [if ?b then lit "modeles" else _] => destruct b end;
      match goal with |- context [if ?b then _ else Ok []] => destruct b end;
      cbn [py_getitem rbind]; congruence.
  - match goal with |- context [if ?b then lit "modeles" else _] => destruct b end;
      match goal with |- context [if ?b then _ else Ok []] => destruct b end;
      cbn [py_getitem rbind]; congruence.
  - now destruct (Hv d).
Qed.

Lemma scan_group_spec (rk : pystr) (gi : nat) (group : json) (tasks : list ref) :
  scan_group rk gi group = Ok tasks ->
  (forall r, In r tasks <-> root_key r = rk /\ group_ix r = gi /\ in_group group r) /\
  StronglySorted ref_lt tasks.
Proof.
  intros H. unfold scan_group in H.
  assert (Hnone : (forall l, child_key group (selected_key group) <> Some (JList l)) ->
            forall r, In r [] <-> root_key r = rk /\ group_ix r = gi /\ in_group group r).
  { intros Hno r. split; [easy|]. intros (_ & _ & Hk & models & e & Hm & _).
    rewrite Hk in Hm. now apply Hno in Hm. }
  destruct group as [| | | | | |d].
  1-6: apply (walk_other_cases _ (fun key l => scan_models rk gi key 0 l)) in H;
       [subst tasks; split; [apply Hnone; easy | constructor] | congruence].
  apply (walk_dict_cases d (fun key l => scan_models rk gi key 0 l)) in H.
  destruct H as [(l & Hl & Hscan) | [-> Hno]].
  - apply scan_models_spec in Hscan as [Hin Hsorted]. split; [|assumption].
    intros r. rewrite Hin. unfold in_models, in_group. rewrite Nat.sub_0_r. split.
    + intros (H1 & H2 & H3 & _ & e & He & Hp). repeat split; try assumption.
      exists l, e. rewrite H3. now repeat split.
    + intros (H1 & H2 & H3 & models & e & Hm & He & Hp).
      repeat split; try assumption; [lia|].
      rewrite H3 in Hm. cbn [child_key] in Hm. rewrite Hl in Hm.
      injection Hm as <-. now exists e.
  - split; [|constructor]. apply Hnone. exact Hno.
Qed.

Lemma StronglySorted_app {A} (R : A -> A -> Prop) (l1 l2 : list A) :
  StronglySorted R l1 -> StronglySorted R l2 ->
  (forall x y, In x l1 -> In y l2 -> R x y) ->
  StronglySorted R (l1 ++ l2).
Proof.
  induction 1 as [|a l1 Hs IH Ha]; intros H2 Hx; [exact H2|].
  cbn [app]. constructor.
  - apply IH; [assumption|]. intros x y Hx1 Hy. apply Hx; [now right | assumption].
  - apply Forall_app. split; [assumption|].
    apply Forall_forall. intros y Hy. apply Hx; [now left | assumption].
Qed.

Lemma scan_groups_spec (rk : pystr) (groups : list json) :
  forall gi tasks,
    scan_groups rk gi groups = Ok tasks ->
    (forall r, In r tasks <->
       root_key r = rk /\ gi <= group_ix r /\
       exists group, nth_error groups (group_ix r - gi) = Some group /\
                     in_group group r) /\
    StronglySorted ref_lt tasks.
Proof.
  induction groups as [|group rest IH]; intros gi tasks H.
  - injection H as <-. split; [|constructor].
    intros r. split; [easy|]. intros (_ & _ & g & Hg & _).
    now destruct (group_ix r - gi).
  - cbn [scan_groups] in H.
    destruct (scan_group rk gi group) as [here|] eqn:Hhere; [|discriminate].
    cbn [rbind] in H.
    destruct (scan_groups rk (S gi) rest) as [later|] eqn:Hlater; [|discriminate].
    cbn [rbind] in H. injection H as <-.
    apply scan_group_spec in Hhere as [Hin1 Hs1].
    apply IH in Hlater as [Hin2 Hs2]. split.
    + intros r. rewrite in_app_iff, Hin1, Hin2. split.
      * intros [(H1 & H2 & H3) | (H1 & H2 & g & Hg & H3)].
        -- repeat split; [assumption | lia |]. exists group.
           rewrite H2, Nat.sub_diag. now split.
        -- repeat split; [assumption | lia |]. exists g. split; [|assumption].
           replace (group_ix r - gi) with (S (group_ix r - S gi)) by lia. exact Hg.
      * intros (H1 & H2 & g & Hg & H3).
        destruct (Nat.eq_dec (group_ix r) gi) as [Hgi|Hgi].
        -- left. rewrite Hgi, Nat.sub_diag in Hg. injection Hg as <-.
           split; [|split]; assumption.
        -- right. repeat split; [assumption | lia |]. exists g. split; [|assumption].
           replace (group_ix r - gi) with (S (group_ix r - S gi)) in Hg by lia.
           exact Hg.
    + apply StronglySorted_app; try assumption.
      intros x y Hx Hy. apply Hin1 in Hx. apply Hin2 in Hy. left.
      destruct Hx as (_ & -> & _). destruct Hy as (_ & Hy & _). lia.
Qed.

Lemma entry_at_chain (data : json) (r : ref) (e : json) :
  entry_at data r = Some e <->
  exists groups group models,
    child_key data (root_key r) = Some (JList groups) /\
    nth_error groups (group_ix r) = Some group /\
    child_key group (models_key r) = Some (JList models) /\
    nth_error models (model_ix r) = Some e.
Proof.
  unfold entry_at, obind. split.
  - destruct (child_key data (root_key r)) as [gs|]; [|discriminate].
    destruct gs as [| | | | |groups|]; try discriminate. cbn [child_ix].
    destruct (nth_error groups (group_ix r)) as [group|] eqn:Hg; [|discriminate].
    destruct (child_key group (models_key r)) as [ms|] eqn:Hms; [|discriminate].
    destruct ms as [| | | | |models|]; try discriminate. cbn [child_ix].
    intros H. now exists groups, group, models.
  - intros (groups & group & models & -> & H2 & H3 & H4).
    cbn [child_ix]. rewrite H2, H3. exact H4.
Qed.

(** The worklist holds exactly the pending entries under the spellings the
    walk follows, in document order. *)
Lemma enumerate_tasks_spec (data : json) (tasks : list ref) :
  enumerate_tasks data = Ok tasks ->
  (forall r, In r tasks <-> on_walk data r) /\ StronglySorted ref_lt tasks.
Proof.
  intros H. unfold enumerate_tasks in H.
  assert (Hnone : (forall l, child_key data (selected_key data) <> Some (JList l)) ->
            forall r, In r [] <-> on_walk data r).
  { intros Hno r. split; [easy|].
    intros (Hk & g & e & _ & _ & He & _).
    apply entry_at_chain in He as (groups & _ & _ & Hg & _).
    rewrite Hk in Hg. now apply Hno in Hg. }
  destruct data as [| | | | | |d].
  1-6: apply (walk_other_cases _ (fun key l => scan_groups key 0 l)) in H;
       [subst tasks; split; [apply Hnone; easy | constructor] | congruence].
  apply (walk_dict_cases d (fun key l => scan_groups key 0 l)) in H.
  destruct H as [(l & Hl & Hscan) | [-> Hno]].
  - apply scan_groups_spec in Hscan as [Hin Hsorted]. split; [|assumption].
    intros r. rewrite Hin. unfold on_walk, in_group, group_at. split.
    + intros (H1 & _ & g & Hg & H3 & models & e & Hm & He & Hp).
      rewrite Nat.sub_0_r in Hg. split; [assumption|]. exists g, e.
      rewrite H1. cbn [child_key]. rewrite Hl. cbn [obind child_ix].
      repeat split; try assumption.
      apply entry_at_chain. exists l, g, models. rewrite H1. cbn [child_key].
      now repeat split.
    + intros (H1 & g & e & Hg & H3 & He & Hp).
      rewrite H1 in Hg. cbn [child_key] in Hg. rewrite Hl in Hg.
      cbn [obind child_ix] in Hg.
      repeat split; [assumption | lia |]. exists g. rewrite Nat.sub_0_r.
      split; [assumption|]. split; [assumption|].
      apply entry_at_chain in He as (groups & g' & models & Hgs & Hg' & Hms & He).
      rewrite H1 in Hgs. cbn [child_key] in Hgs. rewrite Hl in Hgs.
      injection Hgs as <-. rewrite Hg in Hg'. injection Hg' as <-.
      now exists models, e.
  - split; [|constructor]. apply Hnone. exact Hno.
Qed.

Lemma scan_models_total (rk : pystr) (gi : nat) (mk : pystr) (models : list json) :
  Forall is_dict models ->
  forall mi, exists tasks, scan_models rk gi mk mi models = Ok tasks.
Proof.
  induction 1 as [|model rest Hd _ IH]; intros mi; [now exists []|].
  destruct model; try contradiction. cbn [scan_models py_get rbind].
  destruct (IH (S mi)) as [tasks ->]. cbn [rbind]. eauto.
Qed.

Lemma scan_group_total (rk : pystr) (gi : nat) (group : json) :
  group_shaped group -> exists tasks, scan_group rk gi group = Ok tasks.
Proof.
  destruct group as [| | | | | |g]; try contradiction.
  unfold group_shaped, scan_group. cbn [py_in rbind selected_key].
  set (key := if dict_has g (lit "modeles") then lit "modeles" else lit "models").
  unfold dict_has. cbn [py_getitem].
  destruct (dict_get g key) as [v|]; cbn [rbind]; [|now exists []].
  destruct v; try (now exists []). intros Hf. now apply scan_models_total.
Qed.

Lemma scan_groups_total (rk : pystr) (groups : list json) :
  Forall group_shaped groups ->
  forall gi, exists tasks, scan_groups rk gi groups = Ok tasks.
Proof.
  induction 1 as [|group rest Hg _ IH]; intros gi; [now exists []|].
  cbn [scan_groups]. destruct (scan_group_total rk gi _ Hg) as [here ->].
  destruct (IH (S gi)) as [later ->]. cbn [rbind]. eauto.
Qed.

Lemma enumerate_tasks_total (data : json) :
  catalog_shaped data -> exists tasks, enumerate_tasks data = Ok tasks.
Proof.
  destruct data as [| | | | | |d]; try contradiction.
  unfold catalog_shaped, enumerate_tasks. cbn [py_in rbind selected_key].
  set (key := if dict_has d (lit "modeles") then lit "modeles" else lit "models").
  unfold dict_has. cbn [py_getitem].
  destruct (dict_get d key) as [v|]; cbn [rbind]; [|now exists []].
  destruct v; try (now exists []). intros Hf. now apply scan_groups_total.
Qed.

Lemma synonym_selected (d : dict) (k : pystr) :
  synonym k -> dict_has d k = true -> both_spellings (JDict d) = false ->
  k = selected_key (JDict d).
Proof.
  cbn [both_spellings selected_key]. intros [-> | ->] Hk Hb.
  - rewrite Hk in Hb. cbn [andb] in Hb. now rewrite Hb.
  - now rewrite Hk.
Qed.

Lemma child_key_has (v : json) (k : pystr) (x : json) :
  child_key v k = Some x -> exists d, v = JDict d /\ dict_has d k = true.
Proof.
  destruct v; try discriminate. cbn [child_key]. intros H. eexists. split; [reflexivity|].
  unfold dict_has. now rewrite H.
Qed.

(** C2, as the script has it: the walk follows one spelling per dict
    (['modeles'] when present, else ['models']), and the worklist holds
    exactly the pending entries under the spellings followed, once each, in
    document order; a catalog of the documented shape always yields a
    worklist, and it misses no pending entry reachable under either spelling
    unless a dict on the way carries both spellings. *)
Theorem C2_worklist_of_selected_spellings (data : json) (tasks : list ref) :
  enumerate_tasks data = Ok tasks ->
  (forall r, In r tasks <-> on_walk data r) /\
  StronglySorted ref_lt tasks /\
  (forall r, In r tasks -> reachable_pending data r) /\
  (forall r, reachable_pending data r ->
     both_spellings data = false ->
     (forall group, group_at data r = Some group -> both_spellings group = false) ->
     In r tasks) /\
  (forall data', catalog_shaped data' -> exists tasks', enumerate_tasks data' = Ok tasks').
Proof.
  intros H. destruct (enumerate_tasks_spec _ _ H) as [Hin Hsorted].
  split; [assumption|]. split; [assumption|].
  assert (Hsyn : forall v, synonym (selected_key v)).
  { intros v. destruct v; cbn [selected_key]; try (now left).
    destruct (dict_has d (lit "modeles")); [now right | now left]. }
  split; [|split; [|exact enumerate_tasks_total]].
  - intros r Hr. apply Hin in Hr as (Hk & g & e & Hg & Hm & He & Hp).
    split; [rewrite Hk; apply Hsyn|]. split; [rewrite Hm; apply Hsyn|]. eauto.
  - intros r (Hk & Hm & e & He & Hp) Hb Hbg. apply Hin.
    pose proof He as Hc. apply entry_at_chain in Hc as (gs & g & ms & Hgs & Hg & Hms & _).
    assert (Hga : group_at data r = Some g).
    { unfold group_at. rewrite Hgs. exact Hg. }
    destruct (child_key_has _ _ _ Hgs) as (d & -> & Hd).
    destruct (child_key_has _ _ _ Hms) as (gd & -> & Hgd).
    split; [now apply synonym_selected|]. exists (JDict gd), e.
    repeat split; try assumption. apply synonym_selected; try assumption.
    now apply Hbg.
Qed.

(** C2 as stated fails: with both spellings at the root the entry under
    ['models'] is pending and reachable, and the worklist is empty. *)
Lemma C2_counterexample_both_root_keys :
  enumerate_tasks both_catalog = Ok [] /\
  reachable_pending both_catalog (mkref (lit "models") 0 (lit "models") 0) /\
  ~ (forall data tasks, enumerate_tasks data = Ok tasks ->
       forall r, reachable_pending data r -> In r tasks).
Proof.
  assert (Hr : reachable_pending both_catalog (mkref (lit "models") 0 (lit "models") 0)).
  { split; [now left|]. split; [now left|].
    exists (sample_entry "a" "models/a.wav"). now split. }
  split; [reflexivity|]. split; [exact Hr|].
  intros H. exact (H both_catalog [] eq_refl _ Hr).
Qed.

(** C9: when the root carries both spellings only ['modeles'] is walked:
    every task lies under it, no entry under ['models'] is a task, and what
    ['models'] holds has no influence on the worklist; the same holds inside
    every group that carries both. *)
Theorem C9_modeles_takes_precedence (d : dict) (tasks : list ref) :
  enumerate_tasks (JDict d) = Ok tasks ->
  (dict_has d (lit "models") = true -> dict_has d (lit "modeles") = true ->
     (forall r, In r tasks -> root_key r = lit "modeles") /\
     (forall r, root_key r = lit "models" -> ~ In r tasks) /\
     (forall v, enumerate_tasks (JDict (dict_set d (lit "models") v)) = Ok tasks)) /\
  (forall r g, group_at (JDict d) r = Some (JDict g) ->
     dict_has g (lit "models") = true -> dict_has g (lit "modeles") = true ->
     (In r tasks -> models_key r = lit "modeles") /\
     (models_key r = lit "models" -> ~ In r tasks)).
Proof.
  intros H. destruct (enumerate_tasks_spec _ _ H) as [Hin _]. split.
  - intros _ Halt.
    assert (Hroot : forall r, In r tasks -> root_key r = lit "modeles").
    { intros r Hr. apply Hin in Hr as [Hk _]. rewrite Hk.
      cbn [selected_key]. now rewrite Halt. }
    split; [assumption|]. split.
    + intros r Hk Hr. apply Hroot in Hr. rewrite Hk in Hr. discriminate.
    + intros v. rewrite <- H. unfold enumerate_tasks. cbn [py_in py_getitem].
      unfold dict_has.
      rewrite !(dict_get_set_other d (lit "models") (lit "modeles") v) by reflexivity.
      fold (dict_has d (lit "modeles")). rewrite Halt. cbn [rbind].
      rewrite !(dict_get_set_other d (lit "models") (lit "modeles") v) by reflexivity.
      reflexivity.
  - intros r g Hg _ Halt.
    assert (Hkey : In r tasks -> models_key r = lit "modeles").
    { intros Hr. apply Hin in Hr as (_ & g' & _ & Hg' & Hm & _).
      rewrite Hg in Hg'. injection Hg' as <-. rewrite Hm.
      cbn [selected_key]. now rewrite Halt. }
    split; [assumption|].
    intros Hk Hr. apply Hkey in Hr. rewrite Hk in Hr. discriminate.
Qed.


(** * Effects of the script's functions *)

Section Effect.

Variable allowed : json -> event -> Prop.
Variable fr : file -> file -> Prop.
Hypothesis fr_refl : forall f, fr f f.
Hypothesis fr_trans : forall a b c, fr a b -> fr b c -> fr a c.

Lemma effect_same {A} (m : M A) (w : world) :
  snd (m w) = w -> effect_at allowed fr m w.
Proof.
  intros H. unfold effect_at. rewrite H. repeat split; [apply fr_refl|].
  exists []. now rewrite app_nil_r.
Qed.

Lemma effect_ret {A} (a : A) (w : world) : effect_at allowed fr (ret a) w.
Proof. now apply effect_same. Qed.

Lemma effect_raise {A} (e : exn) (w : world) : effect_at allowed fr (@raise A e) w.
Proof. now apply effect_same. Qed.

Lemma effect_lift {A} (r : result A) (w : world) : effect_at allowed fr (lift r) w.
Proof. now apply effect_same. Qed.

Lemma effect_get_data (w : world) : effect_at allowed fr get_data w.
Proof. now apply effect_same. Qed.

Lemma effect_get_disk (w : world) : effect_at allowed fr get_disk w.
Proof. now apply effect_same. Qed.

Lemma effect_emit (e : event) (w : world) :
  allowed (w_data w) e -> effect_at allowed fr (emit e) w.
Proof.
  intros H. repeat split; [apply fr_refl|]. exists [e]. split; [reflexivity|].
  now constructor.
Qed.

Lemma effect_call (e : event) (w : world) :
  allowed (w_data w) e -> effect_at allowed fr (call e) w.
Proof.
  intros H. unfold effect_at, call.
  destruct (w_faults w) as [|[x|] l]; cbn [snd w_call w_data w_updated w_disk w_trace];
    (repeat split; [apply fr_refl|]; exists [e]; split; [reflexivity | now constructor]).
Qed.

Lemma effect_bind {A B} (m : M A) (k : A -> M B) (w : world) :
  effect_at allowed fr m w ->
  (forall a w1, m w = (Ok a, w1) -> effect_at allowed fr (k a) w1) ->
  effect_at allowed fr (bind m k) w.
Proof.
  unfold effect_at, bind. intros (Hd & Hu & Hf & t & Ht & Hall) Hk.
  destruct (m w) as [[a|e] w1] eqn:Hm; cbn [snd] in *.
  - destruct (Hk a w1 eq_refl) as (Hd' & Hu' & Hf' & t' & Ht' & Hall').
    repeat split; [congruence | congruence | eapply fr_trans; eassumption |].
    exists (t ++ t'). split; [rewrite Ht', Ht; now rewrite app_assoc|].
    apply Forall_app. split; [assumption|]. now rewrite <- Hd.
  - repeat split; try assumption. now exists t.
Qed.

Lemma effect_try {A} (body : M A) (handler : exn -> option (M A)) (w : world) :
  effect_at allowed fr body w ->
  (forall e h w1, body w = (Raise e, w1) -> handler e = Some h -> effect_at allowed fr h w1) ->
  effect_at allowed fr (try_except body handler) w.
Proof.
  unfold effect_at, try_except. intros (Hd & Hu & Hf & t & Ht & Hall) Hh.
  destruct (body w) as [[a|e] w1] eqn:Hm; cbn [snd] in *.
  - repeat split; try assumption. now exists t.
  - destruct (handler e) as [h|] eqn:He.
    + destruct (Hh e h w1 eq_refl He) as (Hd' & Hu' & Hf' & t' & Ht' & Hall').
      repeat split; [congruence | congruence | eapply fr_trans; eassumption |].
      exists (t ++ t'). split; [rewrite Ht', Ht; now rewrite app_assoc|].
      apply Forall_app. split; [assumption|]. now rewrite <- Hd.
    + repeat split; try assumption. now exists t.
Qed.

End Effect.

Lemma effect_weaken (allowed allowed' : json -> event -> Prop)
    (fr fr' : file -> file -> Prop) {A} (m : M A) (w : world) :
  (forall d e, allowed d e -> allowed' d e) ->
  (forall f f', fr f f' -> fr' f f') ->
  effect_at allowed fr m w -> effect_at allowed' fr' m w.
Proof.
  intros Ha Hf (Hd & Hu & Hfr & t & Ht & Hall).
  repeat split; try assumption; [now apply Hf|].
  exists t. split; [assumption|]. eapply Forall_impl; [|exact Hall]. apply Ha.
Qed.

Ltac fr_side := first [ intros; reflexivity | intros; exact I | intros; congruence ].

(** One step of a proof that a sequence of primitives has an effect. *)
Ltac effect_step :=
  match goal with
  | |- effect_at _ _ (bind _ _) _ => apply effect_bind; [fr_side | | intros ? ? _]
  | |- effect_at _ _ (try_except _ _) _ => apply effect_try; [fr_side | | intros ? ? ? _ ?]
  | |- effect_at _ _ (ret _) _ => apply effect_ret; fr_side
  | |- effect_at _ _ (raise _) _ => apply effect_raise; fr_side
  | |- effect_at _ _ (lift _) _ => apply effect_lift; fr_side
  | |- effect_at _ _ get_data _ => apply effect_get_data; fr_side
  | |- effect_at _ _ get_disk _ => apply effect_get_disk; fr_side
  | |- effect_at _ _ (log _) _ => apply effect_emit; [fr_side | exact I]
  | |- effect_at _ _ (emit _) _ => apply effect_emit; [fr_side | exact I]
  | |- effect_at _ _ (call _) _ => apply effect_call; [fr_side | exact I]
  | |- effect_at _ _ (if ?b then _ else _) _ => destruct b
  | |- effect_at _ _ (match ?x with _ => _ end) _ => destruct x
  | H : match ?x with _ => _ end = Some _ |- _ =>
      destruct x; try discriminate H; injection H as <-
  end.

Lemma ro_deref (r : ref) : read_only (deref r).
Proof. intros w. unfold deref. repeat effect_step. Qed.

Lemma ro_entry_get (r : ref) (k : pystr) (default : json) :
  read_only (entry_get r k default).
Proof.
  intros w. unfold entry_get. effect_step; [apply ro_deref|]. effect_step.
Qed.

Lemma ro_os_path_exists (E : env) (path : pystr) : read_only (os_path_exists E path).
Proof. intros w. unfold os_path_exists. repeat effect_step. Qed.

Lemma ro_whisper_transcribe (E : env) (path : pystr) (options : option json) :
  read_only (whisper_transcribe E path options).
Proof. intros w. unfold whisper_transcribe. repeat effect_step. Qed.

Lemma ro_transcribe_audio (E : env) (path : pystr) (language : json) :
  read_only (transcribe_audio E path language).
Proof.
  intros w. unfold transcribe_audio.
  effect_step.
  - effect_step; [apply ro_os_path_exists|].
    effect_step; repeat effect_step. apply ro_whisper_transcribe.
  - repeat effect_step.
Qed.

Lemma ro_resolve_audio_file (E : env) (rel : json) :
  read_only (resolve_audio_file E rel).
Proof.
  intros w. unfold resolve_audio_file.
  destruct rel; try (apply effect_raise; fr_side).
  effect_step; [apply ro_os_path_exists|].
  repeat first [ apply ro_os_path_exists | effect_step ].
Qed.

Lemma ro_process_single_model (E : env) (r : ref) :
  read_only (process_single_model E r).
Proof.
  intros w. unfold process_single_model.
  repeat first [ apply ro_entry_get | apply ro_resolve_audio_file
               | apply ro_transcribe_audio | effect_step ].
Qed.

(** * Running the script's functions *)

Lemma bind_inv {A B} (m : M A) (k : A -> M B) (w w2 : world) (r : result B) :
  bind m k w = (r, w2) ->
  (exists a w1, m w = (Ok a, w1) /\ k a w1 = (r, w2)) \/
  (exists e, m w = (Raise e, w2) /\ r = Raise e).
Proof.
  unfold bind. destruct (m w) as [[a|e] w1].
  - intros H. left. now exists a, w1.
  - intros [= <- <-]. right. now exists e.
Qed.

Lemma bind_ok_inv {A B} (m : M A) (k : A -> M B) (w w2 : world) (b : B) :
  bind m k w = (Ok b, w2) ->
  exists a w1, m w = (Ok a, w1) /\ k a w1 = (Ok b, w2).
Proof.
  intros H. apply bind_inv in H as [H | (e & _ & He)]; [assumption | discriminate].
Qed.

Lemma bind_ext_at {A B} (m : M A) (k k' : A -> M B) (w : world) :
  (forall a w1, m w = (Ok a, w1) -> k a w1 = k' a w1) ->
  bind m k w = bind m k' w.
Proof.
  intros H. unfold bind. destruct (m w) as [[a|e] w1]; [|reflexivity].
  now apply H.
Qed.

Lemma entry_get_dict (r : ref) (k : pystr) (default : json) (w : world) (d : dict) :
  entry_at (w_data w) r = Some (JDict d) ->
  entry_get r k default w = (Ok (get_or d k default), w).
Proof.
  intros H. unfold entry_get, deref, bind, get_data. now rewrite H.
Qed.

Lemma bind_entry_get_dict {A} (r : ref) (k : pystr) (default : json)
    (K : json -> M A) (w : world) (d : dict) :
  entry_at (w_data w) r = Some (JDict d) ->
  bind (entry_get r k default) K w = K (get_or d k default) w.
Proof. intros H. unfold bind. now rewrite (entry_get_dict _ _ _ _ _ H). Qed.

Lemma entry_get_ok (r : ref) (k : pystr) (default v : json) (w w1 : world) :
  entry_get r k default w = (Ok v, w1) ->
  w1 = w /\ exists d, entry_at (w_data w) r = Some (JDict d) /\ v = get_or d k default.
Proof.
  unfold entry_get, deref, bind, get_data.
  destruct (entry_at (w_data w) r) as [e|]; [|discriminate].
  destruct e; try discriminate. cbn. intros [= <- <-]. split; [reflexivity|].
  now exists d.
Qed.

Lemma read_only_data {A} (m : M A) (w w1 : world) (r : result A) :
  read_only m -> m w = (r, w1) -> w_data w1 = w_data w.
Proof. intros H Hm. destruct (H w) as [Hd _]. now rewrite Hm in Hd. Qed.

Lemma process_single_model_dict (E : env) (r : ref) (w : world) (d : dict) :
  entry_at (w_data w) r = Some (JDict d) ->
  process_single_model E r w =
  if truthy (get_or d (lit "ref_text") JNull) then
    (Ok (false, None),
     w_emit (Log (Skipping (get_or d (lit "name") (JStr (lit "Unknown"))))) w)
  else if negb (truthy (get_or d (lit "file") JNull)) then
    (Ok (false, None),
     w_emit (Log (NoFilePath (get_or d (lit "name") (JStr (lit "Unknown"))))) w)
  else transcribe_entry E d w.
Proof.
  intros H. unfold process_single_model.
  rewrite !(bind_entry_get_dict _ _ _ _ _ _ H).
  destruct (truthy (get_or d (lit "ref_text") JNull)); [reflexivity|].
  rewrite (bind_entry_get_dict _ _ _ _ _ _ H).
  destruct (truthy (get_or d (lit "file") JNull)); cbn [negb]; [|reflexivity].
  unfold transcribe_entry. apply bind_ext_at. intros p w1 Hr.
  apply (read_only_data _ _ _ _ (ro_resolve_audio_file E _)) in Hr.
  rewrite <- Hr in H. now rewrite (bind_entry_get_dict _ _ _ _ _ _ H).
Qed.

Lemma transcribe_entry_shape (E : env) (d : dict) (w w' : world)
    (b : bool) (o : option pystr) :
  transcribe_entry E d w = (Ok (b, o), w') ->
  (b = false /\ o = None) \/ (b = true /\ exists t, o = Some t /\ nonempty t = true).
Proof.
  unfold transcribe_entry. intros H.
  apply bind_ok_inv in H as (p & w1 & _ & H).
  apply bind_ok_inv in H as (text & w2 & _ & H).
  destruct text as [t|]; [|injection H as <- <- _; now left].
  destruct (nonempty t) eqn:Ht; [|injection H as <- <- _; now left].
  apply bind_ok_inv in H as (u & w3 & _ & H). injection H as <- <- _.
  right. split; [reflexivity|]. now exists t.
Qed.

(** The outcomes of [process_single_model]: [(False, None)], or [(True, text)]
    with a non-empty text on a pending entry. *)
Lemma process_single_model_shape (E : env) (r : ref) (w w' : world)
    (b : bool) (o : option pystr) :
  process_single_model E r w = (Ok (b, o), w') ->
  exists d, entry_at (w_data w) r = Some (JDict d) /\
    ((b = false /\ o = None) \/
     (b = true /\ pending (JDict d) = true /\
      exists t, o = Some t /\ nonempty t = true)).
Proof.
  intros H.
  assert (Hd : exists d, entry_at (w_data w) r = Some (JDict d)).
  { unfold process_single_model in H. apply bind_ok_inv in H as (v & w1 & Hg & _).
    apply entry_get_ok in Hg as (_ & d & Hd & _). now exists d. }
  destruct Hd as [d Hd]. exists d. split; [assumption|].
  rewrite (process_single_model_dict _ _ _ _ Hd) in H.
  destruct (truthy (get_or d (lit "ref_text") JNull)) eqn:Hrt;
    [injection H as <- <- _; now left|].
  destruct (negb (truthy (get_or d (lit "file") JNull)));
    [injection H as <- <- _; now left|].
  apply transcribe_entry_shape in H as [H | (-> & t & -> & Ht)]; [now left|].
  right. split; [reflexivity|]. split; [|now exists t].
  unfold pending. cbn [py_get]. fold (get_or d (lit "ref_text") JNull).
  now rewrite Hrt.
Qed.

(** * Writing through a reference *)

Lemma ref_eqb_eq (r r' : ref) : ref_eqb r r' = true <-> r = r'.
Proof.
  unfold ref_eqb. rewrite !andb_true_iff, !str_eqb_eq, !Nat.eqb_eq.
  destruct r, r'; cbn. split.
  - intros [[[-> ->] ->] ->]. reflexivity.
  - intros [= -> -> -> ->]. auto.
Qed.

Lemma dict_get_update (d : dict) (k k' : pystr) (F : json -> json) :
  dict_get (dict_update d k F) k' =
  if str_eqb k' k then option_map F (dict_get d k') else dict_get d k'.
Proof.
  induction d as [|[k0 v0] d IH]; cbn [dict_update dict_get].
  - now destruct (str_eqb k' k).
  - destruct (str_eqb k k0) eqn:Hk0; cbn [dict_get].
    + apply str_eqb_eq in Hk0. subst k0.
      now destruct (str_eqb k' k).
    + destruct (str_eqb k' k0) eqn:Hk'; [|exact IH].
      apply str_eqb_eq in Hk'. subst k0.
      rewrite str_eqb_sym in Hk0. now rewrite Hk0.
Qed.

Lemma nth_error_update (l : list json) (i j : nat) (F : json -> json) :
  nth_error (list_update l i F) j =
  if Nat.eqb i j then option_map F (nth_error l j) else nth_error l j.
Proof.
  revert i j; induction l as [|x l IH]; intros i j.
  - destruct j, (Nat.eqb i _); reflexivity.
  - destruct i, j; cbn [list_update nth_error Nat.eqb]; try reflexivity. apply IH.
Qed.

Lemma child_key_at_key {B} (k k' : pystr) (F : json -> json) (v : json)
    (G : json -> option B) :
  obind (child_key (at_key k F v) k') G =
  if str_eqb k' k then obind (child_key v k') (fun x => G (F x))
  else obind (child_key v k') G.
Proof.
  destruct v; cbn [at_key child_key obind]; try now destruct (str_eqb k' k).
  rewrite dict_get_update. destruct (str_eqb k' k); [|reflexivity].
  now destruct (dict_get d k').
Qed.

Lemma child_ix_at_ix {B} (i j : nat) (F : json -> json) (v : json)
    (G : json -> option B) :
  obind (child_ix (at_ix i F v) j) G =
  if Nat.eqb i j then obind (child_ix v j) (fun x => G (F x))
  else obind (child_ix v j) G.
Proof.
  destruct v; cbn [at_ix child_ix obind]; try now destruct (Nat.eqb i j).
  rewrite nth_error_update. destruct (Nat.eqb i j); [|reflexivity].
  now destruct (nth_error l j).
Qed.

(** Reading after a write through [r]: the object at [r] is the image, every
    other position is as before. *)
Lemma entry_at_update (data : json) (r r' : ref) (f : json -> json) :
  entry_at (update_entry data r f) r' =
  if ref_eqb r r' then option_map f (entry_at data r') else entry_at data r'.
Proof.
  unfold entry_at, update_entry, ref_eqb.
  rewrite child_key_at_key.
  destruct (str_eqb (root_key r') (root_key r)); [|reflexivity].
  cbn [andb]. destruct (child_key data (root_key r')) as [gs|];
    [|now destruct (_ && _ && _)].
  cbn [obind]. rewrite child_ix_at_ix.
  destruct (Nat.eqb (group_ix r) (group_ix r')); [|reflexivity].
  cbn [andb]. destruct (child_ix gs (group_ix r')) as [g|];
    [|now destruct (_ && _)].
  cbn [obind]. rewrite child_key_at_key.
  destruct (str_eqb (models_key r') (models_key r)); [|reflexivity].
  cbn [andb]. destruct (child_key g (models_key r')) as [ms|];
    [|now destruct (Nat.eqb _ _)].
  cbn [obind].
  pose proof (child_ix_at_ix (model_ix r) (model_ix r') f ms (fun x => Some x)) as H.
  unfold obind in H.
  destruct (child_ix (at_ix (model_ix r) f ms) (model_ix r')) as [x|];
    destruct (Nat.eqb (model_ix r) (model_ix r'));
    destruct (child_ix ms (model_ix r')); cbn [option_map]; congruence.
Qed.

Lemma entry_at_update_same (data : json) (r : ref) (f : json -> json) (e : json) :
  entry_at data r = Some e -> entry_at (update_entry data r f) r = Some (f e).
Proof.
  intros H. rewrite entry_at_update.
  replace (ref_eqb r r) with true by (symmetry; now apply ref_eqb_eq).
  now rewrite H.
Qed.

(** A write through a reference to a pending entry leaves every object that
    is not pending as it was. *)
Lemma entry_at_update_settled (data : json) (r r' : ref) (f : json -> json)
    (e e' : json) :
  entry_at data r = Some e -> pending e = true ->
  entry_at data r' = Some e' -> pending e' = false ->
  entry_at (update_entry data r f) r' = Some e'.
Proof.
  intros He Hp He' Hp'. rewrite entry_at_update.
  destruct (ref_eqb r r') eqn:Hr; [|assumption].
  apply ref_eqb_eq in Hr. subst r'. congruence.
Qed.

(** * The commit *)

Lemma bind_run {A B} (m : M A) (k : A -> M B) (w w1 : world) (a : A) :
  m w = (Ok a, w1) -> bind m k w = k a w1.
Proof. intros H. unfold bind. now rewrite H. Qed.

Lemma bind_raise {A B} (m : M A) (k : A -> M B) (w w1 : world) (e : exn) :
  m w = (Raise e, w1) -> bind m k w = (Raise e, w1).
Proof. intros H. unfold bind. now rewrite H. Qed.

Lemma save_calm (d : json) (w : world) :
  encodable d = true -> calm 4 w -> save_models_json d w = (Ok tt, w_saved d w).
Proof.
  intros He.
  unfold calm, save_models_json, with_open_w, open_w, json_dump, flush, fsync,
    bind, call, get_disk, put_disk, w_saved. rewrite He.
  destruct w as [wd wu wf wt fl]. cbn [w_faults].
  destruct fl as [|[x|] [|[y|] [|[z|] [|[u|] fl]]]]; cbn; try easy.
Qed.

(** Without a fault, a catalog that cannot be encoded makes the save raise
    inside [json.dump], after [open] has truncated the file. *)
Lemma save_unencodable (d : json) (w : world) :
  encodable d = false -> calm 2 w ->
  save_models_json d w = (Raise UnicodeEncodeError, w_torn d w).
Proof.
  intros He.
  unfold calm, save_models_json, with_open_w, open_w, json_dump, flush, fsync,
    bind, call, get_disk, put_disk, raise, w_torn. rewrite He.
  destruct w as [wd wu wf wt fl]. cbn [w_faults].
  destruct fl as [|[x|] [|[y|] fl]]; cbn; try easy.
Qed.

(** A fault in [json.dump] ends the save with the file truncated. *)
Lemma save_fault_in_dump (d : json) (w : world) (f : fault)
    (l : list (option fault)) :
  w_faults w = None :: Some f :: l ->
  save_models_json d w = (Raise (exn_of_fault f), w_torn d w).
Proof.
  unfold save_models_json, with_open_w, open_w, json_dump, bind, call, put_disk,
    w_torn.
  destruct w as [wd wu wf wt fl]. cbn [w_faults]. intros ->. reflexivity.
Qed.

Lemma calm_w_saved (n : nat) (d : json) (w : world) :
  calm (4 + n) w -> calm n (w_saved d w).
Proof.
  intros H. unfold w_saved. change (calm n (w_call CallFsync
    (w_call CallFlush (w_call (CallDump d) (w_call CallOpenW w))))).
  do 4 apply calm_w_call. exact H.
Qed.

Lemma get_or_set_other (d : dict) (k k' : pystr) (v default : json) :
  str_eqb k' k = false -> get_or (dict_set d k v) k' default = get_or d k' default.
Proof. intros H. unfold get_or. now rewrite dict_get_set_other. Qed.

Lemma assign_ref_text_dict (r : ref) (text : pystr) (w : world) (d : dict) :
  entry_at (w_data w) r = Some (JDict d) ->
  assign_ref_text r text w =
  (Ok tt, w_emit (Assign r text) (w_put_data (set_ref_text (w_data w) r text) w)).
Proof.
  intros H. unfold assign_ref_text, deref, bind, get_data. now rewrite H.
Qed.


(** * One turn of the loop *)

Lemma loop_body_dict (E : env) (total i : nat) (r : ref) (w : world) (d : dict) :
  entry_at (w_data w) r = Some (JDict d) ->
  loop_body E total i r w =
  bind (process_single_model E r) (after_process r)
       (w_turn total i (get_or d (lit "name") JNull) w).
Proof.
  intros H. unfold loop_body. now rewrite (bind_entry_get_dict _ _ _ _ _ _ H).
Qed.

Lemma iteration_ok (E : env) (total i : nat) (r : ref) (w w' : world) :
  loop_body E total i r w = (Ok tt, w') ->
  iteration E total i r w = (Ok Next, w').
Proof. intros H. unfold iteration, try_except, bind. now rewrite H. Qed.

Lemma iteration_interrupted (E : env) (total i : nat) (r : ref) (w w' : world) :
  loop_body E total i r w = (Raise KeyboardInterrupt, w') ->
  iteration E total i r w = on_interrupt w'.
Proof. intros H. unfold iteration, try_except, bind. now rewrite H. Qed.

Lemma iteration_exception (E : env) (total i : nat) (r : ref) (w w' : world)
    (e : exn) :
  loop_body E total i r w = (Raise e, w') -> is_Exception e = true ->
  iteration E total i r w = on_exception r e w'.
Proof.
  intros H He. unfold iteration, try_except, bind. rewrite H.
  now destruct e.
Qed.

Lemma process_tasks_next (E : env) (total i : nat) (r : ref) (rest : list ref)
    (w w' : world) :
  iteration E total i r w = (Ok Next, w') ->
  process_tasks E total i (r :: rest) w = process_tasks E total (S i) rest w'.
Proof. intros H. cbn [process_tasks]. unfold bind. now rewrite H. Qed.

Lemma process_tasks_return (E : env) (total i : nat) (r : ref) (rest : list ref)
    (w w' : world) :
  iteration E total i r w = (Ok Return, w') ->
  process_tasks E total i (r :: rest) w = (Ok tt, w').
Proof. intros H. cbn [process_tasks]. unfold bind. now rewrite H. Qed.


Lemma nonempty_neq (t : pystr) : nonempty t = true -> t <> [].
Proof. now destruct t. Qed.


(** * What a turn can do *)

Lemma passive_benign (d : json) (e : event) : passive e -> benign d e.
Proof. now destruct e. Qed.

Lemma read_only_steady {A} (m : M A) (w : world) :
  read_only m -> effect_at benign any_file m w.
Proof.
  intros H. apply (effect_weaken (fun _ => passive) benign eq any_file);
    [intros d e; apply passive_benign | easy | apply H].
Qed.

Lemma effect_put_disk (allowed : json -> event -> Prop) (f : file) (w : world) :
  effect_at allowed any_file (put_disk f) w.
Proof.
  repeat split. exists []. split; [cbn; now rewrite app_nil_r | constructor].
Qed.

Lemma save_effect (w : world) :
  effect_at benign any_file (save_models_json (w_data w)) w.
Proof.
  unfold save_models_json, with_open_w.
  assert (Hopen : effect_at benign any_file open_w w).
  { unfold open_w. effect_step; [effect_step|apply effect_put_disk]. }
  apply effect_bind; [fr_side | exact Hopen |intros a w1 Ho].
  - assert (Hd : w_data w1 = w_data w).
    { destruct Hopen as [Hd _]. now rewrite Ho in Hd. }
    rewrite <- Hd.
    set (body := json_dump (w_data w1);; flush;; fsync).
    assert (Hb : effect_at benign any_file body w1).
    { unfold body, json_dump, flush, fsync.
      repeat first [ apply effect_put_disk
                   | apply effect_call; [fr_side | reflexivity]
                   | effect_step ]. }
    unfold effect_at in *.
    destruct (body w1) as [res w2]. exact Hb.
Qed.

Lemma on_interrupt_effect (w : world) : effect_at benign any_file on_interrupt w.
Proof.
  unfold on_interrupt. effect_step; [effect_step|].
  apply effect_bind; [fr_side | apply effect_get_data; fr_side | intros d w1' Hg].
  unfold get_data in Hg. injection Hg as <- <-.
  effect_step; [apply save_effect | effect_step].
Qed.

Lemma on_exception_effect (r : ref) (e : exn) (w : world) :
  effect_at benign any_file (on_exception r e) w.
Proof.
  apply read_only_steady. intros w'. unfold on_exception.
  repeat first [ apply ro_entry_get | effect_step ].
Qed.

Lemma turn_effect_then {A} (r : ref) (w w1 : world) (h : M A) :
  turn_effect r w w1 -> effect_at benign any_file h w1 ->
  turn_effect r w (snd (h w1)).
Proof.
  intros (t & Ht & Hcase) (Hd & Hu & _ & t' & Ht' & Hall').
  exists (t ++ t'). split; [rewrite Ht', Ht; now rewrite app_assoc|].
  destruct Hcase as [(H1 & H2 & Hall) | (text & t1 & t2 & Ha & H2 & -> & Hp & Hall)].
  - left. repeat split; [congruence | congruence |].
    apply Forall_app. split; [assumption | now rewrite <- H1].
  - right. exists text, t1, (t2 ++ t'). rewrite Hd.
    repeat split; [assumption | congruence | now rewrite <- app_assoc | assumption |].
    apply Forall_app. now split.
Qed.

Lemma turn_effect_refl (r : ref) (w : world) : turn_effect r w w.
Proof.
  exists []. split; [now rewrite app_nil_r|]. left. now repeat split.
Qed.

Lemma save_body_effect (d : json) (w : world) :
  d = w_data w ->
  effect_at benign any_file
    (fun w0 => match (json_dump d;; flush;; fsync) w0 with
               | (r, w') => (r, w_put_disk (write_back (w_disk w')) w')
               end) w.
Proof.
  intros ->. set (body := json_dump (w_data w);; flush;; fsync).
  assert (Hb : effect_at benign any_file body w).
  { unfold body, json_dump, flush, fsync.
    repeat first [ apply effect_put_disk
                 | apply effect_call; [fr_side | reflexivity]
                 | effect_step ]. }
  unfold effect_at in *. destruct (body w) as [res w2]. exact Hb.
Qed.

Lemma save_unfold (d : json) (w : world) :
  save_models_json d w =
  match w_faults w with
  | Some f :: _ => (Raise (exn_of_fault f), w_call CallOpenW w)
  | _ =>
      match (json_dump d;; flush;; fsync)
              (w_put_disk (mkfile None Torn Torn) (w_call CallOpenW w)) with
      | (r, w') => (r, w_put_disk (write_back (w_disk w')) w')
      end
  end.
Proof.
  unfold save_models_json, with_open_w, open_w.
  unfold bind at 1 2. unfold call.
  now destruct (w_faults w) as [|[x|] l].
Qed.

(** A save begins with [open(path, 'w')], whatever happens next. *)
Lemma save_starts (w : world) :
  w_data (snd (save_models_json (w_data w) w)) = w_data w /\
  w_updated (snd (save_models_json (w_data w) w)) = w_updated w /\
  exists t,
    w_trace (snd (save_models_json (w_data w) w)) = w_trace w ++ CallOpenW :: t /\
    Forall (benign (w_data w)) t.
Proof.
  rewrite save_unfold.
  pose proof (save_body_effect (w_data w)
                (w_put_disk (mkfile None Torn Torn) (w_call CallOpenW w)) eq_refl)
    as (H1 & H2 & _ & t & Ht & Hall).
  destruct (w_faults w) as [|[x|] l].
  2: { split; [reflexivity|]. split; [reflexivity|]. exists []. now split. }
  all: (split; [exact H1|]); (split; [exact H2|]);
    exists t; split; [rewrite Ht; cbn; now rewrite <- app_assoc | exact Hall].
Qed.

Lemma commit_unfold (r : ref) (text : pystr) (w : world) (d : dict) :
  entry_at (w_data w) r = Some (JDict d) ->
  commit r text w =
  bind (save_models_json (set_ref_text (w_data w) r text)) (fun _ => call CallSleep)
    (w_emit (Log (SavingChanges (get_or d (lit "name") JNull)))
       (w_incr (w_emit (Assign r text)
          (w_put_data (set_ref_text (w_data w) r text) w)))).
Proof.
  intros H. unfold commit.
  rewrite (bind_run _ _ _ _ _ (assign_ref_text_dict r text w d H)).
  set (data' := set_ref_text (w_data w) r text).
  unfold bind at 1. cbn [incr_updated].
  assert (H' : entry_at data' r = Some (JDict (dict_set d (lit "ref_text") (JStr text)))).
  { exact (entry_at_update_same _ _ (setitem (lit "ref_text") (JStr text)) _ H). }
  rewrite (bind_entry_get_dict r _ _ _
             (w_incr (w_emit (Assign r text) (w_put_data data' w))) _ H').
  rewrite get_or_set_other by reflexivity.
  reflexivity.
Qed.

Lemma commit_effect (r : ref) (text : pystr) (w : world) (d : dict) :
  entry_at (w_data w) r = Some (JDict d) ->
  w_data (snd (commit r text w)) = set_ref_text (w_data w) r text /\
  w_updated (snd (commit r text w)) = S (w_updated w) /\
  exists t,
    w_trace (snd (commit r text w)) =
    w_trace w ++ Assign r text ::
                 Log (SavingChanges (get_or d (lit "name") JNull)) :: CallOpenW :: t /\
    Forall (benign (set_ref_text (w_data w) r text)) t.
Proof.
  intros H. rewrite (commit_unfold _ _ _ _ H).
  set (data' := set_ref_text (w_data w) r text).
  set (W := w_emit _ (w_incr _)).
  destruct (save_starts W) as (H1 & H2 & t & Ht & Hall).
  change (w_data W) with data' in *.
  destruct (save_models_json data' W) as [[u|e] W1] eqn:Hsave; cbn [snd] in *.
  2: rewrite (bind_raise _ _ _ _ _ Hsave); cbn [snd].
  1: rewrite (bind_run _ _ _ _ _ Hsave).
  - assert (Hs : effect_at benign any_file (call CallSleep) W1)
      by (apply effect_call; [fr_side | exact I]).
    destruct Hs as (H1' & H2' & _ & t' & Ht' & Hall').
    split; [congruence|]. split; [rewrite H2', H2; reflexivity|].
    exists (t ++ t'). split.
    + rewrite Ht', Ht. unfold W. cbn. now rewrite <- !app_assoc.
    + apply Forall_app. split; [assumption | now rewrite <- H1].
  - split; [assumption|]. split; [assumption|].
    exists t. split; [|assumption].
    rewrite Ht. unfold W. cbn. now rewrite <- !app_assoc.
Qed.

Lemma commit_calm (r : ref) (text : pystr) (w : world) (d : dict) :
  entry_at (w_data w) r = Some (JDict d) -> calm 5 w ->
  encodable (set_ref_text (w_data w) r text) = true ->
  commit r text w = (Ok tt, w_committed r text (get_or d (lit "name") JNull) w).
Proof.
  intros H Hc He. rewrite (commit_unfold _ _ _ _ H).
  erewrite bind_run by (apply save_calm; [exact He | now apply calm_S]).
  apply (call_calm 0). apply calm_w_saved. exact Hc.
Qed.

Lemma entry_get_not_dict (r : ref) (k : pystr) (default : json) (w : world) :
  (forall d, entry_at (w_data w) r <> Some (JDict d)) ->
  exists e, entry_get r k default w = (Raise e, w).
Proof.
  intros H. unfold entry_get, deref, bind, get_data.
  destruct (entry_at (w_data w) r) as [x|]; [|now exists Dangling].
  destruct x; try (now exists AttributeError). now destruct (H d).
Qed.

Lemma loop_body_effect (E : env) (total i : nat) (r : ref) (w : world) :
  turn_effect r w (snd (loop_body E total i r w)).
Proof.
  destruct (entry_at (w_data w) r) as [[| | | | | |d]|] eqn:Hd.
  1-6,8: destruct (entry_get_not_dict r (lit "name") JNull w) as [e He];
         [intros ? ?; congruence|]; unfold loop_body; rewrite (bind_raise _ _ _ _ _ He);
         apply turn_effect_refl.
  rewrite (loop_body_dict _ _ _ _ _ _ Hd).
  set (w1 := w_turn total i (get_or d (lit "name") JNull) w).
  destruct (ro_process_single_model E r w1) as (H1 & H2 & _ & t & Ht & Hall).
  destruct (process_single_model E r w1) as [[[b o]|e] w2] eqn:Hp; cbn [snd] in *.
  - rewrite (bind_run _ _ _ _ _ Hp).
    assert (Hpas : exists t1, w_trace w2 = w_trace w ++ t1 /\ Forall passive t1).
    { exists (Log (ProcessingModel (i + 1) total (get_or d (lit "name") JNull)) :: t).
      split; [rewrite Ht; unfold w1; cbn; now rewrite <- app_assoc|].
      constructor; [exact I | assumption]. }
    destruct Hpas as (t1 & Ht1 & Hall1).
    destruct (process_single_model_shape _ _ _ _ _ _ Hp) as (d' & Hd' & Hs).
    change (w_data w1) with (w_data w) in *. rewrite Hd in Hd'. injection Hd' as <-.
    destruct Hs as [[-> ->] | (-> & Hpend & text & -> & Hne)].
    + cbn [after_process ret snd]. exists t1. split; [assumption|]. left.
      repeat split; try assumption.
      eapply Forall_impl; [|exact Hall1]. apply passive_benign.
    + cbn [after_process]. rewrite Hne.
      assert (Hd2 : entry_at (w_data w2) r = Some (JDict d)) by now rewrite H1.
      destruct (commit_effect r text w2 d Hd2) as (Hc1 & Hc2 & t2 & Ht2 & Hall2).
      rewrite H1 in Hc1, Hall2.
      exists (t1 ++ Assign r text :: Log (SavingChanges (get_or d (lit "name") JNull))
                 :: CallOpenW :: t2).
      split; [rewrite Ht2, Ht1; now rewrite <- app_assoc|].
      right. eexists text, t1, _. rewrite Hc1.
      split; [exists d; now repeat split|].
      split; [rewrite Hc2, H2; reflexivity|].
      split; [reflexivity|]. split; [assumption|].
      constructor; [exact I|]. constructor; [exact I | assumption].
  - rewrite (bind_raise _ _ _ _ _ Hp). cbn [snd].
    exists (Log (ProcessingModel (i + 1) total (get_or d (lit "name") JNull)) :: t).
    split; [rewrite Ht; unfold w1; cbn; now rewrite <- app_assoc|].
    left. repeat split; try assumption.
    constructor; [exact I|]. eapply Forall_impl; [|exact Hall]. apply passive_benign.
Qed.

Lemma iteration_cases (E : env) (total i : nat) (r : ref) (w : world) :
  iteration E total i r w =
  match loop_body E total i r w with
  | (Ok _, w') => (Ok Next, w')
  | (Raise KeyboardInterrupt, w') => on_interrupt w'
  | (Raise e, w') => if is_Exception e then on_exception r e w' else (Raise e, w')
  end.
Proof.
  unfold iteration, try_except, bind.
  destruct (loop_body E total i r w) as [[u|e] w']; [reflexivity|].
  now destruct e.
Qed.

(** Whatever happens in a turn on [r], its effect is a [turn_effect]. *)
Lemma iteration_effect (E : env) (total i : nat) (r : ref) (w : world) :
  turn_effect r w (snd (iteration E total i r w)).
Proof.
  rewrite iteration_cases. pose proof (loop_body_effect E total i r w) as H.
  destruct (loop_body E total i r w) as [[u|e] w']; cbn [snd] in *; [assumption|].
  destruct e; cbn [is_Exception]; cbn [snd];
    first [ assumption
          | apply turn_effect_then; [assumption | apply on_interrupt_effect]
          | apply turn_effect_then; [assumption | apply on_exception_effect] ].
Qed.

(** * What a run preserves *)

Lemma forget_entry_setitem (v e : json) :
  forget_entry (setitem (lit "ref_text") v e) = forget_entry e.
Proof.
  destruct e; try reflexivity. cbn [setitem forget_entry]. f_equal.
  induction d as [|[k x] d IH]; [reflexivity|].
  cbn [dict_set]. destruct (str_eqb (lit "ref_text") k) eqn:Hk.
  - cbn [filter fst]. now rewrite str_eqb_sym, Hk.
  - cbn [filter fst]. rewrite IH. reflexivity.
Qed.

Lemma on_values_at_key (G F : json -> json) (k : pystr) (v : json) :
  (forall x, G (F x) = G x) -> on_values G (at_key k F v) = on_values G v.
Proof.
  intros H. destruct v; try reflexivity. cbn [at_key on_values]. f_equal.
  induction d as [|[k0 x] d IH]; [reflexivity|].
  cbn [dict_update]. destruct (str_eqb k k0); cbn [map fst snd].
  - now rewrite H.
  - now rewrite IH.
Qed.

Lemma on_items_at_ix (G F : json -> json) (i : nat) (v : json) :
  (forall x, G (F x) = G x) -> on_items G (at_ix i F v) = on_items G v.
Proof.
  intros H. destruct v; try reflexivity. cbn [at_ix on_items]. f_equal.
  revert i; induction l as [|x l IH]; intros i; [now destruct i|].
  destruct i; cbn [list_update map]; [now rewrite H | now rewrite IH].
Qed.

Lemma forget_set_ref_text (d : json) (r : ref) (text : pystr) :
  forget_ref_text (set_ref_text d r text) = forget_ref_text d.
Proof.
  unfold forget_ref_text, set_ref_text, update_entry.
  apply on_values_at_key. intros gs. apply on_items_at_ix. intros g.
  apply on_values_at_key. intros ms. apply on_items_at_ix. intros e.
  apply forget_entry_setitem.
Qed.

Lemma assign_count_app (r : ref) (t1 t2 : list event) :
  assign_count r (t1 ++ t2) = assign_count r t1 + assign_count r t2.
Proof.
  induction t1 as [|e t1 IH]; [reflexivity|].
  destruct e; cbn [app assign_count]; rewrite IH; lia.
Qed.

Lemma assign_count_benign (r : ref) (d : json) (t : list event) :
  Forall (benign d) t -> assign_count r t = 0.
Proof.
  induction 1 as [|e t He _ IH]; [reflexivity|].
  destruct e; cbn [assign_count]; try assumption. contradiction.
Qed.

Lemma assigned_settled (r : ref) (text : pystr) (d d' : json) :
  assigned r text d d' ->
  settled_kept d d' /\
  exists e, entry_at d' r = Some e /\ pending e = false.
Proof.
  intros (e & He & Hp & Hne & ->). split.
  - intros r' e' He' Hp'.
    now apply (entry_at_update_settled _ r r' _ (JDict e) e').
  - exists (JDict (dict_set e (lit "ref_text") (JStr text))).
    split; [exact (entry_at_update_same _ _ (setitem (lit "ref_text") (JStr text)) _ He)|].
    unfold pending. cbn [py_get]. unfold get_or. rewrite dict_get_set_same.
    now destruct text.
Qed.

Lemma settled_kept_trans (a b c : json) :
  settled_kept a b -> settled_kept b c -> settled_kept a c.
Proof. intros H1 H2 r e He Hp. apply H2; [now apply H1 | assumption]. Qed.

Lemma turn_preserves (d0 : json) (r : ref) (w w' : world) :
  run_inv d0 w -> turn_effect r w w' -> run_inv d0 w'.
Proof.
  intros (If & Is & Id & Ic & Ip) (t & Ht & Hcase).
  destruct Hcase as [(H1 & H2 & Hall) | (text & t1 & t2 & Ha & H2 & -> & Hp1 & Hall2)].
  - unfold run_inv. rewrite Ht, H1.
    split; [assumption|]. split; [assumption|]. split; [|split].
    + intros d' Hin. apply in_app_or in Hin as [Hin | Hin]; [now apply Id|].
      rewrite Forall_forall in Hall. apply Hall in Hin. cbn in Hin. subst d'.
      now split.
    + intros r'. rewrite assign_count_app, (assign_count_benign _ _ _ Hall).
      rewrite Nat.add_0_r. apply Ic.
    + intros r'. rewrite assign_count_app, (assign_count_benign _ _ _ Hall).
      rewrite Nat.add_0_r. apply Ip.
  - destruct (assigned_settled _ _ _ _ Ha) as (Hk & e' & He' & Hp').
    assert (Hf' : forget_ref_text (w_data w') = forget_ref_text d0).
    { destruct Ha as (e & _ & _ & _ & ->). now rewrite forget_set_ref_text. }
    assert (Hs' : settled_kept d0 (w_data w'))
      by (eapply settled_kept_trans; eassumption).
    assert (Hcount : forall r', assign_count r' (w_trace w') =
              assign_count r' (w_trace w) + (if ref_eqb r' r then 1 else 0)).
    { intros r'. rewrite Ht, !assign_count_app. cbn [assign_count].
      rewrite (assign_count_benign r' (w_data w) t1)
        by (eapply Forall_impl; [|exact Hp1]; apply passive_benign).
      rewrite (assign_count_benign _ _ _ Hall2). lia. }
    assert (Hzero : assign_count r (w_trace w) = 0).
    { destruct (assign_count r (w_trace w)) eqn:Hn; [reflexivity|].
      destruct (Ip r) as (e0 & He0 & Hp0); [lia|].
      destruct Ha as (e & He & Hpe & _). congruence. }
    unfold run_inv. split; [assumption|]. split; [assumption|]. split; [|split].
    + rewrite Ht. intros d' Hin. apply in_app_or in Hin as [Hin | Hin]; [now apply Id|].
      apply in_app_or in Hin as [Hin | Hin].
      * rewrite Forall_forall in Hp1. apply Hp1 in Hin. contradiction.
      * destruct Hin as [Hin | Hin]; [discriminate|].
        rewrite Forall_forall in Hall2. apply Hall2 in Hin. cbn in Hin. subst d'.
        now split.
    + intros r'. rewrite Hcount. destruct (ref_eqb r' r) eqn:Hr; [|rewrite Nat.add_0_r; apply Ic].
      apply ref_eqb_eq in Hr. subst r'. lia.
    + intros r'. rewrite Hcount. destruct (ref_eqb r' r) eqn:Hr.
      * apply ref_eqb_eq in Hr. subst r'. intros _. now exists e'.
      * rewrite Nat.add_0_r. intros Hn. destruct (Ip r' Hn) as (e0 & He0 & Hp0).
        exists e0. split; [now apply Hk | assumption].
Qed.

(** The loop keeps the invariant of the run, however it ends. *)
Lemma process_tasks_inv (E : env) (total : nat) (d0 : json) (tasks : list ref) :
  forall i w, run_inv d0 w -> run_inv d0 (snd (process_tasks E total i tasks w)).
Proof.
  induction tasks as [|r rest IH]; intros i w Hw.
  - cbn [process_tasks]. apply (turn_preserves d0 (mkref [] 0 [] 0) w); [assumption|].
    exists [Log Done]. split; [reflexivity|]. left. repeat split.
    constructor; [exact I | constructor].
  - cbn [process_tasks]. unfold bind.
    pose proof (iteration_effect E total i r w) as He.
    destruct (iteration E total i r w) as [[f|e] w1]; cbn [snd] in *.
    + destruct f; [apply IH|]; now apply (turn_preserves d0 r w).
    + now apply (turn_preserves d0 r w).
Qed.

(** * The run as a whole *)

Lemma init_state_refl (w : world) : init_state w w.
Proof.
  repeat split; [|now left]. exists []. split; [now rewrite app_nil_r | constructor].
Qed.

Lemma init_state_step {A} (w wk wk' : world) (m : M A) (r : result A) :
  init_state w wk ->
  effect_at (fun _ => init_event) eq m wk ->
  m wk = (r, wk') ->
  init_state w wk'.
Proof.
  intros (Hd & Hu & (t & Ht & Hall) & Hdata) (H1 & H2 & H3 & t' & Ht' & Hall') Hm.
  rewrite Hm in *. cbn [snd] in *.
  split; [congruence|]. split; [congruence|]. split.
  - exists (t ++ t'). split; [rewrite Ht', Ht; now rewrite app_assoc|].
    apply Forall_app. now split.
  - now rewrite H1.
Qed.

Lemma init_state_put (w wk : world) (d : json) :
  init_state w wk -> f_cache (w_disk w) = Document d ->
  init_state w (w_put_data d wk).
Proof.
  intros (Hd & Hu & Ht & _) Hc. split; [assumption|]. split; [assumption|].
  split; [assumption|]. now right.
Qed.

Ltac init_step :=
  repeat first
    [ apply effect_call; [fr_side | exact I]
    | apply effect_emit; [fr_side | exact I]
    | effect_step ].

Lemma load_models_json_ok (w w1 : world) (d : json) :
  load_models_json w = (Ok d, w1) -> f_cache (w_disk w) = Document d.
Proof.
  unfold load_models_json. intros H.
  apply bind_ok_inv in H as (u & w2 & Hc & H).
  assert (Hd : w_disk w2 = w_disk w).
  { unfold call in Hc. destruct (w_faults w) as [|[x|] l]; try discriminate;
      injection Hc as _ <-; reflexivity. }
  unfold bind, get_disk in H. rewrite Hd in H.
  destruct (f_cache (w_disk w)); try discriminate. now injection H as <- _.
Qed.

(** [main] either ends before the loop, having written nothing, or is the
    loop run on the non-empty worklist of the catalog it loaded. *)
Lemma main_cases (E : env) (w w' : world) (res : result unit) :
  main E w = (res, w') ->
  init_state w w' \/
  (exists w5 tasks,
     init_state w w5 /\ f_cache (w_disk w) = Document (w_data w5) /\
     enumerate_tasks (w_data w5) = Ok tasks /\ tasks <> [] /\
     process_tasks E (List.length tasks) 0 tasks w5 = (res, w')).
Proof.
  unfold main. intros H.
  pose proof (init_state_refl w) as I0.
  apply bind_inv in H as [(found & w1 & H1 & H) | (e & H1 & _)].
  2: { left. eapply init_state_step; [exact I0 | | exact H1].
       unfold os_path_exists. init_step. }
  assert (I1 : init_state w w1).
  { eapply init_state_step; [exact I0 | | exact H1]. unfold os_path_exists. init_step. }
  destruct found; cbn [negb] in H.
  2: { left. eapply init_state_step; [exact I1 | | exact H]. init_step. }
  apply bind_inv in H as [(u & w2 & H2 & H) | (e & H2 & _)].
  2: { left. eapply init_state_step; [exact I1 | | exact H2]. init_step. }
  assert (I2 : init_state w w2).
  { eapply init_state_step; [exact I1 | | exact H2]. init_step. }
  apply bind_inv in H as [(d0 & w3 & H3 & H) | (e & H3 & _)].
  2: { left. eapply init_state_step; [exact I2 | | exact H3].
       unfold load_models_json. init_step. }
  assert (I3 : init_state w w3).
  { eapply init_state_step; [exact I2 | | exact H3]. unfold load_models_json. init_step. }
  apply load_models_json_ok in H3.
  assert (Hc : f_cache (w_disk w) = Document d0).
  { destruct I2 as (Hd & _). now rewrite <- Hd. }
  apply bind_inv in H as [(u4 & w4 & H4 & H) | (e & H4 & _)]; [|discriminate].
  injection H4 as _ <-.
  pose proof (init_state_put _ _ _ I3 Hc) as I4.
  apply bind_inv in H as [(loaded & w5 & H5 & H) | (e & H5 & _)].
  2: { left. eapply init_state_step; [exact I4 | | exact H5]. init_step. }
  assert (I5 : init_state w w5).
  { eapply init_state_step; [exact I4 | | exact H5]. init_step. }
  assert (Hd5 : w_data w5 = d0).
  { assert (He : effect_at (fun _ => init_event) eq
       (try_except (log LoadingWhisper;; call CallLoadModel;; ret true)
          (fun e => if is_Exception e
                    then Some (log (WhisperLoadFailed e);; ret false) else None))
       (w_put_data d0 w3)) by init_step.
    destruct He as [He _]. now rewrite H5 in He. }
  destruct loaded; cbn [negb] in H.
  2: { left. now injection H as _ <-. }
  unfold bind at 1 in H. cbn [get_data] in H. rewrite Hd5 in H.
  unfold bind at 1, lift in H.
  destruct (enumerate_tasks d0) as [tasks|e] eqn:Ht.
  2: { left. now injection H as _ <-. }
  unfold bind at 1 in H. cbn [log emit] in H.
  assert (I6 : init_state w (w_emit (Log (FoundTasks (List.length tasks))) w5)).
  { eapply (init_state_step w w5 _ (log (FoundTasks (List.length tasks))));
      [exact I5 | init_step | reflexivity]. }
  destruct tasks as [|r tasks].
  - left. cbn [List.length Nat.eqb] in H.
    eapply init_state_step; [exact I6 | | exact H]. init_step.
  - right. exists (w_emit (Log (FoundTasks (List.length (r :: tasks)))) w5), (r :: tasks).
    cbn [w_emit w_data]. rewrite Hd5.
    split; [exact I6|]. split; [assumption|]. split; [assumption|].
    split; [discriminate | exact H].
Qed.

(** * Failures of a turn *)

Lemma lstrip_spaces (s : pystr) :
  Forall (fun c => is_space c = true) s -> lstrip s = [].
Proof. induction 1 as [|c s Hc _ IH]; [reflexivity|]. cbn [lstrip]. now rewrite Hc. Qed.

Lemma strip_spaces (s : pystr) :
  Forall (fun c => is_space c = true) s -> strip s = [].
Proof. intros H. unfold strip. now rewrite (lstrip_spaces _ H). Qed.

Lemma transcribe_audio_missing (E : env) (p : pystr) (language : json) (w : world) :
  calm 1 w -> path_exists E (w_disk w) p = false ->
  transcribe_audio E p language w =
  (Ok None, w_emit (Log (FileNotFound p)) (w_call (CallExists p) w)).
Proof.
  intros Hc Hp. unfold transcribe_audio, try_except.
  rewrite (bind_os_path_exists _ _ _ _ _ Hc), Hp. reflexivity.
Qed.

Lemma transcribe_audio_calm (E : env) (p : pystr) (language : json) (w : world) :
  calm 2 w -> path_exists E (w_disk w) p = true ->
  transcribe_audio E p language w =
  let w1 := w_call (CallTranscribe p (whisper_options language))
              (w_emit (Log (Transcribing p language)) (w_call (CallExists p) w)) in
  match whisper E p (whisper_options language) with
  | Some raw => (Ok (Some (strip raw)), w1)
  | None => (Ok None, w_emit (Log (TranscribeError p RuntimeError)) w1)
  end.
Proof.
  intros Hc Hp. unfold transcribe_audio, try_except.
  rewrite (bind_os_path_exists _ _ _ _ _ Hc), Hp. cbn [negb].
  unfold bind at 1. cbn [log emit]. unfold whisper_transcribe.
  fold (whisper_options language).
  assert (Hc1 : calm 1 (w_emit (Log (Transcribing p language)) (w_call (CallExists p) w)))
    by (apply (calm_w_call 1), Hc).
  unfold bind at 1. rewrite (bind_call_calm _ _ _ _ Hc1).
  now destruct (whisper E p (whisper_options language)).
Qed.

Lemma untouched_of_read_only {A} (m : M A) (w w' : world) (r : result A) :
  read_only m -> m w = (r, w') -> untouched w w'.
Proof.
  intros H Hm. destruct (H w) as (H1 & H2 & H3 & t & Ht & Hall).
  rewrite Hm in *. cbn [snd] in *. repeat split; try assumption; [congruence|].
  now exists t.
Qed.

Lemma untouched_emit_l (e : event) (w w' : world) :
  passive e -> untouched (w_emit e w) w' -> untouched w w'.
Proof.
  intros He (H1 & H2 & H3 & t & Ht & Hall). repeat split; try assumption.
  exists (e :: t). split; [rewrite Ht; cbn; now rewrite <- app_assoc|].
  now constructor.
Qed.

Lemma untouched_emit_r (e : event) (w w' : world) :
  passive e -> untouched w w' -> untouched w (w_emit e w').
Proof.
  intros He (H1 & H2 & H3 & t & Ht & Hall). repeat split; try assumption.
  exists (t ++ [e]). split; [cbn; rewrite Ht; now rewrite app_assoc|].
  apply Forall_app. split; [assumption | now constructor].
Qed.

(** A turn in which [process_single_model] reports no transcript writes
    nothing and is followed by the next turn. *)
Lemma turn_failure (E : env) (total i : nat) (r : ref) (rest : list ref)
    (w w2 : world) (d : dict) (res : result (bool * option pystr)) :
  entry_at (w_data w) r = Some (JDict d) ->
  process_single_model E r (w_turn total i (get_or d (lit "name") JNull) w) = (res, w2) ->
  failure res ->
  exists w3,
    process_tasks E total i (r :: rest) w = process_tasks E total (S i) rest w3 /\
    untouched w w3.
Proof.
  intros Hd Hp Hf.
  assert (Hu : untouched w w2).
  { apply (untouched_emit_l (Log (ProcessingModel (i + 1) total
                                     (get_or d (lit "name") JNull)))); [exact I|].
    exact (untouched_of_read_only _ _ _ _ (ro_process_single_model E r) Hp). }
  destruct res as [[b o]|e].
  - exists w2. split; [|assumption].
    apply process_tasks_next, iteration_ok.
    rewrite (loop_body_dict _ _ _ _ _ _ Hd), (bind_run _ _ _ _ _ Hp).
    destruct (process_single_model_shape _ _ _ _ _ _ Hp) as (d' & _ & Hs).
    destruct Hs as [[Hb Ho] | (Hb & _ & t & Ho & _)]; subst b o;
      [reflexivity | contradiction].
  - exists (w_emit (Log (ErrorProcessing (get_or d (lit "name") JNull) e)) w2).
    split; [|now apply untouched_emit_r].
    apply process_tasks_next.
    rewrite (iteration_exception E total i r w w2 e); [|
      rewrite (loop_body_dict _ _ _ _ _ _ Hd); now apply bind_raise | exact Hf].
    unfold on_exception.
    assert (Hd2 : entry_at (w_data w2) r = Some (JDict d)).
    { destruct Hu as (H1 & _). now rewrite H1. }
    now rewrite (bind_entry_get_dict _ _ _ _ _ _ Hd2).
Qed.

Lemma pending_dict (d : dict) :
  pending (JDict d) = negb (truthy (get_or d (lit "ref_text") JNull)).
Proof. reflexivity. Qed.

(** C6: when the model's output is empty or only whitespace, the stripped
    text is empty and counts as a failure: [process_single_model] returns
    [(False, None)], the turn writes no [ref_text] and saves nothing, the
    entry stays pending, and the next turn follows. *)
Theorem C6_blank_transcript_is_failure (E : env) (total i : nat) (r : ref)
    (rest : list ref) (w w1 : world) (d : dict) (p raw : pystr) :
  let name := get_or d (lit "name") JNull in
  let language := get_or d (lit "language") JNull in
  entry_at (w_data w) r = Some (JDict d) ->
  pending (JDict d) = true ->
  truthy (get_or d (lit "file") JNull) = true ->
  resolve_audio_file E (get_or d (lit "file") JNull) (w_turn total i name w) = (Ok p, w1) ->
  calm 2 w1 ->
  path_exists E (w_disk w1) p = true ->
  whisper E p (whisper_options language) = Some raw ->
  Forall (fun c => is_space c = true) raw ->
  strip raw = [] /\
  fst (transcribe_audio E p language w1) = Ok (Some []) /\
  fst (process_single_model E r (w_turn total i name w)) = Ok (false, None) /\
  exists w3,
    process_tasks E total i (r :: rest) w = process_tasks E total (S i) rest w3 /\
    untouched w w3 /\
    entry_at (w_data w3) r = Some (JDict d).
Proof.
  intros name language Hd Hpend Hfile Hres Hc Hp Hw Hraw.
  pose proof (strip_spaces _ Hraw) as Hs.
  pose proof (transcribe_audio_calm E p language w1 Hc Hp) as Ht.
  cbv zeta in Ht. rewrite Hw, Hs in Ht.
  assert (Hpsm : exists w2,
            process_single_model E r (w_turn total i name w) = (Ok (false, None), w2)).
  { eexists.
    rewrite (process_single_model_dict E r (w_turn total i name w) d Hd).
    rewrite pending_dict in Hpend. apply negb_true_iff in Hpend.
    rewrite Hpend, Hfile. cbn [negb]. unfold transcribe_entry.
    rewrite (bind_run _ _ _ _ _ Hres). fold language.
    rewrite (bind_run _ _ _ _ _ Ht). reflexivity. }
  destruct Hpsm as [w2 Hpsm].
  split; [assumption|]. split; [now rewrite Ht|]. split; [now rewrite Hpsm|].
  destruct (turn_failure E total i r rest w w2 d _ Hd Hpsm I) as (w3 & Hrun & Hu).
  exists w3. split; [assumption|]. split; [assumption|].
  destruct Hu as (H1 & _). now rewrite H1.
Qed.

(** A turn whose save (or pause) raises an [Exception] after the assignment:
    the loop goes on, and the entry keeps its new [ref_text] in memory. *)
Lemma turn_commit_exception (E : env) (total i : nat) (r : ref) (rest : list ref)
    (w w2 w3 : world) (d : dict) (text : pystr) (e : exn) :
  entry_at (w_data w) r = Some (JDict d) ->
  process_single_model E r (w_turn total i (get_or d (lit "name") JNull) w) =
    (Ok (true, Some text), w2) ->
  commit r text w2 = (Raise e, w3) ->
  is_Exception e = true ->
  process_tasks E total i (r :: rest) w =
  process_tasks E total (S i) rest
    (w_emit (Log (ErrorProcessing (get_or d (lit "name") JNull) e)) w3) /\
  w_data w3 = set_ref_text (w_data w) r text.
Proof.
  intros Hd Hp Hc He.
  pose proof (read_only_data _ _ _ _ (ro_process_single_model E r) Hp) as Hdata.
  cbn [w_turn w_emit w_data] in Hdata.
  destruct (process_single_model_shape _ _ _ _ _ _ Hp) as (d' & _ & Hs).
  destruct Hs as [[Hb _] | (_ & _ & t & [= <-] & Hne)]; [discriminate|].
  assert (Hd2 : entry_at (w_data w2) r = Some (JDict d)) by now rewrite Hdata.
  destruct (commit_effect r text w2 d Hd2) as (Hc1 & _).
  rewrite Hc in Hc1. cbn [snd] in Hc1. rewrite Hdata in Hc1.
  split; [|assumption].
  apply process_tasks_next.
  rewrite (iteration_exception E total i r w w3 e); [| | exact He].
  - unfold on_exception.
    assert (Hd3 : entry_at (w_data w3) r =
                  Some (JDict (dict_set d (lit "ref_text") (JStr text)))).
    { rewrite Hc1.
      exact (entry_at_update_same _ _ (setitem (lit "ref_text") (JStr text)) _ Hd). }
    rewrite (bind_entry_get_dict _ _ _ _ _ _ Hd3).
    now rewrite get_or_set_other by reflexivity.
  - rewrite (loop_body_dict _ _ _ _ _ _ Hd), (bind_run _ _ _ _ _ Hp).
    cbn [after_process]. now rewrite Hne.
Qed.

(** C4, as the script has it: a turn in which no transcript is obtained
    (no file attribute, no audio file under either spelling, an error of the
    model, an empty transcript, or an [Exception] raised while resolving or
    transcribing) leaves the catalog in memory and its file as they were,
    begins no save, and is followed by the next turn; an [Exception] raised
    by the save after a transcript was obtained is caught as well, but by
    then the entry's [ref_text] is set in memory.  On the two-entry catalog
    the run ends normally with [ref_text] set on the second entry only. *)
Theorem C4_failure_leaves_entry_pending (E : env) (total i : nat) (r : ref)
    (rest : list ref) (w w2 : world) (d : dict)
    (res : result (bool * option pystr)) :
  entry_at (w_data w) r = Some (JDict d) ->
  process_single_model E r (w_turn total i (get_or d (lit "name") JNull) w) = (res, w2) ->
  failure res ->
  (exists w3,
     process_tasks E total i (r :: rest) w = process_tasks E total (S i) rest w3 /\
     untouched w w3 /\ ref_text_at (w_data w3) r = ref_text_at (w_data w) r /\
     saves_begun (w_trace w3) = saves_begun (w_trace w)) /\
  (forall w0, entry_at (w_data w0) r = Some (JDict d) ->
     pending (JDict d) = true -> truthy (get_or d (lit "file") JNull) = false ->
     fst (process_single_model E r w0) = Ok (false, None)) /\
  (forall p language w0, calm 1 w0 -> path_exists E (w_disk w0) p = false ->
     fst (transcribe_audio E p language w0) = Ok None) /\
  (forall p language w0, calm 2 w0 -> path_exists E (w_disk w0) p = true ->
     whisper E p (whisper_options language) = None ->
     fst (transcribe_audio E p language w0) = Ok None) /\
  (forall w0 w1 w3 text e,
     entry_at (w_data w0) r = Some (JDict d) ->
     process_single_model E r (w_turn total i (get_or d (lit "name") JNull) w0) =
       (Ok (true, Some text), w1) ->
     commit r text w1 = (Raise e, w3) -> is_Exception e = true ->
     process_tasks E total i (r :: rest) w0 =
     process_tasks E total (S i) rest
       (w_emit (Log (ErrorProcessing (get_or d (lit "name") JNull) e)) w3) /\
     w_data w3 = set_ref_text (w_data w0) r text) /\
  (let run := main sample_env (start_world two_entry_catalog []) in
   fst run = Ok tt /\
   ref_text_at (w_data (snd run)) entry_0 = None /\
   ref_text_at (w_data (snd run)) entry_1 = Some (JStr (lit "hello")) /\
   forget_ref_text (w_data (snd run)) = forget_ref_text two_entry_catalog /\
   f_stable (w_disk (snd run)) = Document (w_data (snd run))).
Proof.
  intros Hd Hp Hf. split; [|split; [|split; [|split; [|split]]]].
  - destruct (turn_failure E total i r rest w w2 d res Hd Hp Hf) as (w3 & Hrun & Hu).
    exists w3. split; [assumption|]. split; [assumption|].
    destruct Hu as (H1 & _ & _ & t & Ht & Hall). split.
    + unfold ref_text_at. now rewrite H1.
    + rewrite Ht. clear Ht. induction (w_trace w) as [|e0 l IH]; cbn.
      * induction Hall as [|x t Hx _ IHt]; [reflexivity|]. now destruct x.
      * destruct e0; cbn; now rewrite IH.
  - intros w0 Hd0 Hpend Hfile.
    rewrite (process_single_model_dict E r w0 d Hd0).
    rewrite pending_dict in Hpend. apply negb_true_iff in Hpend.
    now rewrite Hpend, Hfile.
  - intros p language w0 Hc Hpe. now rewrite transcribe_audio_missing.
  - intros p language w0 Hc Hpe Hw.
    rewrite (transcribe_audio_calm E p language w0 Hc Hpe). cbv zeta. now rewrite Hw.
  - intros w0 w1 w3 text e. apply turn_commit_exception.
  - vm_compute. repeat split; reflexivity.
Qed.

(** C4 as stated fails: when the save of a transcribed entry raises (here
    [open] fails with an [OSError]), the exception is caught and the run goes
    on to its end, but a save was begun and the entry's [ref_text] is set in
    memory, while the file still holds the catalog without it. *)
Lemma C4_counterexample_save_raises :
  let faults := [None; None; None; None; None; None; None; Some IOError] in
  let run := main sample_env (start_world one_entry_catalog faults) in
  fst run = Ok tt /\
  saves_begun (w_trace (snd run)) = 1 /\
  ref_text_at (w_data (snd run)) entry_0 = Some (JStr (lit "hello")) /\
  f_cache (w_disk (snd run)) = Document one_entry_catalog /\
  existsb (fun e => match e with
                    | Log (ErrorProcessing _ OSError) => true
                    | _ => false
                    end) (w_trace (snd run)) = true.
Proof. vm_compute. repeat split; reflexivity. Qed.

Lemma on_interrupt_unfold (w : world) :
  on_interrupt w =
  match save_models_json (w_data w) (w_emit (Log Interrupted) w) with
  | (Ok _, w') => (Ok Return, w')
  | (Raise e, w') => (Raise e, w')
  end.
Proof.
  unfold on_interrupt. unfold bind at 1. cbn [log emit].
  unfold bind at 1. cbn [get_data]. unfold bind. cbn [w_emit w_data].
  now destruct (save_models_json _ _) as [[u|e] w'].
Qed.

Lemma save_trace (d : json) (w : world) :
  w_data (snd (save_models_json d w)) = w_data w /\
  exists n,
    w_trace (snd (save_models_json d w)) =
    w_trace w ++ firstn (S n) [CallOpenW; CallDump d; CallFlush; CallFsync].
Proof.
  unfold save_models_json, with_open_w, open_w, json_dump, flush, fsync,
    bind, call, get_disk, put_disk, raise.
  destruct w as [wd wu wf wt fl]. cbn [w_faults].
  destruct fl as [|[x|] fl]; cbn;
    [| split; [reflexivity | now exists 0] |].
  - destruct (encodable d); cbn; (split; [reflexivity|]);
      [exists 3 | exists 1]; cbn; now rewrite <- ?app_assoc.
  - destruct fl as [|[y|] fl]; cbn;
      [| split; [reflexivity | exists 1; cbn; now rewrite <- ?app_assoc] |].
    + destruct (encodable d); cbn; (split; [reflexivity|]);
        [exists 3 | exists 1]; cbn; now rewrite <- ?app_assoc.
    + destruct (encodable d); cbn;
        [| split; [reflexivity | exists 1; cbn; now rewrite <- ?app_assoc]].
      destruct fl as [|[z|] fl]; cbn;
        [split; [reflexivity | exists 3; cbn; now rewrite <- ?app_assoc]
        |split; [reflexivity | exists 2; cbn; now rewrite <- ?app_assoc] |].
      destruct fl as [|[u|] fl]; cbn; (split; [reflexivity|]);
        exists 3; cbn; now rewrite <- ?app_assoc.
Qed.

Lemma ref_text_at_set (data : json) (r : ref) (text : pystr) (d : dict) :
  entry_at data r = Some (JDict d) ->
  ref_text_at (set_ref_text data r text) r = Some (JStr text).
Proof.
  intros H. unfold ref_text_at, set_ref_text.
  rewrite (entry_at_update_same _ _ (setitem (lit "ref_text") (JStr text)) _ H).
  cbn [obind setitem child_key]. apply dict_get_set_same.
Qed.

(** C5, as the script has it: a [KeyboardInterrupt] raised in the [try]
    body of the turn on an entry ends the walk: the handler logs, begins one
    save of the catalog in memory, as it is, and nothing follows that save.
    What was set before stays set in memory.  The entry of the turn is left
    without [ref_text] when the interrupt is raised before its transcript is
    returned; when it is raised after the transcript was returned (during
    the entry's save or the pause) the entry's [ref_text] is set to the
    transcript, and it is what the final save dumps.  When no fault hits the
    final save and the catalog can be encoded, [main] returns normally and
    the file holds the catalog in memory; when a fault hits [json.dump] in
    the final save, or the catalog cannot be encoded, the exception leaves
    [main] and the file is left truncated. *)
Theorem C5_interrupt_saves_and_stops (E : env) (total i : nat) (r : ref)
    (rest : list ref) (w w1 : world) :
  loop_body E total i r w = (Raise KeyboardInterrupt, w1) ->
  let wi := w_emit (Log Interrupted) w1 in
  let run := process_tasks E total i (r :: rest) w in
  run = save_models_json (w_data w1) wi /\
  (exists n,
     w_trace (snd run) =
     w_trace w1 ++ Log Interrupted ::
       firstn (S n) [CallOpenW; CallDump (w_data w1); CallFlush; CallFsync]) /\
  w_data (snd run) = w_data w1 /\
  settled_kept (w_data w) (w_data w1) /\
  (forall d w',
     entry_at (w_data w) r = Some (JDict d) ->
     process_single_model E r (w_turn total i (get_or d (lit "name") JNull) w) =
       (Raise KeyboardInterrupt, w') ->
     w_data w1 = w_data w /\
     ref_text_at (w_data (snd run)) r = ref_text_at (w_data w) r) /\
  (forall d text w',
     entry_at (w_data w) r = Some (JDict d) ->
     process_single_model E r (w_turn total i (get_or d (lit "name") JNull) w) =
       (Ok (true, Some text), w') ->
     w_data w1 = set_ref_text (w_data w) r text /\
     ref_text_at (w_data (snd run)) r = Some (JStr text)) /\
  (calm 4 w1 -> encodable (w_data w1) = true ->
     run = (Ok tt, w_saved (w_data w1) wi) /\
     w_disk (snd run) = mkfile None (Document (w_data w1)) (Document (w_data w1))) /\
  (forall f l,
     w_faults w1 = None :: Some f :: l ->
     fst run = Raise (exn_of_fault f) /\
     w_disk (snd run) = mkfile None Torn Torn) /\
  (calm 2 w1 -> encodable (w_data w1) = false ->
     fst run = Raise UnicodeEncodeError /\
     w_disk (snd run) = mkfile None Torn Torn).
Proof.
  intros Hb wi run.
  assert (Hrun : run = save_models_json (w_data w1) wi).
  { unfold run. cbn [process_tasks]. unfold bind at 1.
    rewrite (iteration_interrupted _ _ _ _ _ _ Hb), on_interrupt_unfold.
    fold wi. now destruct (save_models_json (w_data w1) wi) as [[[]|e] w']. }
  destruct (save_trace (w_data w1) wi) as (Hsd & n & Hst).
  assert (Hdata : w_data (snd run) = w_data w1) by (rewrite Hrun; exact Hsd).
  split; [exact Hrun|]. split; [|split; [exact Hdata|]].
  { exists n. rewrite Hrun, Hst. unfold wi. cbn [w_emit w_trace].
    now rewrite <- app_assoc. }
  split; [|split; [|split; [|split; [|split]]]].
  - pose proof (loop_body_effect E total i r w) as (t & _ & Hcase).
    rewrite Hb in Hcase. cbn [snd] in Hcase.
    destruct Hcase as [(H1 & _) | (text & t1 & t2 & Ha & _)].
    + rewrite H1. now intros r' e'.
    + now apply (assigned_settled r text).
  - intros d w' Hd Hp.
    rewrite (loop_body_dict _ _ _ _ _ _ Hd), (bind_raise _ _ _ _ _ Hp) in Hb.
    injection Hb as <-.
    pose proof (read_only_data _ _ _ _ (ro_process_single_model E r) Hp) as Hw.
    cbn [w_turn w_emit w_data] in Hw. split; [assumption|].
    unfold ref_text_at. now rewrite Hdata, Hw.
  - intros d text w' Hd Hp.
    pose proof (read_only_data _ _ _ _ (ro_process_single_model E r) Hp) as Hw.
    cbn [w_turn w_emit w_data] in Hw.
    rewrite (loop_body_dict _ _ _ _ _ _ Hd), (bind_run _ _ _ _ _ Hp) in Hb.
    cbn [after_process] in Hb.
    destruct (nonempty text); [|discriminate Hb].
    assert (Hd' : entry_at (w_data w') r = Some (JDict d)) by now rewrite Hw.
    destruct (commit_effect r text w' d Hd') as (Hc & _).
    rewrite Hb in Hc. cbn [snd] in Hc. rewrite Hw in Hc.
    split; [exact Hc|]. rewrite Hdata, Hc. now apply (ref_text_at_set _ _ _ d).
  - intros Hc He. rewrite Hrun.
    now rewrite (save_calm (w_data w1) wi He Hc).
  - intros f l Hf. rewrite Hrun.
    now rewrite (save_fault_in_dump (w_data w1) wi f l Hf).
  - intros Hc He. rewrite Hrun.
    now rewrite (save_unencodable (w_data w1) wi He Hc).
Qed.

(** C5 as stated fails: when the signal arrives during the save of the
    entry being processed (here inside [json.dump]), the run stops after one
    more save, and the entry of the interrupted turn has its [ref_text] set,
    in memory and in the file. *)
Lemma C5_counterexample_interrupt_in_save :
  let faults := [None; None; None; None; None; None; None;
                 None; Some Sigint] in
  let run := main sample_env (start_world one_entry_catalog faults) in
  fst run = Ok tt /\
  last (w_trace (snd run)) (Log Done) = CallFsync /\
  existsb (fun e => match e with Log Interrupted => true | _ => false end)
          (w_trace (snd run)) = true /\
  saves_begun (w_trace (snd run)) = 2 /\
  ref_text_at (w_data (snd run)) entry_0 = Some (JStr (lit "hello")) /\
  f_stable (w_disk (snd run)) = Document (w_data (snd run)).
Proof. vm_compute. repeat split; reflexivity. Qed.

(** The final save is a save like any other: when the signal arrives in
    the turn on the second entry and an I/O error then hits [json.dump] in
    the final save, [main] ends with [OSError] and the file, which held the
    transcript of the first entry, holds no catalog any more. *)
Lemma interrupted_run_can_lose_commits :
  let faults := repeat None 12 ++ [Some Sigint; None; Some IOError] in
  let run := main sample_env (start_world b_then_a_catalog faults) in
  fst run = Raise OSError /\
  ref_text_at (w_data (snd run)) entry_0 = Some (JStr (lit "hello")) /\
  In (CallDump (set_ref_text b_then_a_catalog entry_0 (lit "hello")))
     (firstn 20 (w_trace (snd run))) /\
  w_disk (snd run) = mkfile None Torn Torn.
Proof. vm_compute. repeat split; try reflexivity. tauto. Qed.

(** A save that ends inside [json.dump] ends the commit with the file
    truncated. *)
Lemma commit_torn (r : ref) (text : pystr) (w : world) (d : dict) (e : exn) :
  entry_at (w_data w) r = Some (JDict d) ->
  (forall w0, w_faults w0 = w_faults w ->
     save_models_json (set_ref_text (w_data w) r text) w0 =
     (Raise e, w_torn (set_ref_text (w_data w) r text) w0)) ->
  exists w3,
    commit r text w = (Raise e, w3) /\ w_disk w3 = mkfile None Torn Torn.
Proof.
  intros H Hs. rewrite (commit_unfold _ _ _ _ H).
  eexists. split; [apply bind_raise, Hs; reflexivity | reflexivity].
Qed.

(** C1, as the script has it: when the transcription of an entry succeeds
    with a non-empty text, the turn sets the entry's [ref_text] to that text
    in memory and at once begins a save of the whole catalog, whatever the
    environment does.  When no fault hits the save and the pause and the
    catalog can be encoded, the save runs to its end (dump, flush, fsync)
    and only then does the next turn begin: in a world whose file, in the
    cache and on stable storage, holds the catalog in memory, with this
    entry's [ref_text] and every [ref_text] that was there before.  When the
    save raises an [Exception], the next turn begins all the same, the
    [ref_text] set in memory; when it was raised inside [json.dump] (the
    catalog cannot be encoded, or an I/O error hits the dump) the file is
    then left truncated. *)
Theorem C1_commit_before_next_entry (E : env) (total i : nat) (r : ref)
    (rest : list ref) (w w2 : world) (d : dict) (text : pystr) :
  entry_at (w_data w) r = Some (JDict d) ->
  process_single_model E r (w_turn total i (get_or d (lit "name") JNull) w) =
    (Ok (true, Some text), w2) ->
  let name := get_or d (lit "name") JNull in
  let data' := set_ref_text (w_data w) r text in
  let w3 := w_committed r text name w2 in
  text <> [] /\
  ref_text_at data' r = Some (JStr text) /\
  entry_at data' r = Some (JDict (dict_set d (lit "ref_text") (JStr text))) /\
  (forall r' e', entry_at (w_data w) r' = Some e' -> pending e' = false ->
     entry_at data' r' = Some e') /\
  w_data (snd (iteration E total i r w)) = data' /\
  (exists t,
     w_trace (snd (iteration E total i r w)) =
     w_trace w2 ++ Assign r text :: Log (SavingChanges name) :: CallOpenW :: t /\
     Forall (benign data') t) /\
  (calm 5 w2 -> encodable data' = true ->
     process_tasks E total i (r :: rest) w = process_tasks E total (S i) rest w3 /\
     w_data w3 = data' /\
     w_disk w3 = mkfile None (Document data') (Document data') /\
     w_trace w3 =
       w_trace w2 ++ [Assign r text; Log (SavingChanges name); CallOpenW;
                      CallDump data'; CallFlush; CallFsync; CallSleep]) /\
  (forall e w4,
     commit r text w2 = (Raise e, w4) -> is_Exception e = true ->
     process_tasks E total i (r :: rest) w =
     process_tasks E total (S i) rest (w_emit (Log (ErrorProcessing name e)) w4) /\
     w_data w4 = data') /\
  (calm 2 w2 -> encodable data' = false ->
     exists w4,
       commit r text w2 = (Raise UnicodeEncodeError, w4) /\
       w_disk w4 = mkfile None Torn Torn) /\
  (forall l,
     w_faults w2 = None :: Some IOError :: l ->
     exists w4,
       commit r text w2 = (Raise OSError, w4) /\
       w_disk w4 = mkfile None Torn Torn).
Proof.
  intros Hd Hp name data' w3.
  pose proof (read_only_data _ _ _ _ (ro_process_single_model E r) Hp) as Hdata.
  cbn [w_turn w_emit w_data] in Hdata.
  destruct (process_single_model_shape _ _ _ _ _ _ Hp) as (d' & Hd' & Hs).
  cbn [w_turn w_emit w_data] in Hd'. rewrite Hd in Hd'. injection Hd' as <-.
  destruct Hs as [[Hb _] | (_ & Hpend & t & [= <-] & Hne)]; [discriminate|].
  assert (Hd2 : entry_at (w_data w2) r = Some (JDict d)) by now rewrite Hdata.
  assert (Hbody : loop_body E total i r w = commit r text w2).
  { rewrite (loop_body_dict _ _ _ _ _ _ Hd), (bind_run _ _ _ _ _ Hp).
    cbn [after_process]. now rewrite Hne. }
  destruct (commit_effect r text w2 d Hd2) as (Hc1 & _ & tc & Htc & Hallc).
  rewrite Hdata in Hc1, Hallc. fold data' in Hc1, Hallc. fold name in Htc.
  assert (Hturn : w_data (snd (iteration E total i r w)) = data' /\
            exists t, w_trace (snd (iteration E total i r w)) =
                      w_trace (snd (commit r text w2)) ++ t /\ Forall (benign data') t).
  { rewrite iteration_cases, Hbody.
    destruct (commit r text w2) as [[u|e] wc]; cbn [snd] in *.
    - split; [assumption|]. exists []. split; [now rewrite app_nil_r | constructor].
    - assert (Hh : forall h : M flow, effect_at benign any_file h wc ->
                w_data (snd (h wc)) = data' /\
                exists t, w_trace (snd (h wc)) = w_trace wc ++ t /\
                          Forall (benign data') t).
      { intros h (H1 & _ & _ & t' & Ht' & Hall'). split; [congruence|].
        exists t'. split; [assumption | now rewrite <- Hc1]. }
      destruct e; cbn [is_Exception];
        first [ apply Hh, on_interrupt_effect | apply Hh, on_exception_effect
              | cbn [snd]; split; [assumption|]; exists [];
                split; [now rewrite app_nil_r | constructor] ]. }
  destruct Hturn as (Ht1 & t' & Ht' & Hall').
  split; [now apply nonempty_neq|].
  split; [exact (ref_text_at_set _ _ _ d Hd)|].
  split; [exact (entry_at_update_same _ _ (setitem (lit "ref_text") (JStr text)) _ Hd)|].
  split; [intros r' e' He' Hp';
          now apply (entry_at_update_settled _ r r' _ (JDict d) e')|].
  split; [assumption|].
  split; [|split; [|split; [|split]]].
  - exists (tc ++ t'). split; [|apply Forall_app; now split].
    rewrite Ht', Htc. now rewrite <- app_assoc.
  - intros Hc He.
    assert (Hw3 : w_data w3 = data').
    { unfold w3, w_committed, data'. cbn. now rewrite Hdata. }
    split; [|split; [exact Hw3|split]].
    + apply process_tasks_next, iteration_ok. rewrite Hbody.
      apply commit_calm; [assumption | assumption |]. now rewrite Hdata.
    + unfold w3, w_committed. cbn. now rewrite Hdata.
    + unfold w3, w_committed. cbn. rewrite Hdata. fold data'.
      now rewrite <- !app_assoc.
  - intros e w4 Hc He. exact (turn_commit_exception E total i r rest w w2 w4 d text e
                                 Hd Hp Hc He).
  - intros Hc He. apply (commit_torn r text w2 d _ Hd2).
    intros w0 Hf. apply save_unencodable; [now rewrite Hdata|].
    unfold calm. now rewrite Hf.
  - intros l Hf. apply (commit_torn r text w2 d _ Hd2).
    intros w0 Hf0. apply (save_fault_in_dump _ w0 IOError l). now rewrite Hf0.
Qed.

(** C1 as stated fails: on a catalog that holds a surrogate, with no fault
    at all, the transcription of the first entry succeeds and its [ref_text]
    is set in memory, but the save raises [UnicodeEncodeError] after the file
    was truncated; the error is logged, the second entry is processed, and
    the run ends normally with the file holding no catalog at all. *)
Lemma C1_counterexample_unencodable_catalog :
  let run := main sample_env (start_world surrogate_catalog []) in
  fst run = Ok tt /\
  ref_text_at (w_data (snd run)) entry_0 = Some (JStr (lit "hello")) /\
  w_disk (snd run) = mkfile None Torn Torn /\
  existsb (fun e => match e with
                    | Log (ErrorProcessing _ UnicodeEncodeError) => true
                    | _ => false
                    end) (w_trace (snd run)) = true /\
  existsb (fun e => match e with
                    | Log (ProcessingModel 2 2 _) => true
                    | _ => false
                    end) (w_trace (snd run)) = true /\
  last (w_trace (snd run)) CallSleep = Log Done.
Proof. vm_compute. repeat split; reflexivity. Qed.

(** * Whole runs *)

Lemma turn_effect_kept (r : ref) (w w' : world) :
  turn_effect r w w' -> settled_kept (w_data w) (w_data w').
Proof.
  intros (t & _ & [(H1 & _) | (text & t1 & t2 & Ha & _)]).
  - rewrite H1. now intros r' e'.
  - now apply (assigned_settled r text).
Qed.

Lemma process_tasks_kept (E : env) (total : nat) (tasks : list ref) :
  forall i w, settled_kept (w_data w) (w_data (snd (process_tasks E total i tasks w))).
Proof.
  induction tasks as [|r rest IH]; intros i w.
  - now intros r' e'.
  - cbn [process_tasks]. unfold bind.
    pose proof (turn_effect_kept _ _ _ (iteration_effect E total i r w)) as Hk.
    destruct (iteration E total i r w) as [[f|e] w1]; cbn [snd] in *; [|assumption].
    destruct f; [|assumption].
    eapply settled_kept_trans; [exact Hk | apply IH].
Qed.

Lemma init_events_quiet (t : list event) :
  Forall init_event t ->
  saves_begun t = 0 /\ (forall r, assign_count r t = 0) /\
  (forall d, ~ In (CallDump d) t) /\
  (forall p o, ~ In (CallTranscribe p o) t).
Proof.
  induction 1 as [|e t He _ (H1 & H2 & H3 & H4)]; [now repeat split|].
  destruct e; try contradiction; cbn [saves_begun assign_count In];
    (split; [assumption|]); (split; [assumption|]);
    (split; [intros d' [Hd'|Hd']; [discriminate | now apply (H3 d')]
            |intros p' o' [Hd'|Hd']; [discriminate | now apply (H4 p' o')]]).
Qed.

Lemma saves_begun_app (t1 t2 : list event) :
  saves_begun (t1 ++ t2) = saves_begun t1 + saves_begun t2.
Proof.
  induction t1 as [|e t1 IH]; [reflexivity|].
  destruct e; cbn [app saves_begun]; rewrite IH; reflexivity.
Qed.

(** C3: on a catalog whose entries all have a non-empty [ref_text], whatever
    else the catalog holds, [main] writes nothing: the file and the counter
    are as before, no save is begun, nothing is assigned and the model is
    not called.  In any run, an object that is not a pending entry is the
    same afterwards; an entry with a non-empty [ref_text] is skipped by
    [process_single_model] before any file is looked up or transcribed, and
    is not put on the worklist. *)
Theorem C3_satisfied_entries_are_left_alone (E : env) (w : world) (d0 : json) :
  f_cache (w_disk w) = Document d0 ->
  (forall r e, entry_of d0 r e -> pending e = false) ->
  (init_state w (snd (main E w)) /\
   (exists t, w_trace (snd (main E w)) = w_trace w ++ t /\
      saves_begun t = 0 /\ (forall r, assign_count r t = 0) /\
      (forall p o, ~ In (CallTranscribe p o) t))) /\
  (forall total i tasks w0,
     settled_kept (w_data w0) (w_data (snd (process_tasks E total i tasks w0)))) /\
  (forall w0 r d,
     entry_at (w_data w0) r = Some (JDict d) -> pending (JDict d) = false ->
     process_single_model E r w0 =
     (Ok (false, None),
      w_emit (Log (Skipping (get_or d (lit "name") (JStr (lit "Unknown"))))) w0)) /\
  (forall data tasks r,
     enumerate_tasks data = Ok tasks -> In r tasks ->
     exists e, entry_at data r = Some e /\ pending e = true).
Proof.
  intros Hc Hall. split; [|split; [|split]].
  - assert (Hi : init_state w (snd (main E w))).
    { destruct (main E w) as [res w'] eqn:Hm. cbn [snd].
      apply main_cases in Hm as [Hi | (w5 & tasks & I5 & Hc5 & Ht & Hne & _)];
        [assumption|].
      exfalso. rewrite Hc in Hc5. injection Hc5 as Hd5. subst d0.
      destruct tasks as [|r tasks]; [now apply Hne|].
      destruct (enumerate_tasks_spec _ _ Ht) as [Hin _].
      destruct (proj1 (Hin r) (or_introl eq_refl)) as (Hr & g & e & Hg & Hk & He & Hp).
      rewrite (Hall r e) in Hp; [discriminate|].
      split; [exact Hr|]. now exists g. }
    split; [assumption|].
    destruct Hi as (_ & _ & (t & Ht & Hq) & _). exists t. split; [assumption|].
    destruct (init_events_quiet _ Hq) as (H1 & H2 & _ & H4). now repeat split.
  - intros total i tasks w0. apply process_tasks_kept.
  - intros w0 r d Hd Hp. rewrite (process_single_model_dict E r w0 d Hd).
    rewrite pending_dict in Hp. apply negb_false_iff in Hp. now rewrite Hp.
  - intros data tasks r Ht Hr.
    destruct (enumerate_tasks_spec _ _ Ht) as [Hin _].
    apply Hin in Hr as (_ & g & e & _ & _ & He & Hp). now exists e.
Qed.

Lemma fresh_run_inv (w : world) :
  Forall init_event (w_trace w) -> run_inv (w_data w) w.
Proof.
  intros H. destruct (init_events_quiet _ H) as (_ & H2 & H3 & _).
  split; [reflexivity|]. split; [now intros r e|]. split; [|split].
  - intros d' Hd'. now apply H3 in Hd'.
  - intros r. rewrite H2. lia.
  - intros r. rewrite H2. lia.
Qed.

Lemma dict_get_map_values (f : json -> json) (d : dict) (k : pystr) :
  dict_get (map (fun kv => (fst kv, f (snd kv))) d) k = option_map f (dict_get d k).
Proof.
  induction d as [|[k0 v] d IH]; [reflexivity|].
  cbn [map dict_get fst snd]. now destruct (str_eqb k k0).
Qed.

Lemma child_key_on_values {B} (f : json -> json) (v : json) (k : pystr)
    (G : json -> option B) :
  obind (child_key (on_values f v) k) G = obind (child_key v k) (fun x => G (f x)).
Proof.
  destruct v; try reflexivity. cbn [on_values child_key].
  rewrite dict_get_map_values. now destruct (dict_get d k).
Qed.

Lemma child_ix_on_items {B} (f : json -> json) (v : json) (i : nat)
    (G : json -> option B) :
  obind (child_ix (on_items f v) i) G = obind (child_ix v i) (fun x => G (f x)).
Proof.
  destruct v; try reflexivity. cbn [on_items child_ix].
  rewrite nth_error_map. now destruct (nth_error l i).
Qed.

Lemma child_key_forget_entry (e : json) (k : pystr) :
  str_eqb k (lit "ref_text") = false ->
  child_key (forget_entry e) k = child_key e k.
Proof.
  intros Hk. destruct e; try reflexivity. cbn [forget_entry child_key].
  induction d as [|[k0 v] d IH]; [reflexivity|].
  cbn [filter fst dict_get].
  destruct (str_eqb k0 (lit "ref_text")) eqn:Hk0; cbn [negb dict_get].
  - apply str_eqb_eq in Hk0. subst k0. now rewrite Hk.
  - now rewrite IH.
Qed.

Lemma attr_at_forget (data : json) (r : ref) (k : pystr) :
  str_eqb k (lit "ref_text") = false ->
  attr_at (forget_ref_text data) r k = attr_at data r k.
Proof.
  intros Hk. unfold attr_at, entry_at, forget_ref_text.
  rewrite child_key_on_values.
  destruct (child_key data (root_key r)) as [gs|]; [|reflexivity]. cbn [obind].
  rewrite child_ix_on_items.
  destruct (child_ix gs (group_ix r)) as [g|]; [|reflexivity]. cbn [obind].
  rewrite child_key_on_values.
  destruct (child_key g (models_key r)) as [ms|]; [|reflexivity]. cbn [obind].
  rewrite (child_ix_on_items forget_entry ms (model_ix r) (fun e => child_key e k)).
  destruct (child_ix ms (model_ix r)) as [e|]; [|reflexivity]. cbn [obind].
  now apply child_key_forget_entry.
Qed.

(** C8: a run writes nothing but [ref_text] attributes: the catalog in
    memory at the end, and every catalog dumped on the way, is the catalog
    at the start up to the [ref_text] of its entries, so every other
    attribute of every entry (name, file, language) and the structure of the
    groups are the same; and no entry is assigned more than once. *)
Theorem C8_only_ref_text_is_written (E : env) (total i : nat) (tasks : list ref)
    (w : world) :
  Forall init_event (w_trace w) ->
  let w' := snd (process_tasks E total i tasks w) in
  forget_ref_text (w_data w') = forget_ref_text (w_data w) /\
  (forall r k, str_eqb k (lit "ref_text") = false ->
     attr_at (w_data w') r k = attr_at (w_data w) r k) /\
  (forall d', In (CallDump d') (w_trace w') ->
     forget_ref_text d' = forget_ref_text (w_data w)) /\
  (forall r, assign_count r (w_trace w') <= 1) /\
  (forall d0 faults,
     let wm := snd (main E (start_world d0 faults)) in
     (w_data wm = JNull \/ forget_ref_text (w_data wm) = forget_ref_text d0) /\
     (forall d', In (CallDump d') (w_trace wm) ->
        forget_ref_text d' = forget_ref_text d0) /\
     (forall r, assign_count r (w_trace wm) <= 1)).
Proof.
  intros Hfresh w'.
  destruct (process_tasks_inv E total (w_data w) tasks i w (fresh_run_inv w Hfresh))
    as (Hf & _ & Hd & Hc & _).
  fold w' in Hf, Hd, Hc.
  split; [assumption|]. split; [|split; [|split]].
  - intros r k Hk.
    rewrite <- (attr_at_forget (w_data w') r k Hk), Hf. now apply attr_at_forget.
  - intros d' Hin. now apply Hd.
  - assumption.
  - intros d0 faults wm. unfold wm.
    destruct (main E (start_world d0 faults)) as [res wf] eqn:Hm. cbn [snd].
    apply main_cases in Hm as [Hi | (w5 & tasks' & I5 & Hc5 & _ & _ & Hrun)].
    + destruct Hi as (_ & _ & (t & Ht & Hq) & Hdata). cbn in Ht, Hdata.
      destruct (init_events_quiet _ Hq) as (_ & H2 & H3 & _).
      split; [|split].
      * destruct Hdata as [Hdata | Hdata]; [now left|]. right.
        now injection Hdata as <-.
      * intros d' Hin. rewrite Ht in Hin. now apply H3 in Hin.
      * intros r. rewrite Ht, H2. lia.
    + cbn in Hc5. injection Hc5 as Hd5.
      destruct I5 as (_ & _ & (t & Ht & Hq) & _). cbn in Ht.
      assert (Hf5 : Forall init_event (w_trace w5)) by now rewrite Ht.
      destruct (process_tasks_inv E (List.length tasks') (w_data w5) tasks' 0 w5
                  (fresh_run_inv w5 Hf5)) as (Hf' & _ & Hd' & Hc' & _).
      rewrite Hrun in Hf', Hd', Hc'. cbn [snd] in Hf', Hd', Hc'.
      rewrite <- Hd5 in Hf', Hd'.
      split; [now right|]. split; [|assumption].
      intros d' Hin. now apply Hd'.
Qed.

(** * References of the worklist never dangle *)

Lemma enumerate_refs_valid (data : json) (tasks : list ref) :
  enumerate_tasks data = Ok tasks -> refs_valid data tasks.
Proof.
  intros H. destruct (enumerate_tasks_spec _ _ H) as [Hin _].
  apply Forall_forall. intros r Hr.
  apply Hin in Hr as (_ & g & e & _ & _ & He & Hp).
  destruct e; try discriminate. now exists d.
Qed.

Lemma set_ref_text_valid (data : json) (r : ref) (text : pystr) (tasks : list ref) :
  refs_valid data tasks -> refs_valid (set_ref_text data r text) tasks.
Proof.
  intros H. eapply Forall_impl; [|exact H]. intros r' [d Hd].
  unfold set_ref_text. rewrite entry_at_update, Hd.
  destruct (ref_eqb r r'); cbn [option_map setitem]; eauto.
Qed.

Lemma turn_effect_valid (r : ref) (w w' : world) (tasks : list ref) :
  turn_effect r w w' -> refs_valid (w_data w) tasks -> refs_valid (w_data w') tasks.
Proof.
  intros (t & _ & [(H1 & _) | (text & t1 & t2 & (e & _ & _ & _ & ->) & _)]) Hv.
  - now rewrite H1.
  - now apply set_ref_text_valid.
Qed.

Lemma nd_same {A} (r : result A) (w : world) (m : M A) :
  m w = (r, w) -> r <> Raise Dangling -> never_dangling m w.
Proof. intros Hm Hr w' H. rewrite Hm in H. injection H as H _. contradiction. Qed.

Lemma nd_call (e : event) (w : world) : never_dangling (call e) w.
Proof.
  intros w'. unfold call. destruct (w_faults w) as [|[f|] l]; try discriminate.
  now destruct f.
Qed.

Lemma nd_bind {A B} (m : M A) (k : A -> M B) (w : world) :
  never_dangling m w ->
  (forall a w1, m w = (Ok a, w1) -> never_dangling (k a) w1) ->
  never_dangling (bind m k) w.
Proof.
  intros Hm Hk w' H. unfold bind in H.
  destruct (m w) as [[a|e] w1] eqn:Hmw.
  - exact (Hk a w1 eq_refl w' H).
  - injection H as -> <-. exact (Hm w1 Hmw).
Qed.

Lemma nd_try {A} (body : M A) (handler : exn -> option (M A)) (w : world) :
  never_dangling body w ->
  (forall e h w1, body w = (Raise e, w1) -> handler e = Some h -> never_dangling h w1) ->
  never_dangling (try_except body handler) w.
Proof.
  intros Hb Hh w' H. unfold try_except in H.
  destruct (body w) as [[a|e] w1] eqn:Hbw; [discriminate|].
  destruct (handler e) as [h|] eqn:He.
  - exact (Hh e h w1 eq_refl He w' H).
  - injection H as -> <-. exact (Hb w1 Hbw).
Qed.

(** One step of a proof that a sequence of primitives never dangles. *)
Ltac nd_step :=
  match goal with
  | |- never_dangling (bind _ _) _ => apply nd_bind; [|intros ? ? _]
  | |- never_dangling (try_except _ _) _ => apply nd_try; [|intros ? ? ? _ ?]
  | |- never_dangling (call _) _ => apply nd_call
  | |- never_dangling (if ?b then _ else _) _ => destruct b
  | |- never_dangling (match ?x with _ => _ end) _ => destruct x
  | H : match ?x with _ => _ end = Some _ |- _ =>
      destruct x; try discriminate H; injection H as <-
  | |- never_dangling _ _ => intros ? ?; discriminate
  end.

Lemma nd_os_path_exists (E : env) (p : pystr) (w : world) :
  never_dangling (os_path_exists E p) w.
Proof. unfold os_path_exists. repeat nd_step. Qed.

Lemma nd_transcribe_audio (E : env) (p : pystr) (language : json) (w : world) :
  never_dangling (transcribe_audio E p language) w.
Proof.
  unfold transcribe_audio, whisper_transcribe.
  repeat first [ apply nd_os_path_exists | nd_step ].
Qed.

Lemma nd_resolve_audio_file (E : env) (rel : json) (w : world) :
  never_dangling (resolve_audio_file E rel) w.
Proof.
  unfold resolve_audio_file. destruct rel; try (intros ? ?; discriminate).
  repeat first [ apply nd_os_path_exists | nd_step ].
Qed.

Lemma nd_transcribe_entry (E : env) (d : dict) (w : world) :
  never_dangling (transcribe_entry E d) w.
Proof.
  unfold transcribe_entry.
  repeat first [ apply nd_resolve_audio_file | apply nd_transcribe_audio | nd_step ].
Qed.

Lemma nd_save (d : json) (w : world) : never_dangling (save_models_json d) w.
Proof.
  intros w'. rewrite save_unfold.
  set (body := json_dump d;; flush;; fsync).
  assert (Hb : forall w0, never_dangling body w0).
  { intros w0. unfold body, json_dump, flush, fsync. repeat nd_step. }
  set (w0 := w_put_disk (mkfile None Torn Torn) (w_call CallOpenW w)).
  specialize (Hb w0).
  destruct (w_faults w) as [|[f|] l]; try (now destruct f).
  all: destruct (body w0) as [[u|e] w1] eqn:Hrun; [discriminate|];
       intros H; injection H as -> _; exact (Hb w1 Hrun).
Qed.

Lemma nd_on_interrupt (w : world) : never_dangling on_interrupt w.
Proof.
  unfold on_interrupt. nd_step; [nd_step|]. nd_step; [nd_step|].
  nd_step; [apply nd_save | nd_step].
Qed.

Lemma nd_iteration (E : env) (total i : nat) (r : ref) (w : world) (d : dict) :
  entry_at (w_data w) r = Some (JDict d) ->
  never_dangling (iteration E total i r) w.
Proof.
  intros Hd.
  assert (Hbody : never_dangling (loop_body E total i r) w).
  { intros w' H. rewrite (loop_body_dict _ _ _ _ _ _ Hd) in H. revert w' H.
    apply nd_bind.
    - intros w'.
      rewrite (process_single_model_dict E r
                 (w_turn total i (get_or d (lit "name") JNull) w) d Hd).
      destruct (truthy _); [discriminate|]. destruct (negb _); [discriminate|].
      apply nd_transcribe_entry.
    - intros [b o] w2 Hp.
      pose proof (read_only_data _ _ _ _ (ro_process_single_model E r) Hp) as Hdata.
      cbn [w_turn w_emit w_data] in Hdata.
      unfold after_process. destruct b; [|intros ? ?; discriminate].
      destruct o as [text|]; [|intros ? ?; discriminate].
      destruct (nonempty text); [|intros ? ?; discriminate].
      assert (Hd2 : entry_at (w_data w2) r = Some (JDict d)) by now rewrite Hdata.
      intros w'. rewrite (commit_unfold _ _ _ _ Hd2). revert w'.
      apply nd_bind; [apply nd_save | intros ? ? _; apply nd_call]. }
  intros w' H. rewrite iteration_cases in H.
  pose proof (loop_body_effect E total i r w) as Heff.
  destruct (loop_body E total i r w) as [[u|e] w1] eqn:Hl; [discriminate|].
  cbn [snd] in Heff.
  assert (Hv : refs_valid (w_data w1) [r]).
  { apply (turn_effect_valid r w w1 [r] Heff).
    constructor; [now exists d | constructor]. }
  inversion Hv as [|? ? [d1 Hd1] _]; subst.
  destruct e; cbn [is_Exception] in H;
    try (unfold on_exception in H; rewrite (bind_entry_get_dict _ _ _ _ _ _ Hd1) in H;
         discriminate).
  - exact (nd_on_interrupt w1 w' H).
  - exact (Hbody w1 Hl).
Qed.

Lemma nd_process_tasks (E : env) (total : nat) (tasks : list ref) :
  forall i w, refs_valid (w_data w) tasks ->
              never_dangling (process_tasks E total i tasks) w.
Proof.
  induction tasks as [|r rest IH]; intros i w Hv.
  - intros w' H. discriminate.
  - inversion Hv as [|? ? [d Hd] Hrest]; subst. cbn [process_tasks].
    apply nd_bind; [now apply (nd_iteration E total i r w d)|].
    intros f w1 Hit. destruct f; [|intros ? ?; discriminate].
    apply IH. apply (turn_effect_valid r w w1); [|assumption].
    pose proof (iteration_effect E total i r w) as He. now rewrite Hit in He.
Qed.

Lemma enumerate_never_dangling (data : json) :
  enumerate_tasks data <> Raise Dangling.
Proof.
  assert (Hm : forall rk gi mk ms mi, scan_models rk gi mk mi ms <> Raise Dangling).
  { intros rk gi mk ms. induction ms as [|m ms IH]; intros mi; [discriminate|].
    cbn [scan_models]. destruct m; try discriminate. cbn [py_get rbind].
    specialize (IH (S mi)).
    destruct (scan_models rk gi mk (S mi) ms); [discriminate | exact IH]. }
  assert (Hw : forall v (scan : pystr -> list json -> result (list ref)),
            (forall k l, scan k l <> Raise Dangling) ->
            (alt <~ py_in (lit "modeles") v ;;
             let key := if alt then lit "modeles" else lit "models" in
             present <~ py_in key v ;;
             if present then
               x <~ py_getitem v key ;;
               match x with
               | JList l => scan key l
               | _ => Ok []
               end
             else Ok []) <> Raise Dangling).
  { intros v scan Hs. destruct v; try discriminate; cbn [py_in rbind].
    - match goal with |- context [if ?b then lit "modeles" else _] => destruct b end;
        match goal with |- context [if ?b then _ else Ok []] => destruct b end;
        discriminate.
    - match goal with |- context [if ?b then lit "modeles" else _] => destruct b end;
        match goal with |- context [if ?b then _ else Ok []] => destruct b end;
        discriminate.
    - set (key := if dict_has d (lit "modeles") then lit "modeles" else lit "models").
      destruct (dict_has d key) eqn:Hk; [|discriminate].
      cbn [py_getitem]. destruct (dict_get d key) as [x|]; [|discriminate].
      cbn [rbind]. destruct x; try discriminate. apply Hs. }
  assert (Hg : forall rk gs gi, scan_groups rk gi gs <> Raise Dangling).
  { intros rk gs. induction gs as [|g gs IH]; intros gi; [discriminate|].
    cbn [scan_groups].
    assert (Hg : scan_group rk gi g <> Raise Dangling)
      by exact (Hw g (fun key l => scan_models rk gi key 0 l)
                  (fun k l => Hm rk gi k l 0)).
    destruct (scan_group rk gi g) as [here|e]; cbn [rbind]; [|exact Hg].
    specialize (IH (S gi)). destruct (scan_groups rk (S gi) gs); [discriminate | exact IH]. }
  exact (Hw data (fun key l => scan_groups key 0 l) (fun k l => Hg k l 0)).
Qed.

(** No run of [main] ends on a dangling reference: the references of the
    worklist point at dicts of the catalog, and stay so. *)
Lemma main_never_dangling (E : env) (w : world) : never_dangling (main E) w.
Proof.
  unfold main.
  apply nd_bind; [apply nd_os_path_exists|]. intros found w1 _.
  destruct (negb found); [intros ? ?; discriminate|].
  apply nd_bind; [intros ? ?; discriminate|]. intros u2 w2 _.
  apply nd_bind; [unfold load_models_json; repeat nd_step|]. intros d0 w3 _.
  apply nd_bind; [intros ? ?; discriminate|]. intros u4 w4 _.
  apply nd_bind; [repeat nd_step|]. intros loaded w5' _.
  destruct (negb loaded); [intros ? ?; discriminate|].
  apply nd_bind; [intros ? ?; discriminate|]. intros data w5 Hg.
  unfold get_data in Hg. injection Hg as <- <-.
  apply nd_bind.
  - intros w'. unfold lift. intros H. injection H as H _.
    exact (enumerate_never_dangling _ H).
  - intros tasks w6 Ht. unfold lift in Ht. injection Ht as Ht <-.
    apply nd_bind; [intros ? ?; discriminate|]. intros u7 w7 Hlog.
    unfold log, emit in Hlog. injection Hlog as _ <-.
    destruct (Nat.eqb _ _); [intros ? ?; discriminate|].
    apply nd_process_tasks. cbn [w_data w_emit].
    now apply enumerate_refs_valid.
Qed.

(** * The theorems at work on the sample catalogs *)

Lemma C2_witness_mixed_catalog :
  let c := mkref (lit "modeles") 0 (lit "modeles") 0 in
  enumerate_tasks mixed_catalog = Ok [c] /\
  (forall r, In r [c] <-> on_walk mixed_catalog r).
Proof.
  split; [reflexivity|].
  apply (C2_worklist_of_selected_spellings mixed_catalog). reflexivity.
Defined.

Lemma C1_witness_one_entry :
  let w := loaded_world one_entry_catalog [] in
  let w2 := snd (process_single_model sample_env entry_0 (w_turn 1 0 (JStr (lit "b")) w)) in
  let data' := set_ref_text one_entry_catalog entry_0 (lit "hello") in
  entry_at (w_data w) entry_0 = Some (JDict dict_b) /\
  process_single_model sample_env entry_0 (w_turn 1 0 (JStr (lit "b")) w) =
    (Ok (true, Some (lit "hello")), w2) /\
  calm 5 w2 /\ encodable data' = true /\
  ref_text_at data' entry_0 = Some (JStr (lit "hello")) /\
  process_tasks sample_env 1 0 [entry_0] w =
  process_tasks sample_env 1 1 [] (w_committed entry_0 (lit "hello") (JStr (lit "b")) w2).
Proof.
  intros w w2 data'.
  assert (H1 : entry_at (w_data w) entry_0 = Some (JDict dict_b)) by reflexivity.
  assert (H2 : process_single_model sample_env entry_0
                 (w_turn 1 0 (get_or dict_b (lit "name") JNull) w) =
               (Ok (true, Some (lit "hello")), w2)) by (vm_compute; reflexivity).
  assert (H3 : calm 5 w2) by (vm_compute; exact I).
  assert (H4 : encodable data' = true) by (vm_compute; reflexivity).
  destruct (C1_commit_before_next_entry sample_env 1 0 entry_0 [] w w2 dict_b
              (lit "hello") H1 H2)
    as (_ & Hr & _ & _ & _ & _ & Hcommit & _).
  split; [exact H1|]. split; [exact H2|]. split; [exact H3|]. split; [exact H4|].
  split; [exact Hr|]. exact (proj1 (Hcommit H3 H4)).
Defined.

Lemma tagged_catalog_satisfied :
  forall r e, entry_of tagged_catalog r e -> pending e = false.
Proof.
  intros [rk gi mk mi] e (Hroot & g & Hg & Hk & He).
  cbn [root_key models_key] in Hroot, Hk.
  vm_compute in Hroot. subst rk.
  destruct gi as [|[|n]]; vm_compute in Hg; try discriminate.
  injection Hg as <-. vm_compute in Hk. subst mk.
  destruct mi as [|[|n]]; vm_compute in He; try discriminate.
  now injection He as <-.
Qed.

Lemma C3_witness_tagged_catalog :
  let w := start_world tagged_catalog [] in
  f_cache (w_disk w) = Document tagged_catalog /\
  (forall r e, entry_of tagged_catalog r e -> pending e = false) /\
  (exists e, entry_at tagged_catalog (mkref (lit "models") 0 (lit "tags") 0) = Some e /\
             pending e = true) /\
  init_state w (snd (main sample_env w)).
Proof.
  intros w. split; [reflexivity|]. split; [exact tagged_catalog_satisfied|].
  split; [eexists; split; reflexivity|].
  exact (proj1 (proj1
    (C3_satisfied_entries_are_left_alone sample_env w tagged_catalog eq_refl
       tagged_catalog_satisfied))).
Defined.

Lemma C4_witness_missing_asset :
  let w := loaded_world two_entry_catalog [] in
  let w2 := snd (process_single_model sample_env entry_0 (w_turn 2 0 (JStr (lit "a")) w)) in
  entry_at (w_data w) entry_0 = Some (JDict dict_a) /\
  process_single_model sample_env entry_0 (w_turn 2 0 (JStr (lit "a")) w) =
    (Ok (false, None), w2) /\
  failure (Ok (false, None)) /\
  exists w3,
    process_tasks sample_env 2 0 [entry_0; entry_1] w =
    process_tasks sample_env 2 1 [entry_1] w3 /\
    untouched w w3 /\
    ref_text_at (w_data w3) entry_0 = ref_text_at (w_data w) entry_0 /\
    saves_begun (w_trace w3) = saves_begun (w_trace w).
Proof.
  intros w w2.
  assert (H1 : entry_at (w_data w) entry_0 = Some (JDict dict_a)) by reflexivity.
  assert (H2 : process_single_model sample_env entry_0
                 (w_turn 2 0 (get_or dict_a (lit "name") JNull) w) =
               (Ok (false, None), w2)) by (vm_compute; reflexivity).
  split; [exact H1|]. split; [exact H2|]. split; [exact I|].
  exact (proj1
    (C4_failure_leaves_entry_pending sample_env 2 0 entry_0 [entry_1] w w2 dict_a
       (Ok (false, None)) H1 H2 I)).
Defined.

Lemma C5_witness_interrupt_in_transcription :
  let w := loaded_world one_entry_catalog [None; None; None; Some Sigint] in
  let w1 := snd (loop_body sample_env 1 0 entry_0 w) in
  loop_body sample_env 1 0 entry_0 w = (Raise KeyboardInterrupt, w1) /\
  process_tasks sample_env 1 0 [entry_0] w =
    (Ok tt, w_saved (w_data w1) (w_emit (Log Interrupted) w1)) /\
  ref_text_at (w_data w1) entry_0 = None.
Proof.
  intros w w1.
  assert (H1 : loop_body sample_env 1 0 entry_0 w = (Raise KeyboardInterrupt, w1))
    by (vm_compute; reflexivity).
  assert (H2 : calm 4 w1) by (vm_compute; exact I).
  assert (H3 : encodable (w_data w1) = true) by (vm_compute; reflexivity).
  split; [exact H1|]. split; [|vm_compute; reflexivity].
  exact (proj1 (proj1 (proj2 (proj2 (proj2 (proj2 (proj2 (proj2
    (C5_interrupt_saves_and_stops sample_env 1 0 entry_0 [] w w1 H1))))))) H2 H3)).
Defined.

Lemma C6_witness_blank_transcript :
  let w := loaded_world one_entry_catalog [] in
  let p := lit "/repo/modeles/b.wav" in
  let raw := [32; 10; 32]%N in
  let w1 := snd (resolve_audio_file blank_env (JStr (lit "models/b.wav"))
                   (w_turn 1 0 (JStr (lit "b")) w)) in
  entry_at (w_data w) entry_0 = Some (JDict dict_b) /\
  pending (JDict dict_b) = true /\
  resolve_audio_file blank_env (JStr (lit "models/b.wav"))
    (w_turn 1 0 (JStr (lit "b")) w) = (Ok p, w1) /\
  calm 2 w1 /\
  path_exists blank_env (w_disk w1) p = true /\
  whisper blank_env p None = Some raw /\
  Forall (fun c => is_space c = true) raw /\
  fst (process_single_model blank_env entry_0 (w_turn 1 0 (JStr (lit "b")) w)) =
    Ok (false, None).
Proof.
  intros w p raw w1.
  assert (H1 : entry_at (w_data w) entry_0 = Some (JDict dict_b)) by reflexivity.
  assert (H2 : pending (JDict dict_b) = true) by reflexivity.
  assert (H3 : truthy (get_or dict_b (lit "file") JNull) = true) by reflexivity.
  assert (H4 : resolve_audio_file blank_env (get_or dict_b (lit "file") JNull)
                 (w_turn 1 0 (get_or dict_b (lit "name") JNull) w) = (Ok p, w1))
    by (vm_compute; reflexivity).
  assert (H5 : calm 2 w1) by (vm_compute; exact I).
  assert (H6 : path_exists blank_env (w_disk w1) p = true) by (vm_compute; reflexivity).
  assert (H7 : whisper blank_env p
                 (whisper_options (get_or dict_b (lit "language") JNull)) = Some raw)
    by (vm_compute; reflexivity).
  assert (H8 : Forall (fun c => is_space c = true) raw)
    by (repeat constructor).
  split; [exact H1|]. split; [exact H2|]. split; [exact H4|]. split; [exact H5|].
  split; [exact H6|]. split; [exact H7|]. split; [exact H8|].
  exact (proj1 (proj2 (proj2
    (C6_blank_transcript_is_failure blank_env 1 0 entry_0 [] w w1 dict_b p raw
       H1 H2 H3 H4 H5 H6 H7 H8)))).
Defined.

Lemma C7_witness_alternate_spelling :
  let w := loaded_world one_entry_catalog [] in
  calm 2 w /\
  fst (resolve_audio_file sample_env (JStr (lit "models/b.wav")) w) =
  Ok (lit "/repo/modeles/b.wav").
Proof.
  intros w. assert (H : calm 2 w) by exact I. split; [exact H|].
  exact (proj2 (proj2 (proj2 (proj2
    (C7_path_fallback sample_env (lit "models/b.wav") w H))))
    (lit "b.wav") eq_refl eq_refl eq_refl eq_refl).
Defined.

Lemma C8_witness_two_entries :
  let w := loaded_world two_entry_catalog [] in
  Forall init_event (w_trace w) /\
  forget_ref_text (w_data (snd (process_tasks sample_env 2 0 [entry_0; entry_1] w))) =
  forget_ref_text (w_data w).
Proof.
  intros w. assert (H : Forall init_event (w_trace w)) by constructor.
  split; [exact H|].
  exact (proj1 (C8_only_ref_text_is_written sample_env 2 0 [entry_0; entry_1] w H)).
Defined.

Lemma C9_witness_mixed_catalog :
  let d := [(lit "models",
             JList [JDict [(lit "models", JList [sample_entry "a" "models/a.wav"])]]);
            (lit "modeles",
             JList [JDict [(lit "models", JList [sample_entry "b" "models/b.wav"]);
                           (lit "modeles", JList [sample_entry "c" "modeles/c.wav"])]])] in
  let tasks := [mkref (lit "modeles") 0 (lit "modeles") 0] in
  enumerate_tasks (JDict d) = Ok tasks /\
  (forall r, In r tasks -> root_key r = lit "modeles") /\
  (forall v, enumerate_tasks (JDict (dict_set d (lit "models") v)) = Ok tasks).
Proof.
  intros d tasks.
  assert (H : enumerate_tasks (JDict d) = Ok tasks) by reflexivity.
  split; [exact H|].
  destruct (proj1 (C9_modeles_takes_precedence d tasks H) eq_refl eq_refl)
    as (H1 & _ & H3).
  split; [exact H1 | exact H3].
Defined.

Lemma C10_witness_token_twice :
  let w := loaded_world one_entry_catalog [] in
  calm 2 w /\
  path_exists sample_env (w_disk w)
    (os_path_join (BASE_DIR sample_env) (lit "models/models/a.wav")) = false /\
  replace (lit "models/") (lit "modeles/") (lit "models/models/a.wav") =
  lit "modeles/modeles/a.wav".
Proof.
  intros w. assert (H1 : calm 2 w) by exact I.
  assert (H2 : path_exists sample_env (w_disk w)
                 (os_path_join (BASE_DIR sample_env) (lit "models/models/a.wav")) = false)
    by reflexivity.
  split; [exact H1|]. split; [exact H2|].
  exact (proj1 (proj2 (proj2 (C10_replace_every_occurrence sample_env w H1 H2)))).
Defined.

(** * Further properties: the catalog file *)

Lemma calm_w_torn (n : nat) (d : json) (w : world) :
  calm (2 + n) w -> calm n (w_torn d w).
Proof.
  intros H. unfold w_torn.
  change (calm n (w_call (CallDump d) (w_call CallOpenW w))).
  do 2 apply calm_w_call. exact H.
Qed.

(** X1: what a save that no fault disturbs does is decided by the catalog.
    When every string of it can be encoded in UTF-8 the save runs to its
    end and leaves the document in the cache and on stable storage, with
    nothing left in the buffer, whatever the file held before, and a load
    that follows reads the same document back.  When some string holds a
    surrogate the save raises [UnicodeEncodeError] inside [json.dump], after
    the file was truncated: the previous document is lost and a load that
    follows fails. *)
Theorem X1_save_outcome (d : json) (w : world) :
  calm 5 w ->
  (encodable d = true ->
   save_models_json d w = (Ok tt, w_saved d w) /\
   w_disk (w_saved d w) = mkfile None (Document d) (Document d) /\
   w_data (w_saved d w) = w_data w /\
   load_models_json (w_saved d w) = (Ok d, w_call CallRead (w_saved d w))) /\
  (encodable d = false ->
   save_models_json d w = (Raise UnicodeEncodeError, w_torn d w) /\
   w_disk (w_torn d w) = mkfile None Torn Torn /\
   w_data (w_torn d w) = w_data w /\
   fst (load_models_json (w_torn d w)) = Raise ValueError).
Proof.
  intros Hc. split; intros He.
  - split; [apply save_calm; [exact He | now apply calm_S]|].
    split; [reflexivity|]. split; [reflexivity|].
    unfold load_models_json.
    rewrite (bind_call_calm 0); [reflexivity|].
    apply (calm_w_saved 1). exact Hc.
  - split; [apply save_unencodable; [exact He | now do 3 apply calm_S]|].
    split; [reflexivity|]. split; [reflexivity|].
    unfold load_models_json.
    rewrite (bind_call_calm 0); [reflexivity|].
    apply (calm_w_torn 1). now do 2 apply calm_S.
Qed.

Lemma X1_witness_save_outcome :
  let w := loaded_world one_entry_catalog [] in
  calm 5 w /\
  encodable done_catalog = true /\ encodable surrogate_catalog = false /\
  load_models_json (w_saved done_catalog w) =
    (Ok done_catalog, w_call CallRead (w_saved done_catalog w)) /\
  save_models_json surrogate_catalog w =
    (Raise UnicodeEncodeError, w_torn surrogate_catalog w).
Proof.
  intros w.
  assert (H : calm 5 w) by exact I.
  assert (H1 : encodable done_catalog = true) by reflexivity.
  assert (H2 : encodable surrogate_catalog = false) by reflexivity.
  split; [exact H|]. split; [exact H1|]. split; [exact H2|]. split.
  - exact (proj2 (proj2 (proj2 (proj1 (X1_save_outcome done_catalog w H) H1)))).
  - exact (proj1 (proj2 (X1_save_outcome surrogate_catalog w H) H2)).
Defined.



(** X3: the save is not atomic.  A fault inside [json.dump], after the file
    was opened for writing, leaves the file truncated, in the cache and on
    stable storage, and the previous document is lost; a load that follows
    raises [ValueError] (a JSON decode error). *)
Theorem X3_fault_in_dump_tears_file (d : json) (w : world) (f : fault)
    (l : list (option fault)) :
  w_faults w = None :: Some f :: l ->
  no_fault 1 l ->
  let w' := snd (save_models_json d w) in
  fst (save_models_json d w) = Raise (exn_of_fault f) /\
  w_disk w' = mkfile None Torn Torn /\
  w_trace w' = w_trace w ++ [CallOpenW; CallDump d] /\
  fst (load_models_json w') = Raise ValueError.
Proof.
  intros Hf Hl. destruct w as [wd wu wfile wt fl]. cbn [w_faults] in Hf.
  subst fl. cbv zeta. rewrite save_unfold.
  unfold json_dump, bind, call.
  cbn [w_faults w_put_disk w_call tl fst snd w_disk write_back f_buffer w_trace
       w_data w_updated].
  split; [reflexivity|]. split; [reflexivity|].
  split; [now rewrite <- app_assoc|].
  unfold load_models_json, bind, call, get_disk.
  cbn [w_faults w_put_disk w_call tl fst snd w_disk write_back f_buffer w_trace
       w_data w_updated].
  destruct l as [|[x|] l']; [reflexivity | contradiction | reflexivity].
Qed.

Lemma X3_witness_fault_in_dump :
  let w := loaded_world one_entry_catalog [None; Some Sigint] in
  w_faults w = [None; Some Sigint] /\ no_fault 1 (@nil (option fault)) /\
  fst (load_models_json (snd (save_models_json done_catalog w))) = Raise ValueError.
Proof.
  intros w. split; [reflexivity|]. split; [exact I|].
  exact (proj2 (proj2 (proj2
    (X3_fault_in_dump_tears_file done_catalog w Sigint [] eq_refl I)))).
Defined.

(** * Further properties: [main] before the loop *)

Lemma path_exists_catalog (E : env) (f : file) :
  path_exists E f (MODELS_JSON_PATH E) =
  match f_cache f with Absent => false | _ => true end.
Proof. unfold path_exists. now rewrite str_eqb_refl. Qed.

Lemma os_path_exists_calm (E : env) (n : nat) (p : pystr) (w : world) :
  calm (S n) w ->
  os_path_exists E p w = (Ok (path_exists E (w_disk w) p), w_call (CallExists p) w).
Proof.
  intros H. unfold os_path_exists, try_except, bind. now rewrite (call_calm _ _ _ H).
Qed.

Lemma main_run_exists (E : env) (n : nat) (w : world) :
  calm (S n) w ->
  main E w =
  (if negb (path_exists E (w_disk w) (MODELS_JSON_PATH E))
   then log CatalogNotFound else main_found E)
    (w_call (CallExists (MODELS_JSON_PATH E)) w).
Proof.
  intros H. unfold main. erewrite bind_run by (apply (os_path_exists_calm E n), H).
  reflexivity.
Qed.

Lemma main_found_run (E : env) (n : nat) (w : world) (d0 : json) :
  calm (S n) w -> f_cache (w_disk w) = Document d0 ->
  main_found E w =
  main_loaded E (w_put_data d0 (w_call CallRead (w_emit (Log LoadingModels) w))).
Proof.
  intros H Hc. unfold main_found. unfold bind at 1. cbn [log emit].
  unfold load_models_json.
  assert (Hl : (call CallRead;; f <- get_disk;;
                match f_cache f with
                | Absent => raise OSError
                | Torn => raise ValueError
                | Document j => ret j
                end) (w_emit (Log LoadingModels) w) =
               (Ok d0, w_call CallRead (w_emit (Log LoadingModels) w))).
  { rewrite (bind_call_calm n) by exact H. unfold bind, get_disk.
    cbn [w_disk w_call w_emit]. now rewrite Hc. }
  rewrite (bind_run _ _ _ _ _ Hl). reflexivity.
Qed.

Lemma main_loaded_run (E : env) (n : nat) (w : world) :
  calm (S n) w ->
  main_loaded E w = main_ready E (w_call CallLoadModel (w_emit (Log LoadingWhisper) w)).
Proof.
  intros H. unfold main_loaded, try_except. unfold bind at 1 2. cbn [log emit].
  rewrite (bind_call_calm n) by exact H. reflexivity.
Qed.

(** When nothing fails before the loop, [main] loads the catalog and the
    model and goes on to enumerate. *)
Lemma main_calm_ready (E : env) (w : world) (d0 : json) :
  calm 3 w -> f_cache (w_disk w) = Document d0 ->
  main E w = main_ready E (w_ready E d0 w).
Proof.
  intros H Hc. rewrite (main_run_exists E 2 w H), path_exists_catalog, Hc.
  cbn [negb].
  rewrite (main_found_run E 1 _ d0) by (try apply calm_w_call; assumption).
  apply (main_loaded_run E 0). do 2 apply calm_w_call. exact H.
Qed.

(** X4: without a catalog file [main] logs that it was not found and
    returns normally; it reads nothing, loads no model and writes nothing.
    The same happens when the existence check itself fails with an I/O
    error (the check then answers no); only an interrupt is raised. *)
Theorem X4_missing_catalog_returns (E : env) (w : world) :
  f_cache (w_disk w) = Absent ->
  hd None (w_faults w) <> Some Sigint ->
  main E w =
  (Ok tt, w_emit (Log CatalogNotFound) (w_call (CallExists (MODELS_JSON_PATH E)) w)).
Proof.
  intros Hc Hf. unfold main, os_path_exists, try_except.
  unfold bind at 1 2. unfold call.
  destruct (w_faults w) as [|[[|]|] l]; cbn [hd] in Hf.
  - unfold bind, get_disk. cbn [w_call w_disk]. now rewrite path_exists_catalog, Hc.
  - now destruct Hf.
  - reflexivity.
  - unfold bind, get_disk. cbn [w_call w_disk]. now rewrite path_exists_catalog, Hc.
Qed.

Lemma X4_witness_missing_catalog :
  let w := mkworld JNull 0 (mkfile None Absent Absent) [] [] in
  f_cache (w_disk w) = Absent /\
  hd None (w_faults w) <> Some Sigint /\
  fst (main sample_env w) = Ok tt.
Proof.
  intros w. assert (H : hd None (w_faults w) <> Some Sigint) by discriminate.
  split; [reflexivity|]. split; [exact H|].
  now rewrite (X4_missing_catalog_returns sample_env w eq_refl H).
Defined.

(** X5: on a catalog file that does not hold a complete document (for
    instance after a torn save), [main] ends with [ValueError] right after
    the read: no model is loaded, nothing is written. *)
Theorem X5_torn_catalog_aborts (E : env) (w : world) :
  calm 2 w ->
  f_cache (w_disk w) = Torn ->
  main E w = (Raise ValueError, w_call CallRead (w_found E w)).
Proof.
  intros H Hc. rewrite (main_run_exists E 1 w H), path_exists_catalog, Hc.
  cbn [negb]. unfold main_found. unfold bind at 1. cbn [log emit].
  apply bind_raise. unfold load_models_json.
  rewrite (bind_call_calm 0) by (apply calm_w_call, H).
  unfold bind, get_disk. cbn [w_disk w_call w_emit]. now rewrite Hc.
Qed.

Lemma X5_witness_torn_catalog :
  let w := mkworld JNull 0 (mkfile None Torn Torn) [] [] in
  calm 2 w /\ f_cache (w_disk w) = Torn /\
  fst (main sample_env w) = Raise ValueError.
Proof.
  intros w. assert (H : calm 2 w) by exact I.
  split; [exact H|]. split; [reflexivity|].
  now rewrite (X5_torn_catalog_aborts sample_env w H eq_refl).
Defined.

(** X6: when [whisper.load_model] fails with an I/O error, [main] logs the
    failure and returns normally with the catalog loaded in memory; it does
    not enumerate, process or save anything. *)
Theorem X6_model_load_failure_returns (E : env) (w : world) (d0 : json)
    (l : list (option fault)) :
  f_cache (w_disk w) = Document d0 ->
  w_faults w = None :: None :: Some IOError :: l ->
  main E w = (Ok tt, w_emit (Log (WhisperLoadFailed OSError)) (w_ready E d0 w)) /\
  w_disk (w_ready E d0 w) = w_disk w /\
  w_data (w_ready E d0 w) = d0.
Proof.
  intros Hc Hf. split; [|now split].
  assert (H2 : calm 2 w) by (unfold calm; now rewrite Hf).
  rewrite (main_run_exists E 1 w H2), path_exists_catalog, Hc. cbn [negb].
  rewrite (main_found_run E 0 _ d0) by (try apply calm_w_call; assumption).
  unfold main_loaded, try_except. unfold bind at 1 2. cbn [log emit].
  unfold bind at 1, call.
  cbn [w_faults w_emit w_put_data w_call]. rewrite Hf. reflexivity.
Qed.

Lemma X6_witness_model_load_failure :
  let w := start_world one_entry_catalog [None; None; Some IOError] in
  f_cache (w_disk w) = Document one_entry_catalog /\
  w_faults w = [None; None; Some IOError] /\
  fst (main sample_env w) = Ok tt.
Proof.
  intros w. split; [reflexivity|]. split; [reflexivity|].
  now rewrite (proj1 (X6_model_load_failure_returns sample_env w one_entry_catalog []
                        eq_refl eq_refl)).
Defined.

(** X7: an interrupt before the loop is not handled: when the signal hits
    the existence check, the read or the loading of the model, [main] ends
    with [KeyboardInterrupt], and no save is begun. *)
Theorem X7_interrupt_before_loop_propagates (E : env) (w : world) (d0 : json)
    (n : nat) (l : list (option fault)) :
  f_cache (w_disk w) = Document d0 ->
  n < 3 ->
  w_faults w = repeat None n ++ Some Sigint :: l ->
  fst (main E w) = Raise KeyboardInterrupt /\
  w_disk (snd (main E w)) = w_disk w /\
  saves_begun (w_trace (snd (main E w))) = saves_begun (w_trace w).
Proof.
  intros Hc Hn Hf.
  assert (Hq : init_state w (snd (main E w))).
  { destruct (main E w) as [res w'] eqn:Hm. cbn [snd].
    destruct n as [|[|[|n]]]; try lia; cbn [repeat app] in Hf.
    - unfold main, os_path_exists, try_except in Hm.
      unfold bind at 1 2 in Hm. unfold call in Hm. rewrite Hf in Hm.
      injection Hm as _ <-. split; [reflexivity|]. split; [reflexivity|].
      split; [exists [CallExists (MODELS_JSON_PATH E)]; split;
              [reflexivity | repeat constructor] | now left].
    - assert (H1 : calm 1 w) by (unfold calm; now rewrite Hf).
      rewrite (main_run_exists E 0 w H1), path_exists_catalog, Hc in Hm.
      cbn [negb] in Hm. unfold main_found in Hm. unfold bind at 1 in Hm.
      cbn [log emit] in Hm. unfold load_models_json in Hm.
      unfold bind at 1 2 in Hm. unfold call in Hm.
      cbn [w_faults w_emit w_call] in Hm. rewrite Hf in Hm. cbn [tl] in Hm.
      injection Hm as _ <-. split; [reflexivity|]. split; [reflexivity|].
      split; [|now left]. eexists. cbn [w_trace w_call w_emit].
      split; [rewrite <- !app_assoc; reflexivity | repeat constructor].
    - assert (H2 : calm 2 w) by (unfold calm; now rewrite Hf).
      rewrite (main_run_exists E 1 w H2), path_exists_catalog, Hc in Hm.
      cbn [negb] in Hm.
      rewrite (main_found_run E 0 _ d0) in Hm by (try apply calm_w_call; assumption).
      unfold main_loaded, try_except in Hm. unfold bind at 1 2 in Hm.
      cbn [log emit] in Hm. unfold bind at 1, call in Hm.
      cbn [w_faults w_emit w_put_data w_call] in Hm. rewrite Hf in Hm.
      cbn [tl is_Exception exn_of_fault] in Hm.
      injection Hm as _ <-. split; [reflexivity|]. split; [reflexivity|].
      split; [|now right]. eexists. cbn [w_trace w_call w_emit w_put_data].
      split; [rewrite <- !app_assoc; reflexivity | repeat constructor]. }
  split.
  - destruct n as [|[|[|n]]]; try lia; cbn [repeat app] in Hf.
    + unfold main, os_path_exists, try_except.
      unfold bind at 1 2. unfold call. now rewrite Hf.
    + assert (H1 : calm 1 w) by (unfold calm; now rewrite Hf).
      rewrite (main_run_exists E 0 w H1), path_exists_catalog, Hc.
      cbn [negb]. unfold main_found. unfold bind at 1.
      cbn [log emit]. unfold load_models_json.
      unfold bind at 1 2. unfold call.
      cbn [w_faults w_emit w_call]. now rewrite Hf.
    + assert (H2 : calm 2 w) by (unfold calm; now rewrite Hf).
      rewrite (main_run_exists E 1 w H2), path_exists_catalog, Hc.
      cbn [negb].
      rewrite (main_found_run E 0 _ d0) by (try apply calm_w_call; assumption).
      unfold main_loaded, try_except. unfold bind at 1 2.
      cbn [log emit]. unfold bind at 1, call.
      cbn [w_faults w_emit w_put_data w_call]. now rewrite Hf.
  - destruct Hq as (Hd & _ & (t & Ht & Hall) & _). split; [assumption|].
    rewrite Ht, saves_begun_app.
    destruct (init_events_quiet _ Hall) as (H0 & _). lia.
Qed.

Lemma X7_witness_interrupt_while_loading_model :
  let w := start_world one_entry_catalog [None; None; Some Sigint] in
  f_cache (w_disk w) = Document one_entry_catalog /\
  2 < 3 /\
  w_faults w = repeat None 2 ++ [Some Sigint] /\
  fst (main sample_env w) = Raise KeyboardInterrupt.
Proof.
  intros w. assert (H : 2 < 3) by lia.
  split; [reflexivity|]. split; [exact H|]. split; [reflexivity|].
  exact (proj1 (X7_interrupt_before_loop_propagates sample_env w one_entry_catalog
                  2 [] eq_refl H eq_refl)).
Defined.

(** * Further properties: enumeration of malformed catalogs *)

Lemma scan_models_raises (rk : pystr) (gi : nat) (mk : pystr) (models : list json) :
  forall mi e, scan_models rk gi mk mi models = Raise e -> e = AttributeError.
Proof.
  induction models as [|m ms IH]; intros mi e H; [discriminate|].
  cbn [scan_models] in H. destruct m; try (now injection H as <-).
  cbn [py_get rbind] in H.
  destruct (scan_models rk gi mk (S mi) ms) as [tasks|e'] eqn:Hs; [discriminate|].
  cbn [rbind] in H. injection H as <-. exact (IH _ _ Hs).
Qed.

Lemma walk_raises (v : json) (scan : pystr -> list json -> result (list ref)) (e : exn) :
  (forall k l e', scan k l = Raise e' -> walk_error e') ->
  (alt <~ py_in (lit "modeles") v ;;
   let key := if alt then lit "modeles" else lit "models" in
   present <~ py_in key v ;;
   if present then
     x <~ py_getitem v key ;;
     match x with
     | JList l => scan key l
     | _ => Ok []
     end
   else Ok []) = Raise e ->
  walk_error e.
Proof.
  intros Hs. destruct v; cbn [py_in rbind]; try (intros [= <-]; now left).
  - match goal with |- context [if ?b then lit "modeles" else _] => destruct b end;
      match goal with |- context [if ?b then _ else Ok []] => destruct b end;
      cbn [py_getitem rbind]; try discriminate; intros [= <-]; now left.
  - match goal with |- context [if ?b then lit "modeles" else _] => destruct b end;
      match goal with |- context [if ?b then _ else Ok []] => destruct b end;
      cbn [py_getitem rbind]; try discriminate; intros [= <-]; now left.
  - set (key := if dict_has d (lit "modeles") then lit "modeles" else lit "models").
    destruct (dict_has d key) eqn:Hk; [|discriminate].
    cbn [py_getitem]. unfold dict_has in Hk.
    destruct (dict_get d key) as [x|]; [|discriminate].
    cbn [rbind]. destruct x; try discriminate. apply Hs.
Qed.

Lemma scan_groups_raises (rk : pystr) (groups : list json) :
  forall gi e, scan_groups rk gi groups = Raise e -> walk_error e.
Proof.
  induction groups as [|g gs IH]; intros gi e H; [discriminate|].
  cbn [scan_groups] in H.
  destruct (scan_group rk gi g) as [here|e'] eqn:Hg.
  - cbn [rbind] in H.
    destruct (scan_groups rk (S gi) gs) as [later|e''] eqn:Hl; [discriminate|].
    cbn [rbind] in H. injection H as <-. exact (IH _ _ Hl).
  - cbn [rbind] in H. injection H as <-.
    apply (walk_raises g (fun key l => scan_models rk gi key 0 l)); [|exact Hg].
    intros k l e'' Hs. right. exact (scan_models_raises _ _ _ _ _ _ Hs).
Qed.

Lemma enumerate_tasks_raises (data : json) (e : exn) :
  enumerate_tasks data = Raise e -> walk_error e.
Proof.
  apply (walk_raises data (fun key l => scan_groups key 0 l)).
  intros k l e'. apply scan_groups_raises.
Qed.

(** X8: when the enumeration raises, [main] ends with that exception after
    the model was loaded and before any entry is processed; the file is
    untouched.  The exception is a [TypeError] or an [AttributeError], never
    a [KeyError]: every subscript is guarded by a membership test. *)
Theorem X8_enumeration_error_aborts (E : env) (w : world) (d0 : json) (e : exn) :
  calm 3 w ->
  f_cache (w_disk w) = Document d0 ->
  enumerate_tasks d0 = Raise e ->
  main E w = (Raise e, w_ready E d0 w) /\
  walk_error e /\
  w_disk (w_ready E d0 w) = w_disk w.
Proof.
  intros H Hc He. split; [|split; [now apply (enumerate_tasks_raises d0) | reflexivity]].
  rewrite (main_calm_ready E w d0 H Hc). unfold main_ready.
  unfold bind at 1. cbn [get_data]. unfold bind at 1, lift.
  change (w_data (w_ready E d0 w)) with d0. now rewrite He.
Qed.

Lemma X8_witness_stray_entry :
  let w := start_world stray_catalog [] in
  calm 3 w /\ f_cache (w_disk w) = Document stray_catalog /\
  enumerate_tasks stray_catalog = Raise AttributeError /\
  main sample_env w = (Raise AttributeError, w_ready sample_env stray_catalog w).
Proof.
  intros w. assert (H : calm 3 w) by exact I.
  split; [exact H|]. split; [reflexivity|]. split; [reflexivity|].
  exact (proj1 (X8_enumeration_error_aborts sample_env w stray_catalog AttributeError
                  H eq_refl eq_refl)).
Defined.

(** X9: the walk of a list of entries succeeds exactly when every element of
    the list is a dict, pending or not: one element of another type makes
    the whole enumeration fail, with [AttributeError]. *)
Theorem X9_entries_must_be_dicts (rk : pystr) (gi : nat) (mk : pystr) (mi : nat)
    (models : list json) :
  ((exists tasks, scan_models rk gi mk mi models = Ok tasks) <->
   Forall is_dict models) /\
  (~ Forall is_dict models ->
   scan_models rk gi mk mi models = Raise AttributeError).
Proof.
  assert (Hiff : (exists tasks, scan_models rk gi mk mi models = Ok tasks) <->
                 Forall is_dict models).
  { split; [|intros H; now apply scan_models_total].
    revert mi. induction models as [|m ms IH]; intros mi [tasks H]; [constructor|].
    cbn [scan_models] in H. destruct m; try discriminate. cbn [py_get rbind] in H.
    destruct (scan_models rk gi mk (S mi) ms) as [tasks'|] eqn:Hs; [|discriminate].
    constructor; [exact I|]. apply (IH (S mi)). now exists tasks'. }
  split; [exact Hiff|]. intros Hn.
  destruct (scan_models rk gi mk mi models) as [tasks|e] eqn:Hs.
  - exfalso. apply Hn, Hiff. now exists tasks.
  - now rewrite (scan_models_raises _ _ _ _ _ _ Hs).
Qed.

(** X10: catalogs that are not of the documented shape.  A root that is
    null, a boolean or a number makes the enumeration raise [TypeError]; a
    root list or string does so exactly when it holds one of the two
    spellings (as an element, as a substring), and yields an empty worklist
    otherwise; a root dict whose value under the selected spelling is not a
    list yields an empty worklist, whatever the other spelling holds. *)
Theorem X10_malformed_roots (data : json) :
  match data with
  | JNull | JBool _ | JInt _ | JFloat _ => enumerate_tasks data = Raise TypeError
  | JList l =>
      enumerate_tasks data =
      if existsb (fun x => match x with
                           | JStr s => str_eqb (lit "modeles") s || str_eqb (lit "models") s
                           | _ => false
                           end) l
      then Raise TypeError else Ok []
  | JStr s =>
      enumerate_tasks data =
      if contains (lit "modeles") s || contains (lit "models") s
      then Raise TypeError else Ok []
  | JDict d =>
      (forall l, dict_get d (selected_key data) <> Some (JList l)) ->
      enumerate_tasks data = Ok []
  end.
Proof.
  destruct data; try reflexivity.
  - unfold enumerate_tasks. cbn [py_in rbind].
    destruct (contains (lit "modeles") s) eqn:H1; cbn [orb].
    + now rewrite H1.
    + now destruct (contains (lit "models") s).
  - unfold enumerate_tasks. cbn [py_in rbind].
    set (has k := existsb (fun x => match x with
                                    | JStr s => str_eqb k s
                                    | _ => false
                                    end) l).
    assert (Hor : existsb (fun x => match x with
                             | JStr s => str_eqb (lit "modeles") s || str_eqb (lit "models") s
                             | _ => false
                             end) l = has (lit "modeles") || has (lit "models")).
    { unfold has. induction l as [|x l IH]; [reflexivity|]. cbn [existsb].
      rewrite IH. destruct x; try reflexivity.
      destruct (str_eqb (lit "modeles") s), (str_eqb (lit "models") s); cbn;
        try reflexivity; now rewrite ?orb_true_r. }
    rewrite Hor. fold (has (lit "modeles")).
    destruct (has (lit "modeles")) eqn:H1; cbn [orb].
    + fold (has (lit "modeles")). now rewrite H1.
    + fold (has (lit "models")). now destruct (has (lit "models")).
  - intros Hno. unfold enumerate_tasks. cbn [py_in rbind py_getitem].
    cbn [selected_key] in Hno.
    set (key := if dict_has d (lit "modeles") then lit "modeles" else lit "models") in *.
    unfold dict_has.
    destruct (dict_get d key) as [x|] eqn:Hx; cbn [rbind]; [|reflexivity].
    destruct x as [| | | | |l'|]; try reflexivity. now destruct (Hno l').
Qed.

(** * Further properties: the counter, and odd entries *)

Lemma assignments_app (t1 t2 : list event) :
  assignments (t1 ++ t2) = assignments t1 + assignments t2.
Proof.
  induction t1 as [|e t1 IH]; [reflexivity|].
  destruct e; cbn [app assignments]; rewrite IH; reflexivity.
Qed.

Lemma assignments_benign (d : json) (t : list event) :
  Forall (benign d) t -> assignments t = 0.
Proof.
  induction 1 as [|e t He _ IH]; [reflexivity|].
  destruct e; cbn [assignments]; try assumption. contradiction.
Qed.

Lemma turn_effect_counter (r : ref) (w w' : world) :
  turn_effect r w w' ->
  exists t, w_trace w' = w_trace w ++ t /\
            w_updated w' = w_updated w + assignments t.
Proof.
  intros (t & Ht & [(_ & H2 & Hall) | (text & t1 & t2 & _ & H2 & -> & Hp & Hall)]);
    eexists; (split; [exact Ht|]).
  - rewrite (assignments_benign _ _ Hall). lia.
  - rewrite assignments_app. cbn [assignments].
    rewrite (assignments_benign (w_data w) t1)
      by (eapply Forall_impl; [|exact Hp]; apply passive_benign).
    rewrite (assignments_benign _ _ Hall). lia.
Qed.

Lemma assignments_init (t : list event) :
  Forall init_event t -> assignments t = 0.
Proof.
  induction 1 as [|e t He _ IH]; [reflexivity|].
  destruct e; cbn [assignments]; try assumption. contradiction.
Qed.

Lemma process_tasks_counter (E : env) (total : nat) (tasks : list ref) :
  forall i w,
    exists t,
      w_trace (snd (process_tasks E total i tasks w)) = w_trace w ++ t /\
      w_updated (snd (process_tasks E total i tasks w)) =
      w_updated w + assignments t.
Proof.
  induction tasks as [|r rest IH]; intros i w.
  - exists [Log Done]. now split.
  - cbn [process_tasks]. unfold bind.
    destruct (turn_effect_counter _ _ _ (iteration_effect E total i r w))
      as (t & Ht & Hu).
    destruct (iteration E total i r w) as [[f|e] w1]; cbn [snd] in *.
    + destruct f; [|now exists t].
      destruct (IH (S i) w1) as (t' & Ht' & Hu').
      exists (t ++ t'). rewrite Ht', Ht, Hu', Hu, assignments_app.
      split; [now rewrite app_assoc | lia].
    + now exists t.
Qed.

(** X11: [updated_count] counts the assignments.  Whatever way the loop ends,
    the counter has grown by the number of [ref_text] assignments made; and
    at the end of [main], started on a catalog file, it is the number of
    assignments of the run. *)
Theorem X11_counter_counts_assignments (E : env) :
  (forall total tasks i w,
     exists t,
       w_trace (snd (process_tasks E total i tasks w)) = w_trace w ++ t /\
       w_updated (snd (process_tasks E total i tasks w)) =
       w_updated w + assignments t) /\
  (forall d0 faults,
     w_updated (snd (main E (start_world d0 faults))) =
     assignments (w_trace (snd (main E (start_world d0 faults))))).
Proof.
  split; [intros; apply process_tasks_counter|].
  intros d0 faults.
  destruct (main E (start_world d0 faults)) as [res wf] eqn:Hm. cbn [snd].
  apply main_cases in Hm as [Hi | (w5 & tasks' & I5 & _ & _ & _ & Hrun)].
  - destruct Hi as (_ & Hu & (t & Ht & Hq) & _). cbn in Hu, Ht.
    rewrite Hu, Ht. symmetry. now apply assignments_init.
  - destruct I5 as (_ & Hu & (t & Ht & Hq) & _). cbn in Hu, Ht.
    destruct (process_tasks_counter E (List.length tasks') tasks' 0 w5)
      as (t' & Ht' & Hu').
    rewrite Hrun in Ht', Hu'. cbn [snd] in Ht', Hu'.
    rewrite Hu', Ht', Ht, Hu, assignments_app, (assignments_init _ Hq).
    reflexivity.
Qed.

(** X12: an entry whose [file] attribute is truthy but not a string makes
    [os.path.join] raise [TypeError] before any file is looked for; the loop
    logs the error and goes on to the next entry, the catalog and its file
    as they were. *)
Theorem X12_non_string_file_is_contained (E : env) (total i : nat) (r : ref)
    (rest : list ref) (w : world) (d : dict) :
  let name := get_or d (lit "name") JNull in
  entry_at (w_data w) r = Some (JDict d) ->
  pending (JDict d) = true ->
  truthy (get_or d (lit "file") JNull) = true ->
  (forall s, get_or d (lit "file") JNull <> JStr s) ->
  process_single_model E r w = (Raise TypeError, w) /\
  process_tasks E total i (r :: rest) w =
  process_tasks E total (S i) rest
    (w_emit (Log (ErrorProcessing name TypeError)) (w_turn total i name w)).
Proof.
  intros name Hd Hpend Hfile Hns.
  rewrite pending_dict in Hpend. apply negb_true_iff in Hpend.
  assert (Hpsm : forall w0, entry_at (w_data w0) r = Some (JDict d) ->
                            process_single_model E r w0 = (Raise TypeError, w0)).
  { intros w0 H0. rewrite (process_single_model_dict E r w0 d H0), Hpend, Hfile.
    cbn [negb]. unfold transcribe_entry.
    apply bind_raise. unfold resolve_audio_file.
    destruct (get_or d (lit "file") JNull) as [| | | |s| |] eqn:Hg; try reflexivity.
    now destruct (Hns s). }
  split; [now apply Hpsm|].
  apply process_tasks_next.
  rewrite (iteration_exception E total i r w (w_turn total i name w) TypeError).
  - unfold on_exception.
    now rewrite (bind_entry_get_dict r _ _ _ (w_turn total i name w) d Hd).
  - rewrite (loop_body_dict _ _ _ _ _ _ Hd). apply bind_raise. now apply Hpsm.
  - reflexivity.
Qed.

Lemma X12_witness_numeric_file :
  let w := loaded_world odd_file_catalog [] in
  entry_at (w_data w) entry_0 = Some (JDict dict_n) /\
  pending (JDict dict_n) = true /\
  truthy (get_or dict_n (lit "file") JNull) = true /\
  (forall s, get_or dict_n (lit "file") JNull <> JStr s) /\
  process_single_model sample_env entry_0 w = (Raise TypeError, w).
Proof.
  intros w.
  assert (H1 : entry_at (w_data w) entry_0 = Some (JDict dict_n)) by reflexivity.
  assert (H2 : pending (JDict dict_n) = true) by reflexivity.
  assert (H3 : truthy (get_or dict_n (lit "file") JNull) = true) by reflexivity.
  assert (H4 : forall s, get_or dict_n (lit "file") JNull <> JStr s)
    by (intros s; discriminate).
  repeat (split; [assumption|]).
  exact (proj1 (X12_non_string_file_is_contained sample_env 1 0 entry_0 [] w dict_n
                  H1 H2 H3 H4)).
Defined.

(** * Further properties: the transcript *)

Lemma lstrip_head (s : pystr) :
  match lstrip s with [] => True | c :: _ => is_space c = false end.
Proof.
  induction s as [|c s IH]; [exact I|].
  cbn [lstrip]. destruct (is_space c) eqn:Hc; [exact IH | exact Hc].
Qed.

Lemma lstrip_split (s : pystr) : exists a, s = a ++ lstrip s /\ blank a.
Proof.
  induction s as [|c s (a & Ha & Hb)]; [exists []; split; [reflexivity | constructor]|].
  cbn [lstrip]. destruct (is_space c) eqn:Hc.
  - exists (c :: a). split; [cbn; now rewrite <- Ha | now constructor].
  - exists []. split; [reflexivity | constructor].
Qed.

(** [strip] removes white space at the two ends, and nothing else. *)
Lemma strip_spec (s : pystr) :
  trimmed (strip s) /\ exists a b, s = a ++ strip s ++ b /\ blank a /\ blank b.
Proof.
  unfold strip, rstrip.
  destruct (lstrip_split s) as (a & Ha & Hba).
  destruct (lstrip_split (rev (lstrip s))) as (b & Hb & Hbb).
  pose proof (lstrip_head s) as Hu.
  pose proof (lstrip_head (rev (lstrip s))) as Hv.
  set (u := lstrip s) in *. set (v := lstrip (rev u)) in *.
  assert (Hu' : u = rev v ++ rev b).
  { rewrite <- rev_app_distr, <- Hb. now rewrite rev_involutive. }
  split.
  - destruct v as [|c v']; [exact I|]. cbn [rev] in *.
    assert (Hl : forall x, last (rev v' ++ [c]) x = c) by (intros; apply last_last).
    destruct (rev v') as [|h q] eqn:Hq; cbn [app] in *.
    + split; [exact Hv | exact Hv].
    + rewrite Hu' in Hu. cbn in Hu. split; [exact Hu|].
      change (h :: q ++ [c]) with ((h :: q) ++ [c]). now rewrite last_last.
  - exists a, (rev b). split; [now rewrite <- Hu'|].
    split; [assumption | now apply Forall_rev].
Qed.

Lemma transcribe_audio_some (E : env) (p : pystr) (language : json)
    (w w' : world) (t : pystr) :
  transcribe_audio E p language w = (Ok (Some t), w') ->
  (exists raw, whisper E p (whisper_options language) = Some raw /\ t = strip raw) /\
  exists t0, w_trace w' = w_trace w ++ t0 /\
             In (CallTranscribe p (whisper_options language)) t0.
Proof.
  unfold transcribe_audio, try_except. fold (whisper_options language).
  set (body := bind (os_path_exists E p) _).
  destruct (body w) as [[o|e] w2] eqn:Hb.
  2: { destruct (is_Exception e); [|discriminate]. intros [= ]. }
  intros [= -> ->]. unfold body in Hb.
  apply bind_ok_inv in Hb as (found & w1 & Hex & Hk).
  destruct (ro_os_path_exists E p w) as (_ & _ & _ & t1 & Ht1 & _).
  rewrite Hex in Ht1. cbn [snd] in Ht1.
  destruct found; cbn [negb] in Hk; [|discriminate Hk].
  apply bind_ok_inv in Hk as (u & w1' & Hlog & Hk).
  injection Hlog as _ <-.
  apply bind_ok_inv in Hk as (text & w3 & Hwt & Hret).
  injection Hret as <- <-.
  unfold whisper_transcribe in Hwt.
  apply bind_ok_inv in Hwt as (u' & w4 & Hcall & Hm).
  assert (Hw4 : w4 = w_call (CallTranscribe p (whisper_options language))
                       (w_emit (Log (Transcribing p language)) w1)).
  { unfold call in Hcall. destruct (w_faults _) as [|[f|] l]; now inversion Hcall. }
  destruct (whisper E p (whisper_options language)) as [raw|]; [|discriminate Hm].
  injection Hm as <- <-. split; [now exists raw|].
  exists (t1 ++ [Log (Transcribing p language);
                 CallTranscribe p (whisper_options language)]).
  subst w4. cbn [w_call w_emit w_trace]. rewrite Ht1, <- !app_assoc.
  split; [reflexivity|]. apply in_or_app. right. right. now left.
Qed.

(** X13: [transcribe_audio] contains every [Exception]: the only exception
    that leaves it is a [KeyboardInterrupt] delivered during one of its two
    calls.  A text it returns is the model's output for the file with the
    white space at the two ends removed, and nothing else. *)
Theorem X13_transcribe_audio_contains_exceptions (E : env) (p : pystr)
    (language : json) (w : world) :
  match fst (transcribe_audio E p language w) with
  | Raise e => e = KeyboardInterrupt /\ In (Some Sigint) (firstn 2 (w_faults w))
  | Ok None => True
  | Ok (Some t) =>
      trimmed t /\
      exists raw a b,
        whisper E p (whisper_options language) = Some raw /\
        raw = a ++ t ++ b /\ blank a /\ blank b
  end.
Proof.
  destruct (transcribe_audio E p language w) as [[[t|]|e] w'] eqn:H; cbn [fst].
  - apply transcribe_audio_some in H as ((raw & Hw & ->) & _).
    destruct (strip_spec raw) as (Ht & a & b & Hs).
    split; [assumption|]. now exists raw, a, b.
  - exact I.
  - revert H. unfold transcribe_audio, try_except, os_path_exists, try_except,
      whisper_transcribe, bind, call, log, emit, get_disk, ret, raise.
    destruct w as [d u f tr fl]. cbn [w_faults w_call w_emit w_disk w_trace tl].
    destruct fl as [|[[|]|] fl]; cbn;
      try discriminate;
      try (intros [= <- _]; split; [reflexivity | tauto]).
    all: destruct (path_exists E f p); cbn; try discriminate.
    1: destruct (whisper E p _); cbn; discriminate.
    destruct fl as [|[[|]|] fl]; cbn;
      try discriminate;
      try (intros [= <- _]; split; [reflexivity | tauto]).
    all: destruct (whisper E p _); cbn; discriminate.
Qed.

Lemma transcript_in_app (E : env) (t t' : list event) (text : pystr) :
  transcript_in E t text -> transcript_in E (t ++ t') text.
Proof.
  intros (p & o & raw & Hin & H). exists p, o, raw.
  split; [apply in_or_app; now left | exact H].
Qed.

Lemma sourced_app_quiet (E : env) (t t' : list event) :
  sourced E t -> Forall no_assign t' -> sourced E (t ++ t').
Proof.
  intros Hs Hq n r text Hn.
  destruct (Nat.lt_ge_cases n (List.length t)) as [Hlt | Hge].
  - rewrite nth_error_app1 in Hn by assumption.
    destruct (Hs n r text Hn) as (Hne & Htr). split; [assumption|].
    rewrite firstn_app. replace (n - List.length t) with 0 by lia.
    cbn [firstn]. now rewrite app_nil_r.
  - rewrite nth_error_app2 in Hn by assumption. apply nth_error_In in Hn.
    rewrite Forall_forall in Hq. now apply Hq in Hn.
Qed.

Lemma sourced_snoc (E : env) (t : list event) (r : ref) (text : pystr) :
  sourced E t -> nonempty text = true -> transcript_in E t text ->
  sourced E (t ++ [Assign r text]).
Proof.
  intros Hs Hne Htr n r' text' Hn.
  destruct (Nat.lt_ge_cases n (List.length t)) as [Hlt | Hge].
  - rewrite nth_error_app1 in Hn by assumption.
    destruct (Hs n r' text' Hn) as (Hne' & Htr'). split; [assumption|].
    rewrite firstn_app. replace (n - List.length t) with 0 by lia.
    cbn [firstn]. now rewrite app_nil_r.
  - rewrite nth_error_app2 in Hn by assumption.
    destruct (n - List.length t) as [|k] eqn:Hk.
    + cbn in Hn. injection Hn as <- <-. split; [assumption|].
      rewrite firstn_app, Hk. cbn [firstn]. rewrite app_nil_r.
      rewrite firstn_all2 by lia. assumption.
    + cbn in Hn. now destruct k.
Qed.

Lemma passive_no_assign (e : event) : passive e -> no_assign e.
Proof. now destruct e. Qed.

Lemma benign_no_assign (d : json) (e : event) : benign d e -> no_assign e.
Proof. now destruct e. Qed.

Lemma init_no_assign (e : event) : init_event e -> no_assign e.
Proof. now destruct e. Qed.

Lemma process_single_model_source (E : env) (r : ref) (w w' : world) (t : pystr) :
  process_single_model E r w = (Ok (true, Some t), w') ->
  exists t0, w_trace w' = w_trace w ++ t0 /\ transcript_in E t0 t.
Proof.
  intros Hp.
  destruct (process_single_model_shape _ _ _ _ _ _ Hp) as (d & Hd & _).
  rewrite (process_single_model_dict E r w d Hd) in Hp.
  destruct (truthy (get_or d (lit "ref_text") JNull)); [discriminate Hp|].
  destruct (negb (truthy (get_or d (lit "file") JNull))); [discriminate Hp|].
  unfold transcribe_entry in Hp.
  apply bind_ok_inv in Hp as (p & w1 & Hres & Hp).
  apply bind_ok_inv in Hp as (o & w2 & Hta & Hp).
  destruct (ro_resolve_audio_file E (get_or d (lit "file") JNull) w)
    as (_ & _ & _ & t1 & Ht1 & _).
  rewrite Hres in Ht1. cbn [snd] in Ht1.
  destruct o as [t'|]; [|discriminate Hp].
  destruct (nonempty t'); [|discriminate Hp].
  apply bind_ok_inv in Hp as (u & w3 & Hlog & Hret).
  injection Hlog as _ <-. injection Hret as <- <-.
  apply transcribe_audio_some in Hta as ((raw & Hw & Hs) & t2 & Ht2 & Hin).
  exists (t1 ++ t2 ++ [Log (Transcribed (get_or d (lit "name") (JStr (lit "Unknown")))
                         (firstn 50 t'))]).
  split.
  - cbn [w_emit w_trace]. rewrite Ht2, Ht1. now rewrite <- !app_assoc.
  - exists p, (whisper_options (get_or d (lit "language") JNull)), raw.
    split; [|now split].
    apply in_or_app. right. apply in_or_app. now left.
Qed.

Lemma loop_body_sourced (E : env) (total i : nat) (r : ref) (w : world) :
  sourced E (w_trace w) -> sourced E (w_trace (snd (loop_body E total i r w))).
Proof.
  intros Hs.
  destruct (entry_at (w_data w) r) as [[| | | | | |d]|] eqn:Hd.
  1-6,8: destruct (entry_get_not_dict r (lit "name") JNull w) as [e He];
         [intros ? ?; congruence|]; unfold loop_body; rewrite (bind_raise _ _ _ _ _ He);
         exact Hs.
  rewrite (loop_body_dict _ _ _ _ _ _ Hd).
  set (w1 := w_turn total i (get_or d (lit "name") JNull) w).
  assert (Hs1 : sourced E (w_trace w1)).
  { unfold w1. cbn [w_turn w_emit w_trace]. apply sourced_app_quiet; [assumption|].
    now repeat constructor. }
  destruct (ro_process_single_model E r w1) as (H1 & _ & _ & t & Ht & Hall).
  assert (Hs2 : sourced E (w_trace (snd (process_single_model E r w1)))).
  { rewrite Ht. apply sourced_app_quiet; [assumption|].
    eapply Forall_impl; [|exact Hall]. apply passive_no_assign. }
  destruct (process_single_model E r w1) as [[[b o]|e] w2] eqn:Hp; cbn [snd] in *.
  2: now rewrite (bind_raise _ _ _ _ _ Hp).
  rewrite (bind_run _ _ _ _ _ Hp).
  destruct (process_single_model_shape _ _ _ _ _ _ Hp) as (d' & Hd' & Hsh).
  destruct Hsh as [[-> ->] | (-> & _ & text & -> & Hne)]; [exact Hs2|].
  cbn [after_process]. rewrite Hne.
  assert (Hd2 : entry_at (w_data w2) r = Some (JDict d'))
    by (rewrite H1; exact Hd').
  destruct (commit_effect r text w2 d' Hd2) as (_ & _ & t2 & Ht2 & Hall2).
  rewrite Ht2.
  change (w_trace w2 ++ Assign r text :: ?l)
    with (w_trace w2 ++ [Assign r text] ++ l).
  rewrite app_assoc. apply sourced_app_quiet.
  - apply sourced_snoc; [assumption | assumption |].
    destruct (process_single_model_source _ _ _ _ _ Hp) as (t0 & Ht0 & Htr).
    rewrite Ht0. destruct Htr as (p & o & raw & Hin & Hw).
    exists p, o, raw. split; [apply in_or_app; now right | exact Hw].
  - constructor; [exact I|]. constructor; [exact I|].
    eapply Forall_impl; [|exact Hall2]. apply benign_no_assign.
Qed.

Lemma sourced_then {A} (E : env) (h : M A) (w : world) :
  sourced E (w_trace w) -> effect_at benign any_file h w ->
  sourced E (w_trace (snd (h w))).
Proof.
  intros Hs (_ & _ & _ & t & Ht & Hall). rewrite Ht.
  apply sourced_app_quiet; [assumption|].
  eapply Forall_impl; [|exact Hall]. apply benign_no_assign.
Qed.

Lemma iteration_sourced (E : env) (total i : nat) (r : ref) (w : world) :
  sourced E (w_trace w) -> sourced E (w_trace (snd (iteration E total i r w))).
Proof.
  intros Hs. rewrite iteration_cases.
  pose proof (loop_body_sourced E total i r w Hs) as H.
  destruct (loop_body E total i r w) as [[u|e] w']; cbn [snd] in *; [assumption|].
  destruct e; cbn [is_Exception]; cbn [snd];
    first [ assumption
          | apply sourced_then; [assumption | apply on_interrupt_effect]
          | apply sourced_then; [assumption | apply on_exception_effect] ].
Qed.

Lemma process_tasks_sourced (E : env) (total : nat) (tasks : list ref) :
  forall i w,
    sourced E (w_trace w) ->
    sourced E (w_trace (snd (process_tasks E total i tasks w))).
Proof.
  induction tasks as [|r rest IH]; intros i w Hs.
  - cbn. apply sourced_app_quiet; [assumption | now repeat constructor].
  - cbn [process_tasks]. unfold bind.
    pose proof (iteration_sourced E total i r w Hs) as H.
    destruct (iteration E total i r w) as [[f|e] w1]; cbn [snd] in *; [|assumption].
    destruct f; [now apply IH | assumption].
Qed.

Lemma main_sourced (E : env) (d0 : json) (faults : list (option fault)) :
  sourced E (w_trace (snd (main E (start_world d0 faults)))).
Proof.
  assert (Hinit : forall wk, init_state (start_world d0 faults) wk ->
                             sourced E (w_trace wk)).
  { intros wk (_ & _ & (t & Ht & Hq) & _). rewrite Ht. cbn [start_world w_trace app].
    change t with ([] ++ t). apply sourced_app_quiet.
    - intros n r text Hn. now destruct n.
    - eapply Forall_impl; [|exact Hq]. apply init_no_assign. }
  destruct (main E (start_world d0 faults)) as [res wf] eqn:Hm. cbn [snd].
  apply main_cases in Hm as [Hi | (w5 & tasks & I5 & _ & _ & _ & Hrun)].
  - now apply Hinit.
  - pose proof (process_tasks_sourced E (List.length tasks) tasks 0 w5 (Hinit _ I5))
      as H.
    now rewrite Hrun in H.
Qed.

(** X14: whatever [main] writes into a [ref_text] is a transcript: a
    non-empty text, without white space at either end, that is the stripped
    output of the model for a transcription made earlier in the run. *)
Theorem X14_written_text_is_a_transcript (E : env) (d0 : json)
    (faults : list (option fault)) (t1 t2 : list event) (r : ref) (text : pystr) :
  w_trace (snd (main E (start_world d0 faults))) = t1 ++ Assign r text :: t2 ->
  text <> [] /\ trimmed text /\
  exists p o raw,
    In (CallTranscribe p o) t1 /\ whisper E p o = Some raw /\ text = strip raw.
Proof.
  intros Ht.
  destruct (main_sourced E d0 faults (List.length t1) r text) as (Hne & Htr).
  { rewrite Ht, nth_error_app2 by lia. now rewrite Nat.sub_diag. }
  rewrite Ht, firstn_app, Nat.sub_diag, firstn_all in Htr.
  cbn [firstn] in Htr. rewrite app_nil_r in Htr.
  split; [now destruct text|].
  destruct Htr as (p & o & raw & Hin & Hw & Hs).
  split; [rewrite Hs; apply strip_spec | now exists p, o, raw].
Qed.

Lemma X14_witness_hello :
  let t := w_trace (snd (main sample_env (start_world one_entry_catalog []))) in
  t = firstn 14 t ++ Assign entry_0 (lit "hello") :: skipn 15 t /\
  trimmed (lit "hello") /\
  In (CallTranscribe (lit "/repo/modeles/b.wav") None) (firstn 14 t).
Proof.
  intros t.
  assert (H : t = firstn 14 t ++ Assign entry_0 (lit "hello") :: skipn 15 t)
    by (vm_compute; reflexivity).
  split; [exact H|].
  destruct (X14_written_text_is_a_transcript sample_env one_entry_catalog []
              (firstn 14 t) (skipn 15 t) entry_0 (lit "hello") H)
    as (_ & Htr & _).
  split; [exact Htr|]. vm_compute. tauto.
Defined.

(** * Further properties: a run that nothing disturbs *)

Lemma quiet_call (e : event) (w : world) : quiet (call e) w.
Proof. intros H0. unfold call. rewrite H0. cbn. now rewrite H0. Qed.

Lemma quiet_bind {A B} (m : M A) (k : A -> M B) (w : world) :
  quiet m w ->
  (forall a w1, m w = (Ok a, w1) -> quiet (k a) w1) ->
  quiet (bind m k) w.
Proof.
  intros Hm Hk H0. specialize (Hm H0). unfold bind.
  destruct (m w) as [[a|e] w1] eqn:Hmw; cbn [fst snd] in *.
  - exact (Hk a w1 eq_refl (proj1 Hm)).
  - split; [apply Hm|]. intros [= ->]. now apply (proj2 Hm).
Qed.

Lemma quiet_try {A} (body : M A) (handler : exn -> option (M A)) (w : world) :
  quiet body w ->
  (forall e h w1, body w = (Raise e, w1) -> handler e = Some h -> quiet h w1) ->
  quiet (try_except body handler) w.
Proof.
  intros Hb Hh H0. specialize (Hb H0). unfold try_except.
  destruct (body w) as [[a|e] w1] eqn:Hbw; cbn [fst snd] in *.
  - split; [apply Hb | discriminate].
  - destruct (handler e) as [h|] eqn:He.
    + exact (Hh e h w1 eq_refl He (proj1 Hb)).
    + exact Hb.
Qed.

Ltac quiet_step :=
  match goal with
  | |- quiet (bind _ _) _ => apply quiet_bind; [|intros ? ? _]
  | |- quiet (try_except _ _) _ => apply quiet_try; [|intros ? ? ? _ ?]
  | |- quiet (call _) _ => apply quiet_call
  | |- quiet (if ?b then _ else _) _ => destruct b
  | |- quiet (match ?x with _ => _ end) _ => destruct x
  | H : match ?x with _ => _ end = Some _ |- _ =>
      destruct x; try discriminate H; injection H as <-
  | |- quiet _ _ => intros H0; cbn; split; [exact H0 | discriminate]
  end.

Lemma quiet_os_path_exists (E : env) (p : pystr) (w : world) :
  quiet (os_path_exists E p) w.
Proof. unfold os_path_exists. repeat quiet_step. Qed.

Lemma quiet_transcribe_audio (E : env) (p : pystr) (language : json) (w : world) :
  quiet (transcribe_audio E p language) w.
Proof.
  unfold transcribe_audio, whisper_transcribe.
  repeat first [ apply quiet_os_path_exists | quiet_step ].
Qed.

Lemma quiet_resolve_audio_file (E : env) (rel : json) (w : world) :
  quiet (resolve_audio_file E rel) w.
Proof.
  unfold resolve_audio_file.
  destruct rel; try (intros H0; cbn; split; [exact H0 | discriminate]).
  repeat first [ apply quiet_os_path_exists | quiet_step ].
Qed.

Lemma quiet_transcribe_entry (E : env) (d : dict) (w : world) :
  quiet (transcribe_entry E d) w.
Proof.
  unfold transcribe_entry.
  repeat first [ apply quiet_resolve_audio_file | apply quiet_transcribe_audio
               | quiet_step ].
Qed.

Lemma calm_of_no_faults (n : nat) (w : world) : w_faults w = [] -> calm n w.
Proof. intros H. unfold calm. rewrite H. now destruct n. Qed.

Lemma str_encodable_strip (raw : pystr) :
  str_encodable raw = true -> str_encodable (strip raw) = true.
Proof.
  destruct (strip_spec raw) as (_ & a & b & Hs & _).
  intros H. rewrite Hs in H. unfold str_encodable in *.
  rewrite !forallb_app in H.
  apply andb_true_iff in H as (_ & H). now apply andb_true_iff in H as (H & _).
Qed.

Lemma encodable_at_key (k : pystr) (f : json -> json) (v : json) :
  (forall x, encodable x = true -> encodable (f x) = true) ->
  encodable v = true -> encodable (at_key k f v) = true.
Proof.
  intros Hf. destruct v; try easy. cbn [at_key encodable].
  induction d as [|[k0 x] d IH]; [easy|].
  cbn [dict_update forallb]. intros H. apply andb_true_iff in H as (H1 & H2).
  apply andb_true_iff in H1 as (Hk & Hx).
  destruct (str_eqb k k0); cbn [forallb]; rewrite Hk; cbn [andb].
  - now rewrite (Hf x Hx), H2.
  - now rewrite Hx, (IH H2).
Qed.

Lemma encodable_at_ix (i : nat) (f : json -> json) (v : json) :
  (forall x, encodable x = true -> encodable (f x) = true) ->
  encodable v = true -> encodable (at_ix i f v) = true.
Proof.
  intros Hf. destruct v; try easy. cbn [at_ix encodable].
  revert i. induction l as [|x l IH]; intros i; [easy|].
  cbn [forallb]. intros H. apply andb_true_iff in H as (Hx & Hl).
  destruct i as [|i]; cbn [list_update forallb].
  - now rewrite (Hf x Hx), Hl.
  - now rewrite Hx, (IH i Hl).
Qed.

Lemma encodable_setitem (k : pystr) (v e : json) :
  str_encodable k = true -> encodable v = true ->
  encodable e = true -> encodable (setitem k v e) = true.
Proof.
  intros Hk Hv. destruct e; try easy. cbn [setitem encodable].
  induction d as [|[k0 x] d IH]; cbn [dict_set forallb].
  - intros _. now rewrite Hk, Hv.
  - intros H. apply andb_true_iff in H as (H1 & H2).
    apply andb_true_iff in H1 as (Hk0 & Hx).
    destruct (str_eqb k k0); cbn [forallb]; rewrite Hk0; cbn [andb].
    + now rewrite Hv, H2.
    + now rewrite Hx, (IH H2).
Qed.

(** Writing a text that can be encoded keeps the catalog encodable. *)
Lemma encodable_set_ref_text (data : json) (r : ref) (text : pystr) :
  encodable data = true -> str_encodable text = true ->
  encodable (set_ref_text data r text) = true.
Proof.
  intros Hd Ht. unfold set_ref_text, update_entry.
  apply encodable_at_key; [|exact Hd]. intros g. apply encodable_at_ix.
  intros m. apply encodable_at_key. intros ms. apply encodable_at_ix.
  intros e. now apply encodable_setitem.
Qed.

(** A turn that nothing disturbs ends with the next turn, also when its
    save cannot encode the catalog; when the catalog and the transcripts can
    be encoded, the file is as current after the turn as it was before. *)
Lemma iteration_undisturbed (E : env) (total i : nat) (r : ref) (w : world)
    (d : dict) :
  w_faults w = [] -> entry_at (w_data w) r = Some (JDict d) ->
  exists w',
    iteration E total i r w = (Ok Next, w') /\
    w_faults w' = [] /\
    ((forall p o raw, whisper E p o = Some raw -> str_encodable raw = true) ->
     encodable (w_data w) = true -> file_current w ->
     encodable (w_data w') = true /\ file_current w').
Proof.
  intros H0 Hd.
  set (name := get_or d (lit "name") JNull).
  set (w1 := w_turn total i name w).
  assert (Hq : quiet (process_single_model E r) w1).
  { intros H1. rewrite (process_single_model_dict E r w1 d Hd).
    destruct (truthy _); [cbn; split; [exact H1 | discriminate]|].
    destruct (negb _); [cbn; split; [exact H1 | discriminate]|].
    now apply quiet_transcribe_entry. }
  specialize (Hq H0).
  assert (Hnd : forall w2, process_single_model E r w1 <> (Raise Dangling, w2)).
  { intros w2. rewrite (process_single_model_dict E r w1 d Hd).
    destruct (truthy _); [discriminate|]. destruct (negb _); [discriminate|].
    apply nd_transcribe_entry. }
  destruct (process_single_model E r w1) as [res w2] eqn:Hp.
  cbn [fst snd] in Hq. destruct Hq as [H2 Hki].
  pose proof (untouched_of_read_only _ _ _ _ (ro_process_single_model E r) Hp)
    as (Hu1 & _ & Hu3 & _).
  change (w_data w1) with (w_data w) in Hu1.
  change (w_disk w1) with (w_disk w) in Hu3.
  assert (Hd2 : entry_at (w_data w2) r = Some (JDict d)) by now rewrite Hu1.
  assert (Hsame : encodable (w_data w) = true -> file_current w ->
                  encodable (w_data w2) = true /\ file_current w2).
  { intros He Hfile. split; [now rewrite Hu1|].
    unfold file_current. now rewrite Hu3, Hu1. }
  destruct res as [[b o]|e].
  - destruct (process_single_model_shape _ _ _ _ _ _ Hp) as (d' & _ & Hs).
    destruct Hs as [[-> ->] | (-> & _ & text & -> & Hne)].
    + exists w2. split; [|split; [assumption | intros _; exact Hsame]].
      apply iteration_ok. rewrite (loop_body_dict _ _ _ _ _ _ Hd).
      now rewrite (bind_run _ _ _ _ _ Hp).
    + assert (Hbody : loop_body E total i r w = commit r text w2).
      { rewrite (loop_body_dict _ _ _ _ _ _ Hd), (bind_run _ _ _ _ _ Hp).
        cbn [after_process]. now rewrite Hne. }
      destruct (encodable (set_ref_text (w_data w2) r text)) eqn:Henc.
      * exists (w_committed r text name w2). split; [|split].
        -- apply iteration_ok. rewrite Hbody.
           apply commit_calm; [assumption | now apply calm_of_no_faults | assumption].
        -- cbn. now rewrite H2.
        -- intros _ _ _. split; [exact Henc | reflexivity].
      * set (W := w_emit (Log (SavingChanges name))
                    (w_incr (w_emit (Assign r text)
                       (w_put_data (set_ref_text (w_data w2) r text) w2)))).
        set (data' := set_ref_text (w_data w2) r text) in *.
        assert (Hcommit : commit r text w2 = (Raise UnicodeEncodeError, w_torn data' W)).
        { rewrite (commit_unfold _ _ _ _ Hd2). apply bind_raise.
          apply save_unencodable; [exact Henc|].
          apply calm_of_no_faults. exact H2. }
        exists (w_emit (Log (ErrorProcessing name UnicodeEncodeError)) (w_torn data' W)).
        split; [|split].
        -- rewrite (iteration_exception E total i r w (w_torn data' W)
                      UnicodeEncodeError);
             [| rewrite Hbody; exact Hcommit | reflexivity].
           unfold on_exception.
           assert (Hd3 : entry_at (w_data (w_torn data' W)) r =
                         Some (JDict (dict_set d (lit "ref_text") (JStr text)))).
           { exact (entry_at_update_same _ _
                      (setitem (lit "ref_text") (JStr text)) _ Hd2). }
           rewrite (bind_entry_get_dict _ _ _ _ _ _ Hd3).
           now rewrite get_or_set_other by reflexivity.
        -- cbn. now rewrite H2.
        -- intros Hw He _. exfalso.
           destruct (process_single_model_source _ _ _ _ _ Hp)
             as (t0 & _ & p & o & raw & _ & Hraw & ->).
           assert (Ht : str_encodable (strip raw) = true)
             by (apply str_encodable_strip; exact (Hw p o raw Hraw)).
           unfold data' in Henc. rewrite Hu1 in Henc.
           now rewrite (encodable_set_ref_text _ r _ He Ht) in Henc.
  - assert (He : is_Exception e = true).
    { destruct e; try reflexivity; [now destruct Hki | now destruct (Hnd w2)]. }
    exists (w_emit (Log (ErrorProcessing name e)) w2).
    split; [|split; [assumption | intros _; exact Hsame]].
    rewrite (iteration_exception E total i r w w2 e); [| |exact He].
    + unfold on_exception. now rewrite (bind_entry_get_dict _ _ _ _ _ _ Hd2).
    + rewrite (loop_body_dict _ _ _ _ _ _ Hd). now apply bind_raise.
Qed.

Lemma process_tasks_undisturbed (E : env) (total : nat) (tasks : list ref) :
  forall i w,
    w_faults w = [] -> refs_valid (w_data w) tasks ->
    exists w',
      process_tasks E total i tasks w = (Ok tt, w') /\
      (exists t, w_trace w' = t ++ [Log Done]) /\
      ((forall p o raw, whisper E p o = Some raw -> str_encodable raw = true) ->
       encodable (w_data w) = true -> file_current w -> file_current w').
Proof.
  induction tasks as [|r rest IH]; intros i w H0 Hv.
  - exists (w_emit (Log Done) w). split; [reflexivity|].
    split; [now exists (w_trace w) | now intros _ _ Hfile].
  - inversion Hv as [|? ? [d Hd] Hv']; subst.
    destruct (iteration_undisturbed E total i r w d H0 Hd) as (w1 & Hit & H1 & Hk).
    rewrite (process_tasks_next _ _ _ _ _ _ _ Hit).
    destruct (IH (S i) w1 H1) as (w' & Hrun & Ht & Hfile').
    { pose proof (iteration_effect E total i r w) as Heff. rewrite Hit in Heff.
      exact (turn_effect_valid r w w1 rest Heff Hv'). }
    exists w'. split; [assumption|]. split; [assumption|].
    intros Hw He Hfile. destruct (Hk Hw He Hfile) as (He1 & Hfile1).
    now apply Hfile'.
Qed.

(** X15: a run that nothing disturbs comes to its end.  Started on a catalog
    file that can be enumerated, with no fault delivered, [main] returns
    normally after its last log line ([Done.], or [No models to process.]
    when nothing is pending): every failure of an entry is contained, a
    save that cannot encode the catalog included.  When the catalog and the
    outputs of the model can be encoded in UTF-8, the file then holds the
    catalog as it is in memory. *)
Theorem X15_undisturbed_run_completes (E : env) (d0 : json) (tasks : list ref) :
  enumerate_tasks d0 = Ok tasks ->
  exists w',
    main E (start_world d0 []) = (Ok tt, w') /\
    (exists t,
       w_trace w' = t ++ [Log (match tasks with [] => NoModels | _ => Done end)]) /\
    ((forall p o raw, whisper E p o = Some raw -> str_encodable raw = true) ->
     encodable d0 = true -> file_current w').
Proof.
  intros Hen.
  rewrite (main_calm_ready E (start_world d0 []) d0) by (exact I || reflexivity).
  unfold main_ready. rewrite (bind_run _ _ _ _ _ (eq_refl : get_data _ = _)).
  change (w_data (w_ready E d0 (start_world d0 []))) with d0. rewrite Hen.
  unfold bind at 1. cbn [lift]. unfold bind at 1. cbn [log emit].
  set (w6 := w_emit _ _).
  destruct tasks as [|r rest].
  - cbn [List.length Nat.eqb]. eexists. split; [reflexivity|].
    split; [eexists; reflexivity | intros _ _; reflexivity].
  - cbn [List.length Nat.eqb].
    destruct (process_tasks_undisturbed E (S (List.length rest)) (r :: rest) 0 w6)
      as (w' & Hrun & Ht & Hfile); [reflexivity | |].
    + now apply enumerate_refs_valid.
    + exists w'. split; [assumption|]. split; [assumption|].
      intros Hw He. now apply Hfile.
Qed.

Lemma X15_witness_two_entries :
  enumerate_tasks two_entry_catalog = Ok [entry_0; entry_1] /\
  fst (main sample_env (start_world two_entry_catalog [])) = Ok tt.
Proof.
  assert (H : enumerate_tasks two_entry_catalog = Ok [entry_0; entry_1])
    by reflexivity.
  split; [exact H|].
  destruct (X15_undisturbed_run_completes sample_env two_entry_catalog _ H)
    as (w' & Hrun & _).
  now rewrite Hrun.
Defined.

(** * Further properties: the save of the interrupt handler *)



(** * Further properties: no transcript is lost by a later save *)

Lemma in_firstn {A} (x : A) (n : nat) (l : list A) : In x (firstn n l) -> In x l.
Proof.
  revert l. induction n as [|n IH]; intros [|y l]; cbn; try tauto.
  intros [H | H]; [now left | right; now apply IH].
Qed.

Lemma durable_extend (w w' : world) (t : list event) :
  w_trace w' = w_trace w ++ t ->
  kept_in (w_data w') (w_trace w ++ t) ->
  (forall d', In (CallDump d') t -> d' = w_data w') ->
  durable w -> durable w'.
Proof.
  intros Ht Hk Hdump (_ & Hd). split; [now rewrite Ht|].
  intros n d' Hn. rewrite Ht in *.
  destruct (Nat.lt_ge_cases n (List.length (w_trace w))) as [Hlt | Hge].
  - rewrite nth_error_app1 in Hn by assumption.
    rewrite firstn_app. replace (n - List.length (w_trace w)) with 0 by lia.
    cbn [firstn]. rewrite app_nil_r. now apply Hd.
  - rewrite nth_error_app2 in Hn by assumption. apply nth_error_In in Hn.
    rewrite (Hdump _ Hn). intros r text Hin. apply Hk.
    now apply in_firstn in Hin.
Qed.

Lemma turn_durable (r : ref) (w w' : world) :
  turn_effect r w w' -> durable w -> durable w'.
Proof.
  intros (t & Ht & Hcase) Hdur. pose proof Hdur as (Hk & _).
  apply (durable_extend w w' t Ht); [| |exact Hdur].
  - destruct Hcase as [(H1 & _ & Hall) | (text & t1 & t2 & Ha & _ & -> & Hp & Hall)].
    + rewrite H1. intros r0 text0 Hin. apply in_app_or in Hin as [Hin | Hin].
      * now apply Hk.
      * rewrite Forall_forall in Hall. now apply Hall in Hin.
    + destruct (assigned_settled _ _ _ _ Ha) as (Hs & _).
      destruct Ha as (e & He & _ & Hne & Hd').
      intros r0 text0 Hin. apply in_app_or in Hin as [Hin | Hin].
      * destruct (Hk r0 text0 Hin) as (e0 & He0 & Hp0 & Hc0).
        exists e0. split; [now apply Hs | now split].
      * apply in_app_or in Hin as [Hin | [Hin | Hin]].
        -- rewrite Forall_forall in Hp. now apply Hp in Hin.
        -- injection Hin as <- <-.
           exists (setitem (lit "ref_text") (JStr text) (JDict e)).
           split; [rewrite Hd'; now apply entry_at_update_same|].
           cbn [setitem child_key]. rewrite dict_get_set_same.
           split; [|reflexivity].
           rewrite pending_dict. unfold get_or. rewrite dict_get_set_same.
           cbn [truthy]. now destruct text.
        -- rewrite Forall_forall in Hall. now apply Hall in Hin.
  - intros d' Hin.
    destruct Hcase as [(H1 & _ & Hall) | (text & t1 & t2 & _ & _ & -> & Hp & Hall)].
    + rewrite Forall_forall in Hall. apply Hall in Hin. cbn in Hin. congruence.
    + apply in_app_or in Hin as [Hin | [Hin | Hin]].
      * rewrite Forall_forall in Hp. now apply Hp in Hin.
      * discriminate Hin.
      * rewrite Forall_forall in Hall. now apply Hall in Hin.
Qed.

Lemma process_tasks_durable (E : env) (total : nat) (tasks : list ref) :
  forall i w, durable w -> durable (snd (process_tasks E total i tasks w)).
Proof.
  induction tasks as [|r rest IH]; intros i w Hd.
  - cbn. apply (durable_extend w _ [Log Done]); [reflexivity | | | exact Hd].
    + intros r text Hin. apply in_app_or in Hin as [Hin | [Hin | []]];
        [now apply Hd | discriminate Hin].
    + intros d' [Hin | []]. discriminate Hin.
  - cbn [process_tasks]. unfold bind.
    pose proof (turn_durable r w _ (iteration_effect E total i r w) Hd) as H.
    destruct (iteration E total i r w) as [[f|e] w1]; cbn [snd] in *; [|assumption].
    destruct f; [now apply IH | assumption].
Qed.

Lemma main_durable (E : env) (d0 : json) (faults : list (option fault)) :
  durable (snd (main E (start_world d0 faults))).
Proof.
  assert (Hinit : forall wk, init_state (start_world d0 faults) wk -> durable wk).
  { intros wk (_ & _ & (t & Ht & Hq) & _). cbn [start_world w_trace app] in Ht.
    rewrite Forall_forall in Hq. split.
    - intros r text Hin. rewrite Ht in Hin. now apply Hq in Hin.
    - intros n d' Hn. rewrite Ht in Hn. apply nth_error_In in Hn.
      now apply Hq in Hn. }
  destruct (main E (start_world d0 faults)) as [res wf] eqn:Hm. cbn [snd].
  apply main_cases in Hm as [Hi | (w5 & tasks & I5 & _ & _ & _ & Hrun)].
  - now apply Hinit.
  - pose proof (process_tasks_durable E (List.length tasks) tasks 0 w5 (Hinit _ I5))
      as H.
    now rewrite Hrun in H.
Qed.

(** X17: no transcript is lost by a later save.  Whenever [main] dumps the
    catalog, the dumped catalog holds, at its entry, every [ref_text] the run
    has assigned until then; and so does the catalog in memory at the end. *)
Theorem X17_saves_hold_earlier_transcripts (E : env) (d0 : json)
    (faults : list (option fault)) (t1 t2 : list event) (d' : json)
    (r : ref) (text : pystr) :
  w_trace (snd (main E (start_world d0 faults))) = t1 ++ CallDump d' :: t2 ->
  In (Assign r text) t1 ->
  ref_text_at d' r = Some (JStr text) /\
  ref_text_at (w_data (snd (main E (start_world d0 faults)))) r = Some (JStr text).
Proof.
  intros Ht Hin. destruct (main_durable E d0 faults) as (Hk & Hd).
  split.
  - assert (Hn : nth_error (w_trace (snd (main E (start_world d0 faults))))
                   (List.length t1) = Some (CallDump d')).
    { rewrite Ht, nth_error_app2 by lia. now rewrite Nat.sub_diag. }
    destruct (Hd (List.length t1) d' Hn r text) as (e & He & _ & Hc).
    + rewrite Ht, firstn_app, Nat.sub_diag, firstn_all. cbn [firstn].
      rewrite app_nil_r. exact Hin.
    + unfold ref_text_at. now rewrite He.
  - destruct (Hk r text) as (e & He & _ & Hc).
    + rewrite Ht. apply in_or_app. now left.
    + unfold ref_text_at. now rewrite He.
Qed.

Lemma X17_witness_hello_saved :
  let t := w_trace (snd (main sample_env (start_world one_entry_catalog []))) in
  let d' := set_ref_text one_entry_catalog entry_0 (lit "hello") in
  t = firstn 17 t ++ CallDump d' :: skipn 18 t /\
  In (Assign entry_0 (lit "hello")) (firstn 17 t) /\
  ref_text_at d' entry_0 = Some (JStr (lit "hello")).
Proof.
  intros t d'.
  assert (H1 : t = firstn 17 t ++ CallDump d' :: skipn 18 t)
    by (vm_compute; reflexivity).
  assert (H2 : In (Assign entry_0 (lit "hello")) (firstn 17 t))
    by (vm_compute; tauto).
  split; [exact H1|]. split; [exact H2|].
  exact (proj1 (X17_saves_hold_earlier_transcripts sample_env one_entry_catalog []
                  (firstn 17 t) (skipn 18 t) d' entry_0 (lit "hello") H1 H2)).
Defined.
